(** * Harmony job orchestration: a shallow embedding

    The development follows four source files of the repository:

    - [services/harmony/app/models/job.ts]: the job entity, its state
      machine and its persistence barrier;
    - [app/models/user-work.ts]: the fairness queue that picks the next
      user and the next job for a service;
    - [app/workers/work-reaper.ts]: the periodic cleanup of work that
      belongs to finished jobs;
    - the granule query loop [querySource].

    Statuses and events are enumerations, records stand for the classes
    and the table rows, and code that throws, mutates [this] or writes to
    the database is written in a small state-and-exception monad. *)

From Stdlib Require Import ZArith SpecFloat List String Ascii Bool Lia.
From Stdlib Require Import DecimalString.
Import ListNotations.

Local Open Scope string_scope.
Local Open Scope Z_scope.

(** ** Exceptions and effects *)

(** The error classes the modelled code throws.  [ConflictError] comes
    from [util/errors]; [TypeError] is what JavaScript raises when a
    property is read from [undefined]; [StorageError] stands for any
    failure of a database call. *)
Inductive Exn : Type :=
| ConflictError (message : string)
| TypeError (message : string)
| StorageError (message : string).

(** How a call ends: it returns a value or it throws. *)
Inductive Completion (A : Type) : Type :=
| Returned (a : A)
| Threw (e : Exn).
Arguments Returned {A} a.
Arguments Threw {A} e.

(** A computation over a mutable state [S]: the state after the call is
    reported also when the call throws, since an assignment made before a
    [throw] is not undone. *)
Definition Eff (S A : Type) : Type := S -> Completion A * S.

Definition ret {S A : Type} (a : A) : Eff S A := fun s => (Returned a, s).

Definition throw {S A : Type} (e : Exn) : Eff S A := fun s => (Threw e, s).

Definition bind {S A B : Type} (m : Eff S A) (k : A -> Eff S B) : Eff S B :=
  fun s =>
    match m s with
    | (Returned a, s') => k a s'
    | (Threw e, s') => (Threw e, s')
    end.

Definition get {S : Type} : Eff S S := fun s => (Returned s, s).

Definition modify {S : Type} (f : S -> S) : Eff S unit := fun s => (Returned tt, f s).

Declare Scope eff_scope.
Delimit Scope eff_scope with eff.
Notation "x <- m ;; k" := (bind m (fun x => k))
  (at level 61, m at next level, right associativity) : eff_scope.
Notation "m ;; k" := (bind m (fun _ => k))
  (at level 61, right associativity) : eff_scope.

(** JavaScript truthiness of an optional string: [undefined], [null] and
    the empty string are falsy. *)
Definition truthy (m : option string) : bool :=
  match m with
  | Some s => negb (String.eqb s "")
  | None => false
  end.

(** [String.prototype.includes]. *)
Definition includes (s sub : string) : bool :=
  match String.index 0 sub s with
  | Some _ => true
  | None => false
  end.

(** ** The job state machine ([job.ts], lines 38-308) *)

Inductive JobStatus : Type :=
| ACCEPTED
| RUNNING
| RUNNING_WITH_ERRORS
| SUCCESSFUL
| FAILED
| CANCELED
| PAUSED
| PREVIEWING
| COMPLETE_WITH_ERRORS.

Inductive JobEvent : Type :=
| CANCEL
| COMPLETE
| COMPLETE_WITH_ERRORS_EVENT
| FAIL
| PAUSE
| RESUME
| SKIP_PREVIEW
| START
| START_WITH_PREVIEW.

Scheme Equality for JobStatus.
Scheme Equality for JobEvent.

(** The string value of each member of the [JobStatus] enum; this is what
    a template literal prints. *)
Definition statusString (s : JobStatus) : string :=
  match s with
  | ACCEPTED => "accepted"
  | RUNNING => "running"
  | RUNNING_WITH_ERRORS => "running_with_errors"
  | SUCCESSFUL => "successful"
  | FAILED => "failed"
  | CANCELED => "canceled"
  | PAUSED => "paused"
  | PREVIEWING => "previewing"
  | COMPLETE_WITH_ERRORS => "complete_with_errors"
  end.

(** One state node of the machine configuration: its [id], its [meta]
    block, whether it is declared [type: 'final'], and its [on] table. *)
Record StateNode : Type := {
  node_id : JobStatus;
  defaultMessage : string;
  active : bool;
  final : bool;
  on : list (JobEvent * JobStatus)
}.

Module StateMachine.

(** The keys of [states], in the order the configuration declares them. *)
Definition keys : list JobStatus :=
  [ACCEPTED; RUNNING; RUNNING_WITH_ERRORS; SUCCESSFUL; COMPLETE_WITH_ERRORS;
   FAILED; CANCELED; PREVIEWING; PAUSED].

(** The [states] object of [createMachine]. *)
Definition states (key : JobStatus) : StateNode :=
  match key with
  | ACCEPTED =>
      {| node_id := ACCEPTED;
         defaultMessage := "The job has been accepted and is waiting to be processed";
         active := true; final := false;
         on := [(START, RUNNING); (START_WITH_PREVIEW, PREVIEWING)] |}
  | RUNNING =>
      {| node_id := RUNNING;
         defaultMessage := "The job is being processed";
         active := true; final := false;
         on := [(COMPLETE, SUCCESSFUL);
                (COMPLETE_WITH_ERRORS_EVENT, COMPLETE_WITH_ERRORS);
                (CANCEL, CANCELED); (FAIL, FAILED); (PAUSE, PAUSED)] |}
  | RUNNING_WITH_ERRORS =>
      {| node_id := RUNNING_WITH_ERRORS;
         defaultMessage := "The job is being processed, but some items have failed processing";
         active := true; final := false;
         on := [(COMPLETE, SUCCESSFUL);
                (COMPLETE_WITH_ERRORS_EVENT, COMPLETE_WITH_ERRORS);
                (CANCEL, CANCELED); (FAIL, FAILED); (PAUSE, PAUSED)] |}
  | SUCCESSFUL =>
      {| node_id := SUCCESSFUL;
         defaultMessage := "The job has completed successfully";
         active := false; final := true; on := [] |}
  | COMPLETE_WITH_ERRORS =>
      {| node_id := COMPLETE_WITH_ERRORS;
         defaultMessage := "The job has completed with errors. See the errors field for more details";
         active := false; final := true; on := [] |}
  | FAILED =>
      {| node_id := FAILED;
         defaultMessage := "The job failed with an unknown error";
         active := false; final := true;
         (* allow retrigger of failure to simplify error handling *)
         on := [(FAIL, FAILED)] |}
  | CANCELED =>
      {| node_id := CANCELED;
         defaultMessage := "The job was canceled";
         active := false; final := true; on := [] |}
  | PREVIEWING =>
      {| node_id := PREVIEWING;
         defaultMessage := "The job is generating a preview before auto-pausing";
         active := true; final := false;
         on := [(SKIP_PREVIEW, RUNNING); (CANCEL, CANCELED); (FAIL, FAILED);
                (PAUSE, PAUSED)] |}
  | PAUSED =>
      {| node_id := PAUSED;
         defaultMessage := "The job is paused and may be resumed using the provided link";
         active := false; final := false;
         on := [(SKIP_PREVIEW, RUNNING); (RESUME, RUNNING); (CANCEL, CANCELED);
                (FAIL, FAILED)] |}
  end.

(** The events the machine knows: those that occur in some [on] table.
    The machine is [strict], so [transition] would throw on any other
    event; [events_complete] below shows that no member of [JobEvent]
    is rejected. *)
Definition events : list JobEvent :=
  flat_map (fun k => map fst (on (states k))) keys.

(** What [transition] hands back, as far as [canTransition] reads it. *)
Record State : Type := {
  value : JobStatus;
  changed : bool
}.

(** The first entry of an [on] table for the event. *)
Fixpoint candidate (ev : JobEvent) (table : list (JobEvent * JobStatus))
  : option JobStatus :=
  match table with
  | [] => None
  | (e, target) :: rest => if JobEvent_beq e ev then Some target else candidate ev rest
  end.

(** The actions a taken transition hands to the new state: the exit
    actions of the node left, the actions of the transition and the entry
    actions of the node entered.  The configuration declares none of
    them on any node or transition. *)
Definition actions (source : JobStatus) (event : JobEvent) (target : JobStatus)
  : list string := [].

(** [stateMachine.transition(currentStatus, event)] for this flat
    machine.  When the current node has no entry for the event the
    state is returned as it was, with [changed = false].  When it has
    one the value becomes the target, and the library (xstate 4) sets
    [changed] as it documents it: the value differs from the previous
    one, or the new state carries actions to execute (or the context was
    updated; this machine has none). *)
Definition transition (currentStatus : JobStatus) (event : JobEvent) : State :=
  match candidate event (on (states currentStatus)) with
  | Some target =>
      {| value := target;
         changed := negb (JobStatus_beq target currentStatus)
                    || negb (Nat.eqb (List.length (actions currentStatus event target)) 0) |}
  | None =>
      {| value := currentStatus; changed := false |}
  end.

(** [state.matches(desiredStatus)] on an atomic state value. *)
Definition matches (st : State) (desiredStatus : JobStatus) : bool :=
  JobStatus_beq (value st) desiredStatus.

End StateMachine.

(** [terminalStates]: the ids of the nodes declared final, in key order. *)
Definition terminalStates : list JobStatus :=
  map (fun k => node_id (StateMachine.states k))
      (filter (fun key => final (StateMachine.states key)) StateMachine.keys).

(** [activeJobStatuses]: the ids of the nodes whose [meta.active] is set. *)
Definition activeJobStatuses : list JobStatus :=
  map (fun k => node_id (StateMachine.states k))
      (filter (fun key => active (StateMachine.states key)) StateMachine.keys).

(** [statesToDefaultMessages[status]]. *)
Definition statesToDefaultMessages (status : JobStatus) : string :=
  defaultMessage (StateMachine.states status).

(** [Array.prototype.includes] on a list of statuses; the argument may be
    [undefined]. *)
Definition includesStatus (l : list JobStatus) (s : option JobStatus) : bool :=
  match s with
  | Some st => existsb (JobStatus_beq st) l
  | None => false
  end.

(** [canTransition(currentStatus, desiredStatus, event)]. *)
Definition canTransition (currentStatus desiredStatus : JobStatus) (event : JobEvent)
  : bool :=
  let state := StateMachine.transition currentStatus event in
  StateMachine.changed state && StateMachine.matches state desiredStatus.

(** The default [errorMessage] of [validateTransition]. *)
Definition defaultTransitionMessage (currentStatus desiredStatus : JobStatus) : string :=
  "Job status cannot be updated from " ++ statusString currentStatus ++ " to "
    ++ statusString desiredStatus ++ ".".

(** [validateTransition(currentStatus, desiredStatus, event, errorMessage)];
    [None] for the optional argument selects the default message. *)
Definition validateTransition {S : Type} (currentStatus desiredStatus : JobStatus)
  (event : JobEvent) (errorMessage : option string) : Eff S unit :=
  let errorMessage :=
    match errorMessage with
    | Some m => m
    | None => defaultTransitionMessage currentStatus desiredStatus
    end in
  if negb (canTransition currentStatus desiredStatus event)
  then throw (ConflictError errorMessage)
  else ret tt.

(** The transition table as section 4.1 of the specification prints it:
    for each state, the accepted events with their targets. *)
Definition spec_table (s : JobStatus) : list (JobEvent * JobStatus) :=
  match s with
  | ACCEPTED => [(START, RUNNING); (START_WITH_PREVIEW, PREVIEWING)]
  | RUNNING | RUNNING_WITH_ERRORS =>
      [(COMPLETE, SUCCESSFUL); (COMPLETE_WITH_ERRORS_EVENT, COMPLETE_WITH_ERRORS);
       (CANCEL, CANCELED); (FAIL, FAILED); (PAUSE, PAUSED)]
  | PREVIEWING =>
      [(SKIP_PREVIEW, RUNNING); (CANCEL, CANCELED); (FAIL, FAILED); (PAUSE, PAUSED)]
  | PAUSED =>
      [(SKIP_PREVIEW, RUNNING); (RESUME, RUNNING); (CANCEL, CANCELED); (FAIL, FAILED)]
  | SUCCESSFUL | COMPLETE_WITH_ERRORS | CANCELED => []
  | FAILED => [(FAIL, FAILED)]
  end.

(** The table lists [event] for [current] with target [desired]. *)
Definition spec_lists (current desired : JobStatus) (event : JobEvent) : bool :=
  existsb (fun p => JobEvent_beq (fst p) event && JobStatus_beq (snd p) desired)
          (spec_table current).

(** The table lists [event] for [current], with whatever target. *)
Definition spec_accepts (current : JobStatus) (event : JobEvent) : bool :=
  existsb (fun p => JobEvent_beq (fst p) event) (spec_table current).

(** ** Generic query helpers

    The [knex] builders used by the sources, on tables kept as lists of
    rows in storage order. *)

(** Insertion of one row into a list ordered by [le]; equal keys keep
    their storage order. *)
Fixpoint insert_by {A : Type} (le : A -> A -> bool) (x : A) (l : list A) : list A :=
  match l with
  | [] => [x]
  | y :: rest => if le x y then x :: y :: rest else y :: insert_by le x rest
  end.

(** [.orderBy(...)]: the rows sorted by [le]. *)
Fixpoint orderBy {A : Type} (le : A -> A -> bool) (l : list A) : list A :=
  match l with
  | [] => []
  | x :: rest => insert_by le x (orderBy le rest)
  end.

(** [.first()]: the first row of the result, [undefined] when it is empty. *)
Definition first {A : Type} (l : list A) : option A := hd_error l.

(** [SUM(column)] over the rows of a group. *)
Definition sum_of {A : Type} (column : A -> Z) (rows : list A) : Z :=
  fold_left (fun acc r => acc + column r) rows 0.

(** [MAX(column)] over the rows of a group; a group has at least one row,
    and the value for no row at all is never read. *)
Definition max_of {A : Type} (column : A -> Z) (rows : list A) : Z :=
  match rows with
  | [] => 0
  | r :: rest => fold_left (fun acc r' => Z.max acc (column r')) rest (column r)
  end.

(** ** JavaScript numbers *)

(** A [number] is an IEEE 754 binary64 value.  Its arithmetic is that of
    the Standard Library's specification of binary floating point, with
    53 bits of precision, rounding to nearest with ties to even, signed
    zeros, infinities and NaN. *)
Module Number.

Definition t : Type := spec_float.

Definition prec : Z := 53.
Definition emax : Z := 1024.

(** [x + y], [x * y] and [x / y]. *)
Definition add (x y : t) : t := SFadd prec emax x y.
Definition mul (x y : t) : t := SFmul prec emax x y.
Definition div (x y : t) : t := SFdiv prec emax x y.

(** [x < y] and [x <= y]; both are false when a side is NaN. *)
Definition ltb (x y : t) : bool := SFltb x y.
Definition leb (x y : t) : bool := SFleb x y.

(** The number an integer literal denotes. *)
Definition ofZ (z : Z) : t := binary_normalize prec emax z 0 false.

(** The number a decimal literal denotes that is written as the quotient
    of two integers below [2 ^ 53]: the double nearest to it. *)
Definition ofRatio (n d : Z) : t := div (ofZ n) (ofZ d).

(** [Math.max(x, y)]: NaN when a side is NaN, and [+0] is larger than
    [-0]. *)
Definition max (x y : t) : t :=
  match SFcompare x y with
  | None => S754_nan
  | Some Lt => y
  | Some Gt => x
  | Some Eq =>
      match x, y with
      | S754_zero sx, S754_zero sy => S754_zero (sx && sy)
      | _, _ => x
      end
  end.

(** The greatest integer that is at most the finite number with this
    sign, mantissa and exponent. *)
Definition floorOfFinite (s : bool) (m : positive) (e : Z) : Z :=
  let n := cond_Zopp s (Zpos m) in
  if 0 <=? e then n * 2 ^ e else n / 2 ^ (- e).

(** The values of [Math.min(Math.floor(x), n)] for an integer [n]: the
    floor of a finite number is an integer, which a double holds exactly
    and which is kept here as that integer; [-0] is kept as 0, from which
    the comparison and the assignment that follow cannot tell it. *)
Inductive Integral : Type :=
| NotANumber
| NegativeInfinity
| Integer (z : Z).

(** [Math.min(Math.floor(x), n)]. *)
Definition minOfFloor (x : t) (n : Z) : Integral :=
  match x with
  | S754_nan => NotANumber
  | S754_infinity true => NegativeInfinity
  | S754_infinity false => Integer n
  | S754_zero _ => Integer (Z.min 0 n)
  | S754_finite s m e => Integer (Z.min (floorOfFinite s m e) n)
  end.

End Number.

(** ** The tables *)

(** A row of [user_work] ([user-work.ts], class [UserWork], with the
    column names the queries use). *)
Module UserWork.

Record t : Type := {
  row_id : Z;
  job_id : string;
  service_id : string;
  username : string;
  ready_count : Z;
  running_count : Z;
  last_worked : Z
}.

Definition set_ready_count (n : Z) (r : t) : t :=
  {| row_id := row_id r; job_id := job_id r; service_id := service_id r;
     username := username r; ready_count := n; running_count := running_count r;
     last_worked := last_worked r |}.

End UserWork.

(** A row of [work_items], as far as the modelled code reads it. *)
Module WorkItem.

Record t : Type := {
  row_id : Z;
  jobID : string;
  serviceID : string
}.

End WorkItem.

(** A workflow step ([workflow-steps.ts]); [progress] is the value the
    step's own [updateProgress] computes.  The two fields that enter the
    rollup are JavaScript numbers. *)
Module WorkflowStep.

Record t : Type := {
  row_id : Z;
  jobID : string;
  serviceID : string;
  stepIndex : Z;
  workItemCount : Z;
  completed_work_item_count : Z;
  progress_weight : Number.t;
  progress : Number.t
}.

End WorkflowStep.

(** An output link of a job ([job-link.ts]); [link_id] is unset until the
    link has been inserted. *)
Record JobLink : Type := {
  link_id : option Z;
  link_jobID : string;
  href : string;
  title : option string;
  rel : option string
}.

(** The status-keyed messages of a job: the object [statesToMessages],
    with its keys in insertion order. *)
Definition Messages : Type := list (JobStatus * string).

Fixpoint lookupMessage (m : Messages) (status : JobStatus) : option string :=
  match m with
  | [] => None
  | (k, v) :: rest => if JobStatus_beq k status then Some v else lookupMessage rest status
  end.

(** [m[status] = message] on an object: an existing key keeps its place. *)
Fixpoint assignMessage (m : Messages) (status : JobStatus) (message : string) : Messages :=
  match m with
  | [] => [(status, message)]
  | (k, v) :: rest =>
      if JobStatus_beq k status then (k, message) :: rest
      else (k, v) :: assignMessage rest status message
  end.

(** A row of [jobs]: the fields [save] picks ([jobRecordFields]) with the
    two serialized columns; serialization itself is left abstract, the
    row holds the values that were serialized. *)
Record JobRow : Type := {
  r_id : Z;
  r_username : string;
  r_status : JobStatus;
  r_message : Messages;
  r_progress : Z;
  r_createdAt : Z;
  r_updatedAt : Z;
  r_request : string;
  r_numInputGranules : Z;
  r_jobID : string;
  r_requestId : string;
  r_batchesCompleted : Z;
  r_isAsync : bool;
  r_ignoreErrors : bool;
  r_destination_url : option string;
  r_service_name : option string;
  r_provider_id : option string;
  r_collectionIds : list string
}.

(** The database a transaction sees.  [clock] is the time [now] of the
    store and [next_id] the next value of its auto-number keys. *)
Record Store : Type := {
  jobs : list JobRow;
  job_links : list JobLink;
  labels_table : list string;
  jobs_labels : list (string * string);
  user_work : list UserWork.t;
  work_items : list WorkItem.t;
  workflow_steps : list WorkflowStep.t;
  clock : Z;
  next_id : Z
}.

Definition with_user_work (f : list UserWork.t -> list UserWork.t) (db : Store) : Store :=
  {| jobs := jobs db; job_links := job_links db; labels_table := labels_table db;
     jobs_labels := jobs_labels db; user_work := f (user_work db);
     work_items := work_items db; workflow_steps := workflow_steps db;
     clock := clock db; next_id := next_id db |}.

(** ** The fairness queue ([user-work.ts]) *)

(** The [where] clauses of the subquery of [getNextUsernameForWork]:
    [service_id = serviceID] and [ready_count > 0]. *)
Definition readyForService (serviceID : string) (r : UserWork.t) : bool :=
  String.eqb (UserWork.service_id r) serviceID && (0 <? UserWork.ready_count r).

(** [subquery]: the distinct usernames with a ready row for the service. *)
Definition usernameSubquery (table : list UserWork.t) (serviceID : string) : list string :=
  nodup string_dec (map UserWork.username (filter (readyForService serviceID) table)).

(** One row of the grouped result: [username], [lw] and [rc]. *)
Record UserGroup : Type := {
  g_username : string;
  lw : Z;
  rc : Z
}.

(** The rows of the table that belong to the user. *)
Definition rowsOfUser (table : list UserWork.t) (u : string) : list UserWork.t :=
  filter (fun r => String.eqb (UserWork.username r) u) table.

(** [select username, max(last_worked) as lw, sum(running_count) as rc
    ... whereIn('username', subquery) groupBy('username')]: one group per
    selected username, over every row of that user. *)
Definition groupByUsername (table : list UserWork.t) (serviceID : string) : list UserGroup :=
  let subquery := usernameSubquery table serviceID in
  let selected :=
    filter (fun r => existsb (String.eqb (UserWork.username r)) subquery) table in
  map (fun u =>
         {| g_username := u;
            lw := max_of UserWork.last_worked (rowsOfUser selected u);
            rc := sum_of UserWork.running_count (rowsOfUser selected u) |})
      (nodup string_dec (map UserWork.username selected)).

(** [orderBy('rc', 'asc').orderBy('lw', 'asc')]. *)
Definition rcThenLw (a b : UserGroup) : bool :=
  (rc a <? rc b) || ((rc a =? rc b) && (lw a <=? lw b)).

(** [getNextUsernameForWork(tx, serviceID)]; [None] is [undefined], the
    value of [results?.username] when the query finds no row.  Among
    groups equal in both keys the database is free to return any; here
    the one stored first is taken. *)
Definition getNextUsernameForWork (tx : Store) (serviceID : string)
  : Completion (option string) :=
  let results := first (orderBy rcThenLw (groupByUsername (user_work tx) serviceID)) in
  Returned (option_map g_username results).

(** [orderBy('last_worked', 'asc')]. *)
Definition byLastWorked (a b : UserWork.t) : bool :=
  UserWork.last_worked a <=? UserWork.last_worked b.

(** [getNextJobIdForUsernameAndService(tx, serviceID, username)]: reading
    [job_id] from the [undefined] result of an empty query throws. *)
Definition getNextJobIdForUsernameAndService (tx : Store) (serviceID username : string)
  : Completion string :=
  let results :=
    first (orderBy byLastWorked
             (filter (fun r => String.eqb (UserWork.username r) username
                               && String.eqb (UserWork.service_id r) serviceID
                               && (0 <? UserWork.ready_count r))
                     (user_work tx))) in
  match results with
  | Some row => Returned (UserWork.job_id row)
  | None => Threw (TypeError "Cannot read properties of undefined (reading 'job_id')")
  end.

(** [setReadyCountToZero(tx, jobID)]:
    [update user_work set ready_count = 0 where job_id = jobID]. *)
Definition setReadyCountToZero (jobID : string) : Eff Store unit :=
  modify (with_user_work
            (map (fun r => if String.eqb (UserWork.job_id r) jobID
                           then UserWork.set_ready_count 0 r else r))).


(** ** The job entity ([job.ts], class [Job]) *)

Definition TEXT_LIMIT : Z := 4096.

(** The instance fields of a [Job].  [recordId] is the auto-number key
    [id]; it and the two timestamps are unset until the record has been
    saved.  [originalStatus] is set by the constructor, for a record that
    already exists in the database, to the status it was loaded with. *)
Record Job : Type := {
  recordId : option Z;
  jobID : string;
  username : string;
  requestId : string;
  status : JobStatus;
  originalStatus : option JobStatus;
  statesToMessages : option Messages;
  progress : Z;
  batchesCompleted : Z;
  request : string;
  isAsync : bool;
  ignoreErrors : bool;
  createdAt : option Z;
  updatedAt : option Z;
  numInputGranules : Z;
  collectionIds : list string;
  links : list JobLink;
  labels : list string;
  destination_url : option string;
  service_name : option string;
  provider_id : option string
}.

(** Assignments to single fields of [this]. *)
Definition set_status (v : JobStatus) (this : Job) : Job :=
  {| recordId := recordId this; jobID := jobID this; username := username this;
     requestId := requestId this; status := v; originalStatus := originalStatus this;
     statesToMessages := statesToMessages this; progress := progress this;
     batchesCompleted := batchesCompleted this; request := request this;
     isAsync := isAsync this; ignoreErrors := ignoreErrors this;
     createdAt := createdAt this; updatedAt := updatedAt this;
     numInputGranules := numInputGranules this; collectionIds := collectionIds this;
     links := links this; labels := labels this;
     destination_url := destination_url this; service_name := service_name this;
     provider_id := provider_id this |}.

Definition set_statesToMessages (v : option Messages) (this : Job) : Job :=
  {| recordId := recordId this; jobID := jobID this; username := username this;
     requestId := requestId this; status := status this;
     originalStatus := originalStatus this;
     statesToMessages := v; progress := progress this;
     batchesCompleted := batchesCompleted this; request := request this;
     isAsync := isAsync this; ignoreErrors := ignoreErrors this;
     createdAt := createdAt this; updatedAt := updatedAt this;
     numInputGranules := numInputGranules this; collectionIds := collectionIds this;
     links := links this; labels := labels this;
     destination_url := destination_url this; service_name := service_name this;
     provider_id := provider_id this |}.

Definition set_progress (v : Z) (this : Job) : Job :=
  {| recordId := recordId this; jobID := jobID this; username := username this;
     requestId := requestId this; status := status this;
     originalStatus := originalStatus this;
     statesToMessages := statesToMessages this; progress := v;
     batchesCompleted := batchesCompleted this; request := request this;
     isAsync := isAsync this; ignoreErrors := ignoreErrors this;
     createdAt := createdAt this; updatedAt := updatedAt this;
     numInputGranules := numInputGranules this; collectionIds := collectionIds this;
     links := links this; labels := labels this;
     destination_url := destination_url this; service_name := service_name this;
     provider_id := provider_id this |}.

Definition set_request (v : string) (this : Job) : Job :=
  {| recordId := recordId this; jobID := jobID this; username := username this;
     requestId := requestId this; status := status this;
     originalStatus := originalStatus this;
     statesToMessages := statesToMessages this; progress := progress this;
     batchesCompleted := batchesCompleted this; request := v;
     isAsync := isAsync this; ignoreErrors := ignoreErrors this;
     createdAt := createdAt this; updatedAt := updatedAt this;
     numInputGranules := numInputGranules this; collectionIds := collectionIds this;
     links := links this; labels := labels this;
     destination_url := destination_url this; service_name := service_name this;
     provider_id := provider_id this |}.

Definition set_links (v : list JobLink) (this : Job) : Job :=
  {| recordId := recordId this; jobID := jobID this; username := username this;
     requestId := requestId this; status := status this;
     originalStatus := originalStatus this;
     statesToMessages := statesToMessages this; progress := progress this;
     batchesCompleted := batchesCompleted this; request := request this;
     isAsync := isAsync this; ignoreErrors := ignoreErrors this;
     createdAt := createdAt this; updatedAt := updatedAt this;
     numInputGranules := numInputGranules this; collectionIds := collectionIds this;
     links := v; labels := labels this;
     destination_url := destination_url this; service_name := service_name this;
     provider_id := provider_id this |}.

(** The three fields the record store sets when it saves a record. *)
Definition set_saved (id created updated : Z) (this : Job) : Job :=
  {| recordId := Some id; jobID := jobID this; username := username this;
     requestId := requestId this; status := status this;
     originalStatus := originalStatus this;
     statesToMessages := statesToMessages this; progress := progress this;
     batchesCompleted := batchesCompleted this; request := request this;
     isAsync := isAsync this; ignoreErrors := ignoreErrors this;
     createdAt := Some created; updatedAt := Some updated;
     numInputGranules := numInputGranules this; collectionIds := collectionIds this;
     links := links this; labels := labels this;
     destination_url := destination_url this; service_name := service_name this;
     provider_id := provider_id this |}.

(** [getMessage(status)]:
    [this?.statesToMessages?.[status] || statesToDefaultMessages[status]]. *)
Definition getMessage (this : Job) (forStatus : JobStatus) : string :=
  let stored :=
    match statesToMessages this with
    | Some m => lookupMessage m forStatus
    | None => None
    end in
  if truthy stored
  then match stored with Some s => s | None => "" end
  else statesToDefaultMessages forStatus.

(** [setMessage(message, status)]. *)
Definition setMessage (message : option string) (forStatus : JobStatus) : Eff Job unit :=
  match message with
  | Some m =>
      if truthy message
      then modify (fun this =>
                     let object :=
                       match statesToMessages this with Some o => o | None => [] end in
                     set_statesToMessages (Some (assignMessage object forStatus m)) this)
      else ret tt
  | None => ret tt
  end.

(** [updateStatus(status, message)]; the assignment [this.message = message]
    goes through the setter, which stores the message under the status
    just set. *)
Definition updateStatus (newStatus : JobStatus) (message : option string) : Eff Job unit :=
  (modify (set_status newStatus) ;;
   (if truthy message
    then (this <- get ;; setMessage message (status this))
    else ret tt) ;;
   this <- get ;;
   if JobStatus_beq (status this) SUCCESSFUL
      || JobStatus_beq (status this) COMPLETE_WITH_ERRORS
   then modify (set_progress 100)
   else ret tt)%eff.

(** [validateStatus()]. *)
Definition validateStatus : Eff Job unit :=
  (this <- get ;;
   if includesStatus terminalStates (originalStatus this)
   then throw (ConflictError
                 ("Job status cannot be updated from "
                    ++ match originalStatus this with
                       | Some s => statusString s
                       | None => "undefined"
                       end
                    ++ " to " ++ statusString (status this) ++ "."))
   else ret tt)%eff.

(** [isPaused()] and [hasTerminalStatus()]. *)
Definition isPaused (this : Job) : bool :=
  includesStatus [PAUSED; PREVIEWING] (Some (status this)).

Definition hasTerminalStatus (this : Job) : bool :=
  includesStatus terminalStates (Some (status this)).

(** [pause()]. *)
Definition pause : Eff Job unit :=
  (this <- get ;;
   validateTransition (status this) PAUSED PAUSE None ;;
   this <- get ;;
   updateStatus PAUSED (Some (getMessage this PAUSED)))%eff.

(** [resume()]. *)
Definition resume : Eff Job unit :=
  (this <- get ;;
   validateTransition (status this) RUNNING RESUME
     (Some ("Job status is " ++ statusString (status this)
              ++ " - only paused jobs can be resumed.")) ;;
   this <- get ;;
   updateStatus RUNNING (Some (getMessage this RUNNING)))%eff.

(** [skipPreview()]. *)
Definition skipPreview : Eff Job unit :=
  (this <- get ;;
   validateTransition (status this) RUNNING SKIP_PREVIEW
     (Some ("Job status is " ++ statusString (status this)
              ++ " - only previewing jobs can skip preview.")) ;;
   this <- get ;;
   updateStatus RUNNING (Some (getMessage this RUNNING)))%eff.

(** A default parameter value: it applies when the argument is
    [undefined]. *)
Definition orDefault (message : option string) (default : string) : option string :=
  match message with
  | Some m => Some m
  | None => Some default
  end.

(** [fail(message = statesToDefaultMessages.failed)]. *)
Definition fail (message : option string) : Eff Job unit :=
  (let message := orDefault message (statesToDefaultMessages FAILED) in
   this <- get ;;
   validateTransition (status this) FAILED FAIL None ;;
   updateStatus FAILED message)%eff.

(** [cancel(message = statesToDefaultMessages.canceled)]. *)
Definition cancel (message : option string) : Eff Job unit :=
  (let message := orDefault message (statesToDefaultMessages CANCELED) in
   this <- get ;;
   validateTransition (status this) CANCELED CANCEL None ;;
   updateStatus CANCELED message)%eff.

(** [succeed(message?)]. *)
Definition succeed (message : option string) : Eff Job unit :=
  (this <- get ;;
   validateTransition (status this) SUCCESSFUL COMPLETE None ;;
   updateStatus SUCCESSFUL message)%eff.

(** [complete_with_errors(message?)]. *)
Definition complete_with_errors (message : option string) : Eff Job unit :=
  (this <- get ;;
   validateTransition (status this) COMPLETE_WITH_ERRORS COMPLETE_WITH_ERRORS_EVENT None ;;
   updateStatus COMPLETE_WITH_ERRORS message)%eff.

(** ** Job persistence ([job.ts], [validate], [save], [pauseAndSave]) *)

(** A number inside a template literal. *)
Definition numberString (n : Z) : string := NilZero.string_of_int (Z.to_int n).

(** Characters are 8-bit code units; among them the line terminators,
    which [.] of a regular expression does not match, are LF and CR. *)
Definition lineTerminator (c : ascii) : bool :=
  Ascii.eqb c "010"%char || Ascii.eqb c "013"%char.

Fixpoint allChars (p : ascii -> bool) (s : string) : bool :=
  match s with
  | EmptyString => true
  | String c rest => p c && allChars p rest
  end.

Definition afterPrefix (p s : string) : option string :=
  if String.prefix p s
  then Some (String.substring (String.length p) (String.length s - String.length p) s)
  else None.

(** [request.match(/^https?:\/\/.+$/)]: one of the two schemes, then at
    least one character, none of them a line terminator, up to the end. *)
Definition matchesUrl (s : string) : bool :=
  let rest :=
    match afterPrefix "https://" s with
    | Some r => Some r
    | None => afterPrefix "http://" s
    end in
  match rest with
  | Some r => negb (String.eqb r "") && allChars (fun c => negb (lineTerminator c)) r
  | None => false
  end.

(** [validate()]: [None] is the [null] returned for a valid job. *)
Definition validate (this : Job) : option (list string) :=
  let errors := [] in
  let errors :=
    if (progress this <? 0) || (100 <? progress this)
    then List.app errors ["Invalid progress " ++ numberString (progress this)
                            ++ ". Job progress must be between 0 and 100."]
    else errors in
  let errors :=
    if batchesCompleted this <? 0
    then List.app errors ["Invalid batchesCompleted " ++ numberString (batchesCompleted this)
                            ++ ". Job batchesCompleted must be greater than or equal to 0."]
    else errors in
  let errors :=
    if negb (matchesUrl (request this))
    then List.app errors ["Invalid request " ++ request this ++ ". Job request must be a URL."]
    else errors in
  match errors with
  | [] => None
  | _ => Some errors
  end.

(** Modelled from the spec: [truncateString] of [@harmony/util/string],
    whose source is not among the files.  A string of at most [n]
    characters is returned unchanged, a longer one is cut to [n]. *)
Definition truncateString (s : string) (n : Z) : string :=
  if Z.of_nat (String.length s) <=? n then s
  else String.substring 0 (Z.to_nat n) s.

(** A method of the job that also reads or writes the database runs on
    the pair of [this] and the store. *)
Definition World : Type := (Job * Store)%type.

Definition onThis {A : Type} (m : Eff Job A) : Eff World A :=
  fun w => let (r, this') := m (fst w) in (r, (this', snd w)).

Definition onDb {A : Type} (m : Eff Store A) : Eff World A :=
  fun w => let (r, db') := m (snd w) in (r, (fst w, db')).

(** The record [save] writes: [pick(this, jobRecordFields)] with
    [collectionIds] and [message] replaced by the values that are
    serialized, [this.statesToMessages || {}] for the latter. *)
Definition dbRecord (this : Job) (id created updated : Z) : JobRow :=
  {| r_id := id;
     r_username := username this;
     r_status := status this;
     r_message := match statesToMessages this with Some m => m | None => [] end;
     r_progress := progress this;
     r_createdAt := created;
     r_updatedAt := updated;
     r_request := request this;
     r_numInputGranules := numInputGranules this;
     r_jobID := jobID this;
     r_requestId := requestId this;
     r_batchesCompleted := batchesCompleted this;
     r_isAsync := isAsync this;
     r_ignoreErrors := ignoreErrors this;
     r_destination_url := destination_url this;
     r_service_name := service_name this;
     r_provider_id := provider_id this;
     r_collectionIds := collectionIds this |}.

Definition with_jobs (f : list JobRow -> list JobRow) (bump : Z) (db : Store) : Store :=
  {| jobs := f (jobs db); job_links := job_links db; labels_table := labels_table db;
     jobs_labels := jobs_labels db; user_work := user_work db;
     work_items := work_items db; workflow_steps := workflow_steps db;
     clock := clock db; next_id := next_id db + bump |}.

(** Modelled from the spec: [DBRecord.save] of [record.ts], whose source
    is not among the files.  As the comment on [Job.save] says, the job
    is validated and an error is thrown if it is not valid; a new job is
    inserted and has its id, [createdAt] and [updatedAt] set; an existing
    job is updated and has its [updatedAt] set. *)
Definition DBRecord_save : Eff World unit :=
  fun w =>
    let (this, db) := w in
    match validate this with
    | Some errors =>
        (Threw (TypeError ("Job record is invalid: " ++ String.concat "," errors)), w)
    | None =>
        match recordId this, createdAt this with
        | Some id, Some created =>
            (Returned tt,
             (set_saved id created (clock db) this,
              with_jobs (map (fun r => if r_id r =? id
                                       then dbRecord this id created (clock db)
                                       else r)) 0 db))
        | _, _ =>
            (Returned tt,
             (set_saved (next_id db) (clock db) (clock db) this,
              with_jobs (fun rows => (rows ++ [dbRecord this (next_id db) (clock db) (clock db)])%list)
                        1 db))
        end
    end.

Definition with_link_id (id : Z) (l : JobLink) : JobLink :=
  {| link_id := Some id; link_jobID := link_jobID l; href := href l;
     title := title l; rel := rel l |}.

Definition insert_link (l : JobLink) (db : Store) : Store :=
  {| jobs := jobs db; job_links := (job_links db ++ [l])%list; labels_table := labels_table db;
     jobs_labels := jobs_labels db; user_work := user_work db;
     work_items := work_items db; workflow_steps := workflow_steps db;
     clock := clock db; next_id := next_id db + 1 |}.

(** [!link.id]. *)
Definition hasNoId (l : JobLink) : bool :=
  match link_id l with
  | Some i => i =? 0
  | None => true
  end.

(** The loop of [save] over [this.links]: a link without an id is saved,
    a link that has one is left alone.  Modelled from the spec for the
    call [link.save(tx)] of [job-link.ts]: the link is inserted and
    receives its id. *)
Fixpoint saveLinks (ls : list JobLink) (db : Store) : list JobLink * Store :=
  match ls with
  | [] => ([], db)
  | link :: rest =>
      if hasNoId link
      then let link' := with_link_id (next_id db) link in
           let (rest', db') := saveLinks rest (insert_link link' db) in
           (link' :: rest', db')
      else let (rest', db') := saveLinks rest db in
           (link :: rest', db')
  end.

(** Modelled from the spec: [setLabelsForJob] of [label.ts], whose source
    is not among the files.  Labels missing from the label table are
    inserted, and the join rows of the job are replaced by one row per
    distinct label. *)
Definition setLabelsForJob (job : string) (user : string) (ls : list string)
  : Eff Store unit :=
  modify (fun db =>
    let distinct := nodup string_dec ls in
    {| jobs := jobs db; job_links := job_links db;
       labels_table :=
         (labels_table db
            ++ filter (fun l => negb (existsb (String.eqb l) (labels_table db))) distinct)%list;
       jobs_labels :=
         (filter (fun p => negb (String.eqb (fst p) job)) (jobs_labels db)
            ++ map (fun l => (job, l)) distinct)%list;
       user_work := user_work db; work_items := work_items db;
       workflow_steps := workflow_steps db; clock := clock db;
       next_id := next_id db |}).

(** [save(tx)]. *)
Definition save : Eff World unit :=
  (let reservedMessageChars := 1000 in
   onThis validateStatus ;;
   this <- onThis get ;;
   let truncatedFailureMessage :=
     truncateString (getMessage this FAILED) (TEXT_LIMIT - reservedMessageChars) in
   onThis (setMessage (Some truncatedFailureMessage) FAILED) ;;
   onThis (modify (fun this => set_request (truncateString (request this) TEXT_LIMIT) this)) ;;
   DBRecord_save ;;
   (fun w => let (ls, db') := saveLinks (links (fst w)) (snd w) in
             (Returned tt, (set_links ls (fst w), db'))) ;;
   this <- onThis get ;;
   onDb (setLabelsForJob (jobID this) (username this) (labels this)))%eff.

(** [pauseAndSave(tx)]. *)
Definition pauseAndSave : Eff World unit :=
  (this <- onThis get ;;
   onThis (validateTransition (status this) PAUSED PAUSE None) ;;
   this <- onThis get ;;
   onThis (updateStatus PAUSED (Some (getMessage this PAUSED))) ;;
   save ;;
   this <- onThis get ;;
   onDb (setReadyCountToZero (jobID this)))%eff.

(** ** Progress rollup ([job.ts], [updateProgress]) *)

(** [sumOfWeights > 0 ? sumOfWeights : 1] after the first [reduce]. *)
Definition sumOfWeights (steps : list WorkflowStep.t) : Number.t :=
  let sumOfWeights :=
    fold_left (fun sum step => Number.add sum (WorkflowStep.progress_weight step))
              steps (Number.ofZ 0) in
  if Number.ltb (Number.ofZ 0) sumOfWeights then sumOfWeights else Number.ofZ 1.

(** [Math.max(0, progSum)] after the second [reduce]. *)
Definition progSum (steps : list WorkflowStep.t) : Number.t :=
  let progSum :=
    fold_left (fun sum step =>
                 Number.add sum (Number.mul (WorkflowStep.progress_weight step)
                                            (WorkflowStep.progress step)))
              steps (Number.ofZ 0) in
  Number.max (Number.ofZ 0) progSum.

(** [Math.min(Math.floor(progSum / sumOfWeights), 99)]: the value the
    method compares with [this.progress]. *)
Definition rolledUpProgress (steps : list WorkflowStep.t) : Number.Integral :=
  Number.minOfFloor (Number.div (progSum steps) (sumOfWeights steps)) 99.

(** The last three lines of [updateProgress]; [this.progress < progress]
    is false when [progress] is NaN or [-Infinity]. *)
Definition applyProgress (newProgress : Number.Integral) : Eff Job unit :=
  (this <- get ;;
   match newProgress with
   | Number.Integer newProgress =>
       if progress this <? newProgress
       then modify (set_progress newProgress)
       else ret tt
   | Number.NotANumber | Number.NegativeInfinity => ret tt
   end)%eff.

(** Modelled from the spec: [getWorkflowStepsByJobId] of
    [workflow-steps.ts], whose source is not among the files: the steps
    of the job, in the order the store keeps them. *)
Definition getWorkflowStepsByJobId (tx : Store) (job : string) : list WorkflowStep.t :=
  filter (fun s => String.eqb (WorkflowStep.jobID s) job) (workflow_steps tx).

Section UpdateProgress.

(** [step.updateProgress(prevStep)] of [workflow-steps.ts], whose source
    is not among the files: given the previous step, if any, it yields
    the step with its [progress] computed. *)
Variable stepUpdateProgress : option WorkflowStep.t -> WorkflowStep.t -> WorkflowStep.t.

(** The [for] loop: every step is updated from the updated step before it. *)
Fixpoint updateSteps (prevStep : option WorkflowStep.t) (steps : list WorkflowStep.t)
  : list WorkflowStep.t :=
  match steps with
  | [] => []
  | step :: rest =>
      let step' := stepUpdateProgress prevStep step in
      step' :: updateSteps (Some step') rest
  end.

(** [updateProgress(tx)]. *)
Definition updateProgress : Eff World unit :=
  (this <- onThis get ;;
   db <- onDb get ;;
   let steps := updateSteps None (getWorkflowStepsByJobId db (jobID this)) in
   onThis (applyProgress (rolledUpProgress steps)))%eff.

End UpdateProgress.

(** [sum(weight_i * progress_i)] and [sum(weight_i)] over the steps,
    added up in the order of the steps, starting from 0. *)
Definition weightedSum (steps : list WorkflowStep.t) : Number.t :=
  fold_left (fun sum step =>
               Number.add sum (Number.mul (WorkflowStep.progress_weight step)
                                          (WorkflowStep.progress step)))
            steps (Number.ofZ 0).

Definition weightSum (steps : list WorkflowStep.t) : Number.t :=
  fold_left (fun sum step => Number.add sum (WorkflowStep.progress_weight step))
            steps (Number.ofZ 0).

(** The floor of a number, clamped to the range from 0 to 99; NaN has no
    floor and stays NaN. *)
Definition clamp99 (x : Number.t) : Number.Integral :=
  match Number.minOfFloor x 99 with
  | Number.Integer z => Number.Integer (Z.max 0 z)
  | Number.NegativeInfinity => Number.Integer 0
  | Number.NotANumber => Number.NotANumber
  end.

(** The candidate of section 4.4 of the specification, in its words:
    [weighted = sum(weight_i * progress_i)], [total = max(1, sum(weight_i))],
    [candidate = floor(weighted / total)] clamped to the range from 0 to 99. *)
Definition spec_candidate (steps : list WorkflowStep.t) : Number.Integral :=
  let weighted := weightedSum steps in
  let total := Number.max (Number.ofZ 1) (weightSum steps) in
  clamp99 (Number.div weighted total).

(** The total the code divides by: the sum of the weights when that sum
    is greater than 0, and 1 otherwise. *)
Definition guarded_total (steps : list WorkflowStep.t) : Number.t :=
  if Number.ltb (Number.ofZ 0) (weightSum steps) then weightSum steps else Number.ofZ 1.

(** The same candidate over the guarded total. *)
Definition guarded_candidate (steps : list WorkflowStep.t) : Number.Integral :=
  clamp99 (Number.div (weightedSum steps) (guarded_total steps)).

(** Both sums have left the range of the finite numbers, the weighted
    sum downwards and the sum of the weights upwards. *)
Definition sumsOverflowApart (steps : list WorkflowStep.t) : Prop :=
  weightedSum steps = S754_infinity true /\ weightSum steps = S754_infinity false.

(** The job after the comparison and the assignment that end
    [updateProgress], for a given candidate. *)
Definition raisedTo (candidate : Number.Integral) (this : Job) : Job :=
  match candidate with
  | Number.Integer z => if progress this <? z then set_progress z this else this
  | Number.NotANumber | Number.NegativeInfinity => this
  end.

(** A number is NaN or has this sign. *)
Definition hasSign (s : bool) (x : Number.t) : Prop :=
  match x with
  | S754_nan => True
  | S754_zero sx | S754_infinity sx | S754_finite sx _ _ => sx = s
  end.

(** [try { body } catch (e) { handler(e) }]. *)
Definition try_catch {S A : Type} (body : Eff S A) (handler : Exn -> Eff S A) : Eff S A :=
  fun s =>
    match body s with
    | (Returned a, s') => (Returned a, s')
    | (Threw e, s') => handler e s'
    end.

(** ** The work reaper ([work-reaper.ts]) *)

Module WorkReaper.

(** What the logger received. *)
Inductive LogEntry : Type :=
| info (message : string)
| error (message : string)
| errorExn (e : Exn).

(** The two settings of [util/env] the reaper reads. *)
Record Env : Type := {
  reapableWorkAgeMinutes : Z;
  workReaperPeriodSec : Z
}.

(** The reaper object, the database it works on, and [faults]: for each
    database call still to come, in order, whether that call fails. *)
Record World : Type := {
  isRunning : bool;
  logger : list LogEntry;
  db : Store;
  faults : list bool
}.

Definition log (entry : LogEntry) : Eff World unit :=
  modify (fun w => {| isRunning := isRunning w; logger := (logger w ++ [entry])%list;
                      db := db w; faults := faults w |}).

(** One call to the database: it fails with a storage error when the
    fault script says so, and otherwise runs [op] on the store. *)
Definition dbCall {A : Type} (op : Store -> A * Store) : Eff World A :=
  fun w =>
    match faults w with
    | true :: rest =>
        (Threw (StorageError "database call failed"),
         {| isRunning := isRunning w; logger := logger w; db := db w; faults := rest |})
    | _ =>
        let (a, db') := op (db w) in
        (Returned a,
         {| isRunning := isRunning w; logger := logger w; db := db';
            faults := tl (faults w) |})
    end.

(** [sleep(ms)]: time passes. *)
Definition sleep (ms : Z) : Eff World unit :=
  modify (fun w =>
    {| isRunning := isRunning w; logger := logger w;
       db := {| jobs := jobs (db w); job_links := job_links (db w);
                labels_table := labels_table (db w); jobs_labels := jobs_labels (db w);
                user_work := user_work (db w); work_items := work_items (db w);
                workflow_steps := workflow_steps (db w);
                clock := clock (db w) + ms; next_id := next_id (db w) |};
       faults := faults w |}).

(** Modelled from the spec: the predicate shared by
    [getWorkItemIdsByJobUpdateAgeAndStatus] of [work-item.ts] and
    [getWorkflowStepIdsByJobUpdateAgeAndStatus] of [workflow-steps.ts],
    whose sources are not among the files.  A row is selected when its
    parent job is in one of the given statuses and the job's [updatedAt]
    is older than the threshold, counted in minutes back from now. *)
Definition parentJobIsReapable (tx : Store) (notUpdatedForMinutes : Z)
  (jobStatus : list JobStatus) (job : string) : bool :=
  existsb (fun j => String.eqb (r_jobID j) job
                    && includesStatus jobStatus (Some (r_status j))
                    && (r_updatedAt j <? clock tx - notUpdatedForMinutes * 60000))
          (jobs tx).

(** Modelled from the spec: [getWorkItemIdsByJobUpdateAgeAndStatus]. *)
Definition getWorkItemIdsByJobUpdateAgeAndStatus (tx : Store) (notUpdatedForMinutes : Z)
  (jobStatus : list JobStatus) : list Z :=
  map WorkItem.row_id
      (filter (fun i => parentJobIsReapable tx notUpdatedForMinutes jobStatus (WorkItem.jobID i))
              (work_items tx)).

(** Modelled from the spec: [getWorkflowStepIdsByJobUpdateAgeAndStatus]. *)
Definition getWorkflowStepIdsByJobUpdateAgeAndStatus (tx : Store)
  (notUpdatedForMinutes : Z) (jobStatus : list JobStatus) : list Z :=
  map WorkflowStep.row_id
      (filter (fun s => parentJobIsReapable tx notUpdatedForMinutes jobStatus
                          (WorkflowStep.jobID s))
              (workflow_steps tx)).

Definition inIds (ids : list Z) (id : Z) : bool := existsb (Z.eqb id) ids.

(** Modelled from the spec: [deleteWorkItemsById] of [work-item.ts]: the
    rows with one of the ids are deleted in one pass, and the number of
    deleted rows is returned. *)
Definition deleteWorkItemsById (ids : list Z) (tx : Store) : Z * Store :=
  let kept := filter (fun i => negb (inIds ids (WorkItem.row_id i))) (work_items tx) in
  (Z.of_nat (List.length (work_items tx)) - Z.of_nat (List.length kept),
   {| jobs := jobs tx; job_links := job_links tx; labels_table := labels_table tx;
      jobs_labels := jobs_labels tx; user_work := user_work tx; work_items := kept;
      workflow_steps := workflow_steps tx; clock := clock tx; next_id := next_id tx |}).

(** Modelled from the spec: [deleteWorkflowStepsById] of
    [workflow-steps.ts]. *)
Definition deleteWorkflowStepsById (ids : list Z) (tx : Store) : Z * Store :=
  let kept :=
    filter (fun s => negb (inIds ids (WorkflowStep.row_id s))) (workflow_steps tx) in
  (Z.of_nat (List.length (workflow_steps tx)) - Z.of_nat (List.length kept),
   {| jobs := jobs tx; job_links := job_links tx; labels_table := labels_table tx;
      jobs_labels := jobs_labels tx; user_work := user_work tx;
      work_items := work_items tx; workflow_steps := kept; clock := clock tx;
      next_id := next_id tx |}).

(** [deleteTerminalWork(notUpdatedForMinutes, jobStatus)]. *)
Definition deleteTerminalWork (notUpdatedForMinutes : Z) (jobStatus : list JobStatus)
  : Eff World unit :=
  try_catch
    (workItemIds <- dbCall (fun tx =>
        (getWorkItemIdsByJobUpdateAgeAndStatus tx notUpdatedForMinutes jobStatus, tx)) ;;
     (if negb (Nat.eqb (List.length workItemIds) 0)
      then (numItemsDeleted <- dbCall (deleteWorkItemsById workItemIds) ;;
            log (info ("Work reaper removed " ++ numberString numItemsDeleted
                         ++ " work items")))
      else log (info "Work reaper did not find any work items to delete")) ;;
     workStepIds <- dbCall (fun tx =>
        (getWorkflowStepIdsByJobUpdateAgeAndStatus tx notUpdatedForMinutes jobStatus, tx)) ;;
     (if negb (Nat.eqb (List.length workStepIds) 0)
      then (numStepsDeleted <- dbCall (deleteWorkflowStepsById workStepIds) ;;
            log (info ("Work reaper removed " ++ numberString numStepsDeleted
                         ++ " workflow steps")))
      else log (info "Work reaper did not find any workflow steps to delete")))%eff
    (fun e =>
       (log (error "Error attempting to delete terminal work items") ;;
        log (errorExn e))%eff).

(** The statuses [start] passes on every iteration. *)
Definition reapedStatuses : list JobStatus := [FAILED; SUCCESSFUL; CANCELED].

(** The body of the [while] loop of [start()]: one tick. *)
Definition tick (env : Env) : Eff World unit :=
  (sleep 10000 ;;
   log (info "Starting work reaper") ;;
   deleteTerminalWork (reapableWorkAgeMinutes env) reapedStatuses ;;
   sleep (workReaperPeriodSec env * 1000))%eff.

(** [n] iterations of the loop, one after the other. *)
Fixpoint ticks (env : Env) (n : nat) : Eff World unit :=
  match n with
  | O => ret tt
  | S n' => (tick env ;; ticks env n')%eff
  end.

(** The job with this id is one the reaper is after: its row is in one of
    the statuses failed, successful or canceled, and its [updatedAt] is
    older than the configured threshold. *)
Definition reapable (tx : Store) (env : Env) (job : string) : Prop :=
  exists j, In j (jobs tx) /\ r_jobID j = job
            /\ In (r_status j) [FAILED; SUCCESSFUL; CANCELED]
            /\ r_updatedAt j < clock tx - reapableWorkAgeMinutes env * 60000.

(** None of the next four database calls fails. *)
Definition noFaultAhead (w : World) : bool :=
  negb (existsb (fun failing => failing) (firstn 4 (faults w))).

(** Between [w] and [w'] a database call failed: the calls made took
    their flags from the front of the fault script, and the last flag
    taken was the first to say that the call fails. *)
Definition raisedError (w w' : World) : Prop :=
  exists used rest,
    faults w = (used ++ true :: rest)%list
    /\ faults w' = rest
    /\ forallb negb used = true.

(** The log ends with the two entries of the [catch] block. *)
Definition loggedError (w : World) : Prop :=
  exists before e,
    logger w
    = (before ++ [error "Error attempting to delete terminal work items"; errorExn e])%list.

End WorkReaper.

(** ** Starting and stopping the reaper ([work-reaper.ts], lines 49-68) *)

Module ReaperLoop.

Import WorkReaper.

Definition setRunning (running : bool) (w : World) : World :=
  {| isRunning := running; logger := logger w; db := db w; faults := faults w |}.

(** [stop()]. *)
Definition stop : Eff World unit := modify (setRunning false).

(** While an iteration of [start()] waits in one of its two sleeps,
    another caller may call [stop()]. *)
Inductive Sleep : Type :=
| BeforeReaping
| AfterReaping.

Definition Sleep_eqb (a b : Sleep) : bool :=
  match a, b with
  | BeforeReaping, BeforeReaping | AfterReaping, AfterReaping => true
  | _, _ => false
  end.

(** [await sleep(ms)], during which [stop()] is called or not. *)
Definition sleepWith (ms : Z) (stopped : bool) : Eff World unit :=
  (sleep ms ;; if stopped then stop else ret tt)%eff.

(** The body of the loop of [start()], with the call of [stop()] that
    arrives during this iteration, if one does. *)
Definition iteration (env : Env) (stopDuring : option Sleep) : Eff World unit :=
  let stoppedIn (s : Sleep) :=
    match stopDuring with Some s' => Sleep_eqb s s' | None => false end in
  (sleepWith 10000 (stoppedIn BeforeReaping) ;;
   log (info "Starting work reaper") ;;
   deleteTerminalWork (reapableWorkAgeMinutes env) reapedStatuses ;;
   sleepWith (workReaperPeriodSec env * 1000) (stoppedIn AfterReaping))%eff.

(** [while (this.isRunning) { body }] from iteration [k] on, with a bound
    on the number of iterations; the value is [true] when the loop has
    ended and [false] when the bound was reached first. *)
Fixpoint whileRunning (fuel : nat) (env : Env) (stops : nat -> option Sleep) (k : nat)
  : Eff World bool :=
  (w <- get ;;
   if isRunning w
   then match fuel with
        | O => ret false
        | S fuel' => iteration env (stops k) ;; whileRunning fuel' env stops (S k)
        end
   else ret true)%eff.

(** [start()]. *)
Definition start (fuel : nat) (env : Env) (stops : nat -> option Sleep) : Eff World bool :=
  (modify (setRunning true) ;; whileRunning fuel env stops 0)%eff.

(** [stop()] is called once, during the second iteration, before the
    reaper has done its work. *)
Definition stopInSecond (k : nat) : option Sleep :=
  if Nat.eqb k 1 then Some BeforeReaping else None.

(** A computation that neither reads nor writes [isRunning]. *)
Definition blind {A : Type} (m : Eff World A) : Prop :=
  forall running w,
    m (setRunning running w) = (fst (m w), setRunning running (snd (m w))).

End ReaperLoop.

(** ** The granule query loop ([querySource]) *)

Module QueryCmr.

Record DataSource : Type := {
  collection : string;
  variables : list string
}.

Section QuerySource.

(** The granules CMR returns, and the parsed query file. *)
Variable Granule : Type.
Variable CmrQuery : Type.

(** [cmrQueryGranules(collection, query, token, pageSize)] of [util/cmr],
    reduced to the granules of its response. *)
Variable cmrQueryGranules : string -> CmrQuery -> string -> Z -> list Granule.

(** Downloading the query file when it sits in an object store, reading
    it and parsing it. *)
Variable readQuery : string -> CmrQuery.

(** The local variables of [querySource] together with [issued], the
    arguments of every call to [cmrQueryGranules] so far.  The catalog
    [result] is kept as the granules added to it, each with the file
    prefix it was added under. *)
Record Locals : Type := {
  result : list (Granule * string);
  page : Z;
  done : bool;
  issued : list (string * string * Z)
}.

(** The body of the [while] loop.  [a || true] evaluates to [a] when [a]
    is truthy and to [true] otherwise. *)
Definition loopBody (token : string) (source : DataSource) (cmrQuery : CmrQuery)
  (pageSize maxPages : Z) (filePrefix : string) (st : Locals) : Locals :=
  let granules := cmrQueryGranules (collection source) cmrQuery token pageSize in
  let page' := page st + 1 in
  let lessThanMax := page' <? maxPages in
  {| result := (result st ++ map (fun g => (g, filePrefix)) granules)%list;
     page := page';
     done := if lessThanMax then lessThanMax else true;
     issued := (issued st ++ [(collection source, token, pageSize)])%list |}.

(** [while (!done) { body }], with a bound on the number of iterations;
    [None] means the bound was reached before the loop ended. *)
Fixpoint whileNotDone (fuel : nat) (body : Locals -> Locals) (st : Locals) : option Locals :=
  if done st then Some st
  else match fuel with
       | O => None
       | S fuel' => whileNotDone fuel' body (body st)
       end.

(** [querySource(token, source, queryLocation, pageSize, maxPages,
    filePrefix)]: the locals when the function returns. *)
Definition querySource (fuel : nat) (token : string) (source : DataSource)
  (queryLocation : string) (pageSize maxPages : Z) (filePrefix : string)
  : option Locals :=
  let cmrQuery := readQuery queryLocation in
  whileNotDone fuel (loopBody token source cmrQuery pageSize maxPages filePrefix)
    {| result := []; page := 0; done := false; issued := [] |}.

End QuerySource.

End QueryCmr.

(** ** One catalog per source ([queryGranules], lines 150-173) *)

Module QueryGranules.

Import QueryCmr.

(** The fields of a [DataOperation] that [queryGranules] reads;
    [sources] is [None] when it is undefined. *)
Record DataOperation : Type := {
  sources : option (list DataSource);
  unencryptedAccessToken : string;
  requestId : string
}.

(** A link of a STAC catalog. *)
Record StacLink : Type := {
  rel : string;
  href : string;
  type : string;
  title : string
}.

(** [array.map((x, i) => f(i, x))], counting from [start]. *)
Fixpoint mapFrom {A B : Type} (start : nat) (f : nat -> A -> B) (l : list A) : list B :=
  match l with
  | [] => []
  | x :: rest => f start x :: mapFrom (S start) f rest
  end.

(** [await Promise.all(promises)] over promises that have resolved or are
    still pending. *)
Fixpoint promiseAll {A : Type} (promises : list (option A)) : option (list A) :=
  match promises with
  | [] => Some []
  | Some a :: rest =>
      match promiseAll rest with
      | Some others => Some (a :: others)
      | None => None
      end
  | None :: _ => None
  end.

(** What [queryGranules] does: it resolves to the root catalog, fails the
    assertion, or is still waiting for a source when the bound on the
    iterations of [querySource] is reached. *)
Inductive Outcome (Catalog : Type) : Type :=
| Resolved (catalog : Catalog)
| AssertionError (message : string)
| Pending.

Arguments Resolved {Catalog} catalog.
Arguments AssertionError {Catalog} message.
Arguments Pending {Catalog}.

Section QueryGranules.

Variable Granule : Type.
Variable CmrQuery : Type.
Variable cmrQueryGranules : string -> CmrQuery -> string -> Z -> list Granule.
Variable readQuery : string -> CmrQuery.

(** The catalog [querySource] returns: its description (line 112), the
    granules added to it with their file prefixes, and the queries the
    call issued. *)
Record SourceCatalog : Type := {
  description : string;
  granules : list (Granule * string);
  queries_issued : list (string * string * Z)
}.

(** The catalog [queryGranules] returns. *)
Record RootCatalog : Type := {
  root_description : string;
  children : list SourceCatalog;
  links : list StacLink
}.

Definition sourceCatalog (source : DataSource) (st : Locals Granule) : SourceCatalog :=
  {| description := "CMR Granules for " ++ collection source;
     granules := result Granule st;
     queries_issued := issued Granule st |}.

(** The [for] loop from index [i] on: [sources] here is what is left of
    the array from [i], and [queries] is the whole array; the assertion
    before the loop keeps [i] within it. *)
Fixpoint promisesFrom (fuel : nat) (token : string) (sources : list DataSource)
  (queries : list string) (i : nat) (pageSize maxPages : Z)
  : list (option SourceCatalog) :=
  match sources with
  | [] => []
  | source :: rest =>
      option_map (sourceCatalog source)
        (querySource Granule CmrQuery cmrQueryGranules readQuery fuel token source
           (nth i queries "") pageSize maxPages
           ("./granule_" ++ numberString (Z.of_nat i) ++ "_"))
        :: promisesFrom fuel token rest queries (S i) pageSize maxPages
  end.

(** [queryGranules(operation, queries, pageSize, maxPages)]. *)
Definition queryGranules (fuel : nat) (operation : DataOperation) (queries : list string)
  (pageSize maxPages : Z) : Outcome RootCatalog :=
  match sources operation with
  | Some sources =>
      if Nat.eqb (List.length sources) (List.length queries)
      then
        let promises :=
          promisesFrom fuel (unencryptedAccessToken operation) sources queries 0
            pageSize maxPages in
        match promiseAll promises with
        | Some children =>
            Resolved
              {| root_description := "Granule results for request " ++ requestId operation;
                 children := children;
                 links := mapFrom 0 (fun i child =>
                                       {| rel := "child";
                                          href := "./source_" ++ numberString (Z.of_nat i)
                                                    ++ ".json";
                                          type := "application/json";
                                          title := description child |})
                                  children |}
        | None => Pending
        end
      else AssertionError "One query must be provided per input source"
  | None => AssertionError "One query must be provided per input source"
  end.

End QueryGranules.

End QueryGranules.

(** ** The public mutators as one family *)

(** A call of one of the seven public mutators, with its argument. *)
Inductive Mutator : Type :=
| Pause
| Resume
| SkipPreview
| Fail (message : option string)
| Cancel (message : option string)
| Succeed (message : option string)
| CompleteWithErrors (message : option string).

Definition call (m : Mutator) : Eff Job unit :=
  match m with
  | Pause => pause
  | Resume => resume
  | SkipPreview => skipPreview
  | Fail message => fail message
  | Cancel message => cancel message
  | Succeed message => succeed message
  | CompleteWithErrors message => complete_with_errors message
  end.

(** The event each mutator hands to [validateTransition]. *)
Definition mutatorEvent (m : Mutator) : JobEvent :=
  match m with
  | Pause => PAUSE
  | Resume => RESUME
  | SkipPreview => SKIP_PREVIEW
  | Fail _ => FAIL
  | Cancel _ => CANCEL
  | Succeed _ => COMPLETE
  | CompleteWithErrors _ => COMPLETE_WITH_ERRORS_EVENT
  end.

(** The status each mutator asks for. *)
Definition mutatorTarget (m : Mutator) : JobStatus :=
  match m with
  | Pause => PAUSED
  | Resume => RUNNING
  | SkipPreview => RUNNING
  | Fail _ => FAILED
  | Cancel _ => CANCELED
  | Succeed _ => SUCCESSFUL
  | CompleteWithErrors _ => COMPLETE_WITH_ERRORS
  end.

(** [resume] and [skipPreview] pass an error message of their own; the
    other five leave the default. *)
Definition usesDefaultMessage (m : Mutator) : bool :=
  match m with
  | Resume | SkipPreview => false
  | _ => true
  end.

(** A message names a status when the status string occurs in it. *)
Definition names (message : string) (s : JobStatus) : bool :=
  includes message (statusString s).

(** ** Sequences of calls on one job *)

(** One step in the life of a job object: a public mutator, a progress
    rollup, or a change that other actors make to the database between
    two calls. *)
Inductive Call : Type :=
| Mutate (m : Mutator)
| UpdateProgress
| StoreChange (f : Store -> Store).

Section Calls.

Variable stepUpdateProgress : option WorkflowStep.t -> WorkflowStep.t -> WorkflowStep.t.

Definition perform (c : Call) : Eff World unit :=
  match c with
  | Mutate m => onThis (call m)
  | UpdateProgress => updateProgress stepUpdateProgress
  | StoreChange f => onDb (modify f)
  end.

(** The calls one after the other; the caller catches what a call throws
    and goes on with the job as the call left it. *)
Fixpoint performAll (cs : list Call) (w : World) : World :=
  match cs with
  | [] => w
  | c :: rest => performAll rest (snd (perform c w))
  end.

End Calls.

(** ** What the fairness claims speak of *)

(** The row belongs to the user and the service and has ready work. *)
Definition readyRowFor (serviceID u : string) (r : UserWork.t) : Prop :=
  UserWork.username r = u /\ UserWork.service_id r = serviceID
  /\ 0 < UserWork.ready_count r.

(** The user has a row for the service with ready work. *)
Definition hasReadyRow (table : list UserWork.t) (serviceID u : string) : Prop :=
  exists r, In r table /\ readyRowFor serviceID u r.

(** The sum of [running_count] and the latest [last_worked] over the rows
    of a user. *)
Definition sumRunning (table : list UserWork.t) (u : string) : Z :=
  sum_of UserWork.running_count (rowsOfUser table u).

Definition maxLastWorked (table : list UserWork.t) (u : string) : Z :=
  max_of UserWork.last_worked (rowsOfUser table u).

(** Whether a status completes a job with full progress. *)
Definition completes (s : JobStatus) : bool :=
  JobStatus_beq s SUCCESSFUL || JobStatus_beq s COMPLETE_WITH_ERRORS.

(** ** What a call leaves alone *)

(** Every run of [m] relates the state before to the state after by [R],
    whether it returns or throws. *)
Definition keeps {S A : Type} (R : S -> S -> Prop) (m : Eff S A) : Prop :=
  forall s, R s (snd (m s)).

(** The [user_work] table and the identity of the job are as before. *)
Definition sameQueueAndJob (w w' : World) : Prop :=
  user_work (snd w') = user_work (snd w) /\ jobID (fst w') = jobID (fst w).

(** What [setReadyCountToZero] does to one row. *)
Definition zeroReadyOf (job : string) (r : UserWork.t) : UserWork.t :=
  if String.eqb (UserWork.job_id r) job then UserWork.set_ready_count 0 r else r.

(** ** Sample data *)

Definition emptyStore : Store :=
  {| jobs := []; job_links := []; labels_table := []; jobs_labels := [];
     user_work := []; work_items := []; workflow_steps := []; clock := 1000;
     next_id := 1 |}.

(** A job as it is after loading a stored record with the given status. *)
Definition loadedJob (s : JobStatus) (p : Z) : Job :=
  {| recordId := Some 7; jobID := "job-1"; username := "joe"; requestId := "job-1";
     status := s; originalStatus := Some s; statesToMessages := Some [];
     progress := p; batchesCompleted := 0; request := "http://example.com/harmony";
     isAsync := true; ignoreErrors := false; createdAt := Some 10; updatedAt := Some 20;
     numInputGranules := 3; collectionIds := ["C1-PROV"]; links := []; labels := [];
     destination_url := None; service_name := None; provider_id := None |}.

(** A single workflow step of weight one half at progress 1. *)
Definition halfWeightStep : WorkflowStep.t :=
  {| WorkflowStep.row_id := 1; WorkflowStep.jobID := "job-1";
     WorkflowStep.serviceID := "harmony/query-cmr:latest"; WorkflowStep.stepIndex := 1;
     WorkflowStep.workItemCount := 4; WorkflowStep.completed_work_item_count := 4;
     WorkflowStep.progress_weight := Number.ofRatio 1 2;
     WorkflowStep.progress := Number.ofZ 1 |}.

(** Scenario S4 of the specification: two users with one ready item
    each and five running, [userB] worked longer ago. *)
Definition s4Store : Store :=
  {| jobs := []; job_links := []; labels_table := []; jobs_labels := [];
     user_work :=
       [ {| UserWork.row_id := 1; UserWork.job_id := "job-a"; UserWork.service_id := "s";
            UserWork.username := "userA"; UserWork.ready_count := 1;
            UserWork.running_count := 5; UserWork.last_worked := 200 |};
         {| UserWork.row_id := 2; UserWork.job_id := "job-b"; UserWork.service_id := "s";
            UserWork.username := "userB"; UserWork.ready_count := 1;
            UserWork.running_count := 5; UserWork.last_worked := 100 |} ];
     work_items := []; workflow_steps := []; clock := 1000; next_id := 3 |}.

(** A queue with two rows of the job [job-1] and one row of another job. *)
Definition queueStore : Store :=
  {| jobs := []; job_links := []; labels_table := []; jobs_labels := [];
     user_work :=
       [ {| UserWork.row_id := 1; UserWork.job_id := "job-1"; UserWork.service_id := "s";
            UserWork.username := "joe"; UserWork.ready_count := 4;
            UserWork.running_count := 2; UserWork.last_worked := 200 |};
         {| UserWork.row_id := 2; UserWork.job_id := "job-2"; UserWork.service_id := "s";
            UserWork.username := "joe"; UserWork.ready_count := 3;
            UserWork.running_count := 1; UserWork.last_worked := 100 |};
         {| UserWork.row_id := 3; UserWork.job_id := "job-1"; UserWork.service_id := "t";
            UserWork.username := "joe"; UserWork.ready_count := 7;
            UserWork.running_count := 0; UserWork.last_worked := 300 |} ];
     work_items := []; workflow_steps := [halfWeightStep]; clock := 1000; next_id := 4 |}.

(** Scenario S6 of the specification: the threshold is 60 minutes, and
    two jobs were last updated 120 minutes ago, one successful and one
    running; each has a work item and a workflow step. *)
Definition s6Job (job : string) (s : JobStatus) (id : Z) : JobRow :=
  {| r_id := id; r_username := "joe"; r_status := s; r_message := []; r_progress := 0;
     r_createdAt := 0; r_updatedAt := 0; r_request := "http://example.com/harmony";
     r_numInputGranules := 1; r_jobID := job; r_requestId := job; r_batchesCompleted := 0;
     r_isAsync := true; r_ignoreErrors := false; r_destination_url := None;
     r_service_name := None; r_provider_id := None; r_collectionIds := [] |}.

Definition s6Item (job : string) (id : Z) : WorkItem.t :=
  {| WorkItem.row_id := id; WorkItem.jobID := job; WorkItem.serviceID := "s" |}.

Definition s6Step (job : string) (id : Z) : WorkflowStep.t :=
  {| WorkflowStep.row_id := id; WorkflowStep.jobID := job; WorkflowStep.serviceID := "s";
     WorkflowStep.stepIndex := 1; WorkflowStep.workItemCount := 1;
     WorkflowStep.completed_work_item_count := 1;
     WorkflowStep.progress_weight := Number.ofZ 1;
     WorkflowStep.progress := Number.ofZ 100 |}.

Definition s6Env : WorkReaper.Env :=
  {| WorkReaper.reapableWorkAgeMinutes := 60; WorkReaper.workReaperPeriodSec := 360 |}.

Definition s6World : WorkReaper.World :=
  {| WorkReaper.isRunning := true; WorkReaper.logger := [];
     WorkReaper.db :=
       {| jobs := [s6Job "done" SUCCESSFUL 1; s6Job "busy" RUNNING 2];
          job_links := []; labels_table := []; jobs_labels := []; user_work := [];
          work_items := [s6Item "done" 1; s6Item "busy" 2];
          workflow_steps := [s6Step "done" 1; s6Step "busy" 2];
          clock := 120 * 60000; next_id := 3 |};
     WorkReaper.faults := [] |}.

(** Scenario S5 of the specification: a step of weight 1 at progress
    one half and a step of weight 3 at progress 0. *)
Definition s5Steps : list WorkflowStep.t :=
  [ {| WorkflowStep.row_id := 1; WorkflowStep.jobID := "job-1";
       WorkflowStep.serviceID := "s"; WorkflowStep.stepIndex := 1;
       WorkflowStep.workItemCount := 2; WorkflowStep.completed_work_item_count := 1;
       WorkflowStep.progress_weight := Number.ofZ 1;
       WorkflowStep.progress := Number.ofRatio 1 2 |};
    {| WorkflowStep.row_id := 2; WorkflowStep.jobID := "job-1";
       WorkflowStep.serviceID := "t"; WorkflowStep.stepIndex := 2;
       WorkflowStep.workItemCount := 2; WorkflowStep.completed_work_item_count := 0;
       WorkflowStep.progress_weight := Number.ofZ 3;
       WorkflowStep.progress := Number.ofZ 0 |} ].

(** Two steps whose weight is the largest finite number, at progress -2:
    the sum of the weights overflows upwards and the weighted sum
    downwards. *)
Definition largestNumber : Number.t :=
  S754_finite false 9007199254740991 971.

Definition overflowStep (id : Z) : WorkflowStep.t :=
  {| WorkflowStep.row_id := id; WorkflowStep.jobID := "job-1";
     WorkflowStep.serviceID := "s"; WorkflowStep.stepIndex := id;
     WorkflowStep.workItemCount := 1; WorkflowStep.completed_work_item_count := 0;
     WorkflowStep.progress_weight := largestNumber;
     WorkflowStep.progress := Number.ofZ (-2) |}.

(** A step of the given weight, in tenths, at the given progress. *)
Definition tenthsStep (id tenths percent : Z) : WorkflowStep.t :=
  {| WorkflowStep.row_id := id; WorkflowStep.jobID := "job-1";
     WorkflowStep.serviceID := "s"; WorkflowStep.stepIndex := id;
     WorkflowStep.workItemCount := 100; WorkflowStep.completed_work_item_count := percent;
     WorkflowStep.progress_weight := Number.ofRatio tenths 10;
     WorkflowStep.progress := Number.ofZ percent |}.

(** ** The counter operations of the queue ([user-work.ts], lines 115-254) *)

(** [.where({ job_id: jobID })]. *)
Definition forJob (jobID : string) (r : UserWork.t) : bool :=
  String.eqb (UserWork.job_id r) jobID.

(** [.where({ job_id: jobID, service_id: serviceID })]. *)
Definition forJobAndService (jobID serviceID : string) (r : UserWork.t) : bool :=
  String.eqb (UserWork.job_id r) jobID && String.eqb (UserWork.service_id r) serviceID.


(** [.increment(column, n)] and [.decrement(column, n)] on the two
    counters of one row, as one update. *)
Definition addToCounts (ready running : Z) (r : UserWork.t) : UserWork.t :=
  {| UserWork.row_id := UserWork.row_id r; UserWork.job_id := UserWork.job_id r;
     UserWork.service_id := UserWork.service_id r; UserWork.username := UserWork.username r;
     UserWork.ready_count := UserWork.ready_count r + ready;
     UserWork.running_count := UserWork.running_count r + running;
     UserWork.last_worked := UserWork.last_worked r |}.

(** An update of the rows of [user_work] that match. *)
Definition updateUserWork (matching : UserWork.t -> bool) (change : UserWork.t -> UserWork.t)
  : Eff Store unit :=
  modify (with_user_work (map (fun r => if matching r then change r else r))).

(** [.where(...).del()]: the matching rows go, and their number is
    returned. *)
Definition deleteUserWork (matching : UserWork.t -> bool) : Eff Store Z :=
  fun tx =>
    (Returned (Z.of_nat (List.length (filter matching (user_work tx)))),
     with_user_work (filter (fun r => negb (matching r))) tx).

(** [deleteUserWorkForJob(tx, jobID)]. *)
Definition deleteUserWorkForJob (jobID : string) : Eff Store Z :=
  deleteUserWork (forJob jobID).

(** [deleteUserWorkForJobAndService(tx, jobID, serviceID)]. *)
Definition deleteUserWorkForJobAndService (jobID serviceID : string) : Eff Store Z :=
  deleteUserWork (forJobAndService jobID serviceID).

(** [incrementReadyCount(tx, jobID, serviceID, additionalReadyCount = 1)]. *)
Definition incrementReadyCount (jobID serviceID : string) (additionalReadyCount : option Z)
  : Eff Store unit :=
  let additionalReadyCount :=
    match additionalReadyCount with Some n => n | None => 1 end in
  updateUserWork (forJobAndService jobID serviceID) (addToCounts additionalReadyCount 0).

(** [incrementRunningAndDecrementReadyCounts(tx, jobID, serviceID)]. *)
Definition incrementRunningAndDecrementReadyCounts (jobID serviceID : string)
  : Eff Store unit :=
  updateUserWork (forJobAndService jobID serviceID) (addToCounts (-1) 1).

(** [incrementReadyAndDecrementRunningCounts(tx, jobID, serviceID)]. *)
Definition incrementReadyAndDecrementRunningCounts (jobID serviceID : string)
  : Eff Store unit :=
  updateUserWork (forJobAndService jobID serviceID) (addToCounts 1 (-1)).

(** [decrementRunningCount(tx, jobID, serviceID)]. *)
Definition decrementRunningCount (jobID serviceID : string) : Eff Store unit :=
  updateUserWork (forJobAndService jobID serviceID) (addToCounts 0 (-1)).


(** What one row holds besides its two counters. *)
Definition sameRowIdentity (r r' : UserWork.t) : Prop :=
  UserWork.row_id r' = UserWork.row_id r /\ UserWork.job_id r' = UserWork.job_id r
  /\ UserWork.service_id r' = UserWork.service_id r
  /\ UserWork.username r' = UserWork.username r
  /\ UserWork.last_worked r' = UserWork.last_worked r.

(** ** More of the job entity ([job.ts]) *)

Definition set_batchesCompleted (v : Z) (this : Job) : Job :=
  {| recordId := recordId this; jobID := jobID this; username := username this;
     requestId := requestId this; status := status this;
     originalStatus := originalStatus this;
     statesToMessages := statesToMessages this; progress := progress this;
     batchesCompleted := v; request := request this;
     isAsync := isAsync this; ignoreErrors := ignoreErrors this;
     createdAt := createdAt this; updatedAt := updatedAt this;
     numInputGranules := numInputGranules this; collectionIds := collectionIds this;
     links := links this; labels := labels this;
     destination_url := destination_url this; service_name := service_name this;
     provider_id := provider_id this |}.

(** [completeBatch()]. *)
Definition completeBatch : Eff Job unit :=
  modify (fun this => set_batchesCompleted (batchesCompleted this + 1) this).

(** [link.jobID = this.jobID]. *)
Definition with_link_jobID (job : string) (l : JobLink) : JobLink :=
  {| link_id := link_id l; link_jobID := job; href := href l; title := title l;
     rel := rel l |}.

(** [addLink(link)]. *)
Definition addLink (link : JobLink) : Eff Job unit :=
  modify (fun this =>
            set_links (links this ++ [with_link_jobID (jobID this) link])%list this).

(** [stagingBucketTitle], for the value of [awsDefaultRegion] in the
    environment. *)
Definition stagingBucketTitle (awsDefaultRegion : string) : string :=
  "Results in AWS S3. Access from AWS " ++ awsDefaultRegion
    ++ " with keys from /cloud-access.sh".

(** [addStagingBucketLink(stagingLocation)]; the new link object has the
    three fields it is built from and nothing else. *)
Definition addStagingBucketLink (awsDefaultRegion : string) (stagingLocation : option string)
  : Eff Job unit :=
  match stagingLocation with
  | Some location =>
      if truthy stagingLocation
      then addLink {| link_id := None; link_jobID := ""; href := location;
                      title := Some (stagingBucketTitle awsDefaultRegion);
                      rel := Some "s3-access" |}
      else ret tt
  | None => ret tt
  end.

(** [Job.getNumInputGranules(tx, jobID)]: [results[0]] is [undefined] when
    no row matches, and reading a property of it throws. *)
Definition getNumInputGranules (tx : Store) (job : string) : Completion Z :=
  let results := filter (fun r => String.eqb (r_jobID r) job) (jobs tx) in
  match results with
  | row :: _ => Returned (r_numInputGranules row)
  | [] => Threw (TypeError "Cannot read properties of undefined (reading 'numInputGranules')")
  end.

(** [Job.getTimeOfMostRecentlyUpdatedJob(tx)], in milliseconds: the
    maximum over no rows is [null], and [new Date(null)] is the epoch. *)
Definition getTimeOfMostRecentlyUpdatedJob (tx : Store) : Z :=
  match jobs tx with
  | [] => 0
  | _ => max_of r_updatedAt (jobs tx)
  end.

(** The calls of a list of mutators one after the other on one job
    object, each throw caught by the caller. *)
Fixpoint callAll (ms : list Mutator) (this : Job) : Job :=
  match ms with
  | [] => this
  | m :: rest => callAll rest (snd (call m this))
  end.

(** The message a mutator hands to [updateStatus]: the argument, with its
    default for [fail] and [cancel]; [pause], [resume] and [skipPreview]
    hand over the message the job already has for the target status. *)
Definition messageArgument (m : Mutator) (this : Job) : option string :=
  match m with
  | Pause => Some (getMessage this PAUSED)
  | Resume | SkipPreview => Some (getMessage this RUNNING)
  | Fail message => orDefault message (statesToDefaultMessages FAILED)
  | Cancel message => orDefault message (statesToDefaultMessages CANCELED)
  | Succeed message | CompleteWithErrors message => message
  end.

(** ** The provider id snapshot ([job.ts], lines 27-28, 326-331, 679-689) *)

(** The module variable [providerIdsSnapshot] ([None] while it is
    [undefined]), the database, what the logger was given, and for each
    database call still to come whether it fails. *)
Record Process : Type := {
  providerIdsSnapshot : option (list string);
  database : Store;
  loggedErrors : list Exn;
  failing : list bool
}.

(** [getUniqueProviderIds(tx)]: the distinct values of [provider_id] over
    the rows where it is not null. *)
Definition getUniqueProviderIds : Eff Process (list string) :=
  fun p =>
    match failing p with
    | true :: rest =>
        (Threw (StorageError "database call failed"),
         {| providerIdsSnapshot := providerIdsSnapshot p; database := database p;
            loggedErrors := loggedErrors p; failing := rest |})
    | _ =>
        (Returned
           (nodup string_dec
              (flat_map (fun job => match r_provider_id job with
                                    | Some id => [id]
                                    | None => []
                                    end)
                        (jobs (database p)))),
         {| providerIdsSnapshot := providerIdsSnapshot p; database := database p;
            loggedErrors := loggedErrors p; failing := tl (failing p) |})
    end.

Definition assignSnapshot (ids : list string) : Eff Process unit :=
  modify (fun p => {| providerIdsSnapshot := Some ids; database := database p;
                      loggedErrors := loggedErrors p; failing := failing p |}).

Definition loggerError (e : Exn) : Eff Process unit :=
  modify (fun p => {| providerIdsSnapshot := providerIdsSnapshot p; database := database p;
                      loggedErrors := (loggedErrors p ++ [e])%list; failing := failing p |}).

(** [Job.getProviderIdsSnapshot(tx, logger)]; the value returned is the
    module variable. *)
Definition getProviderIdsSnapshot : Eff Process (option (list string)) :=
  (p <- get ;;
   (match providerIdsSnapshot p with
    | None =>
        try_catch (ids <- getUniqueProviderIds ;; assignSnapshot ids)
                  (fun e => loggerError e ;; assignSnapshot [])
    | Some _ => ret tt
    end) ;;
   p <- get ;;
   ret (providerIdsSnapshot p))%eff.

(** Other actors change the database between two calls, and the next
    database calls fail or not by another script. *)
Definition elsewhere (f : Store -> Store) (script : list bool) (p : Process) : Process :=
  {| providerIdsSnapshot := providerIdsSnapshot p; database := f (database p);
     loggedErrors := loggedErrors p; failing := script |}.

(** ** Query constraints ([job.ts], lines 333-380) *)

(** A JavaScript object with string keys, in insertion order. *)
Definition JsObject (V : Type) : Type := list (string * V).

Fixpoint getProperty {V : Type} (o : JsObject V) (key : string) : option V :=
  match o with
  | [] => None
  | (k, v) :: rest => if String.eqb k key then Some v else getProperty rest key
  end.

(** [o[key] = value]. *)
Fixpoint setProperty {V : Type} (o : JsObject V) (key : string) (value : V) : JsObject V :=
  match o with
  | [] => [(key, value)]
  | (k, v) :: rest =>
      if String.eqb k key then (k, value) :: rest
      else (k, v) :: setProperty rest key value
  end.

(** [setTableNameForWhereClauses(table, whereClauses)]; a property whose
    value is [undefined] is held as [None]. *)
Definition setTableNameForWhereClauses {V : Type} (table : string)
  (whereClauses : JsObject (option V)) : JsObject V :=
  fold_left (fun result entry =>
               match snd entry with
               | Some value => setProperty result (table ++ "." ++ fst entry) value
               | None => result
               end)
            whereClauses [].

(** One entry of [whereIn]. *)
Record InConstraint : Type := {
  isIn : bool;
  values : list string
}.

(** The [dates] part of a [JobQuery]. *)
Record DateRange : Type := {
  from : option Z;
  to : option Z;
  field : string
}.

(** The parts of a [JobQuery] that [modifyQuery] reads. *)
Record JobQuery : Type := {
  whereIn : option (JsObject (option InConstraint));
  dates : option DateRange
}.

(** The calls [modifyQuery] makes on the query builder. *)
Inductive Clause : Type :=
| WhereIn (column : string) (vs : list string)
| WhereNotIn (column : string) (vs : list string)
| WhereAtLeast (column : string) (date : Z)
| WhereAtMost (column : string) (date : Z).

Definition whereInClause (entry : string * InConstraint) : Clause :=
  if isIn (snd entry) then WhereIn (fst entry) (values (snd entry))
  else WhereNotIn (fst entry) (values (snd entry)).

Definition dateClauses (d : DateRange) : list Clause :=
  (match from d with Some t => [WhereAtLeast (field d) t] | None => [] end
   ++ match to d with Some t => [WhereAtMost (field d) t] | None => [] end)%list.

(** [modifyQuery(queryBuilder, constraints)]: the state is the list of
    clauses the builder has received and the constraints object, which
    the function assigns to; [None] is an [undefined] argument. *)
Definition modifyQuery : Eff (list Clause * option JobQuery) unit :=
  fun s =>
    let (builder, arg) := s in
    match arg with
    | None => (Returned tt, s)
    | Some constraints =>
        let prefixed :=
          match whereIn constraints with
          | Some w => Some (setTableNameForWhereClauses "jobs" w)
          | None => None
          end in
        let constraints' :=
          {| whereIn :=
               match prefixed with
               | Some w => Some (map (fun e => (fst e, Some (snd e))) w)
               | None => whereIn constraints
               end;
             dates := dates constraints |} in
        let inClauses :=
          match prefixed with Some w => map whereInClause w | None => [] end in
        let rangeClauses :=
          match dates constraints with Some d => dateClauses d | None => [] end in
        (Returned tt, ((builder ++ inClauses ++ rangeClauses)%list, Some constraints'))
    end.

(** The rows of [table'] are those of [table], one for one: every row
    keeps its id, job, service, user and [last_worked]; a row of the job
    and service has its counters shifted by exactly [ready] and
    [running], below zero if it comes to that; every other row is as it
    was. *)
Definition countsShifted (jobID serviceID : string) (ready running : Z)
  (table table' : list UserWork.t) : Prop :=
  Forall2 (fun r r' =>
             sameRowIdentity r r'
             /\ (forJobAndService jobID serviceID r = true ->
                 UserWork.ready_count r' = UserWork.ready_count r + ready
                 /\ UserWork.running_count r' = UserWork.running_count r + running)
             /\ (forJobAndService jobID serviceID r = false -> r' = r))
          table table'.

(** The [where] clauses of [getNextJobIdForUsernameAndService] on one
    row. *)
Definition readyRowForb (serviceID username : string) (r : UserWork.t) : bool :=
  String.eqb (UserWork.username r) username
  && String.eqb (UserWork.service_id r) serviceID
  && (0 <? UserWork.ready_count r).

(** The dispatcher's answer for a user and service when the job is out of
    the running: it is another job, one with a ready row of the user for
    the service in [table], and there is no answer only when the user has
    no ready row of another job. *)
Definition dispatchSkips (job : string) (table : list UserWork.t)
  (serviceID username : string) (answer : Completion string) : Prop :=
  match answer with
  | Returned next =>
      next <> job
      /\ exists row, In row table /\ readyRowFor serviceID username row
                     /\ UserWork.job_id row = next
  | Threw _ =>
      forall r, In r table -> readyRowFor serviceID username r -> UserWork.job_id r = job
  end.

(** The column of a [whereIn] or [whereNotIn] call on the builder. *)
Definition inColumn (c : Clause) : option string :=
  match c with
  | WhereIn column _ | WhereNotIn column _ => Some column
  | WhereAtLeast _ _ | WhereAtMost _ _ => None
  end.

(** Constraints on one field of the jobs table, and a query that carries
    them. *)
Definition statusConstraints : JsObject (option InConstraint) :=
  [("status", Some {| isIn := true; values := ["running"; "paused"] |});
   ("username", None)].

Definition statusQuery : JobQuery :=
  {| whereIn := Some statusConstraints; dates := None |}.

(** ** Calls that build up a job *)

(** A call on a job object that does not touch the database. *)
Inductive JobCall : Type :=
| AddLink (link : JobLink)
| AddStagingBucketLink (stagingLocation : option string)
| CallMutator (m : Mutator)
| CompleteBatch.

Definition runJobCall (awsDefaultRegion : string) (c : JobCall) : Eff Job unit :=
  match c with
  | AddLink link => addLink link
  | AddStagingBucketLink stagingLocation =>
      addStagingBucketLink awsDefaultRegion stagingLocation
  | CallMutator m => call m
  | CompleteBatch => completeBatch
  end.

(** The calls one after the other on one job object, each throw caught
    by the caller. *)
Fixpoint runJobCalls (awsDefaultRegion : string) (cs : list JobCall) (this : Job) : Job :=
  match cs with
  | [] => this
  | c :: rest => runJobCalls awsDefaultRegion rest (snd (runJobCall awsDefaultRegion c this))
  end.

(** ** Sharing a job ([job.ts], lines 966-1023) *)

Module Sharing.

(** The value of a tag's [data], as far as [=== false] can tell. *)
Inductive TagData : Type :=
| DataBoolean (b : bool)
| DataOther.

Record CmrTag : Type := {
  data : TagData
}.

(** A collection as CMR returns it; [tags] is [None] when the collection
    has no [tags] property. *)
Record CmrCollection : Type := {
  tags : option (JsObject CmrTag)
}.

(** The requests made to CMR. *)
Inductive CmrRequest : Type :=
| GetCollectionsByIds (ids : list string) (accessToken : string) (tag : string)
| GetPermissions (ids : list string) (accessToken : string).

(** [array.every(p)] for a predicate that may throw: it stops at the
    first element for which [p] is false or throws. *)
Fixpoint every {A : Type} (p : A -> Completion bool) (l : list A) : Completion bool :=
  match l with
  | [] => Returned true
  | x :: rest =>
      match p x with
      | Returned true => every p rest
      | Returned false => Returned false
      | Threw e => Threw e
      end
  end.

Section Cmr.

(** [CmrTagKeys.HasEula] and [CmrPermission.Read] of [util/cmr]. *)
Variable HasEula : string.
Variable Read : string.

(** What CMR answers to the two requests of [util/cmr]. *)
Variable cmrCollections : list string -> string -> string -> list CmrCollection.
Variable cmrPermissions : list string -> string -> JsObject (list string).

(** The state is the list of the requests made so far. *)
Definition getCollectionsByIds (ids : list string) (accessToken tag : string)
  : Eff (list CmrRequest) (list CmrCollection) :=
  (modify (fun made => (made ++ [GetCollectionsByIds ids accessToken tag])%list) ;;
   ret (cmrCollections ids accessToken tag))%eff.

Definition getPermissions (ids : list string) (accessToken : string)
  : Eff (list CmrRequest) (JsObject (list string)) :=
  (modify (fun made => (made ++ [GetPermissions ids accessToken])%list) ;;
   ret (cmrPermissions ids accessToken))%eff.

(** [collection.tags && collection.tags[CmrTagKeys.HasEula].data === false]:
    reading [data] of a tag that is not there throws. *)
Definition eulaTagIsFalse (collection : CmrCollection) : Completion bool :=
  match tags collection with
  | None => Returned false
  | Some t =>
      match getProperty t HasEula with
      | None => Threw (TypeError "Cannot read properties of undefined (reading 'data')")
      | Some tag =>
          Returned match data tag with
                   | DataBoolean false => true
                   | _ => false
                   end
      end
  end.

(** [collectionsHaveEulaRestriction(accessToken)]. *)
Definition collectionsHaveEulaRestriction (this : Job) (accessToken : string)
  : Eff (list CmrRequest) bool :=
  (cmrCollections <- getCollectionsByIds (collectionIds this) accessToken HasEula ;;
   if negb (Nat.eqb (List.length cmrCollections) (List.length (collectionIds this)))
   then ret true
   else match every eulaTagIsFalse cmrCollections with
        | Returned all => ret (negb all)
        | Threw e => throw e
        end)%eff.

(** [!permissionsMap[collectionId]
     || !(permissionsMap[collectionId].indexOf(CmrPermission.Read) > -1)]. *)
Definition guestCannotRead (permissionsMap : JsObject (list string)) (collectionId : string)
  : bool :=
  match getProperty permissionsMap collectionId with
  | None => true
  | Some permissions => negb (existsb (String.eqb Read) permissions)
  end.

(** [collectionsHaveGuestReadRestriction(accessToken)]. *)
Definition collectionsHaveGuestReadRestriction (this : Job) (accessToken : string)
  : Eff (list CmrRequest) bool :=
  (permissionsMap <- getPermissions (collectionIds this) accessToken ;;
   ret (existsb (guestCannotRead permissionsMap) (collectionIds this)))%eff.

(** [belongsToOrIsAdmin(requestUser, isAdmin)]. *)
Definition belongsToOrIsAdmin (this : Job) (requestUser : string) (isAdmin : bool) : bool :=
  isAdmin || String.eqb (username this) requestUser.

(** [isShareable(accessToken)]. *)
Definition isShareable (this : Job) (accessToken : string) : Eff (list CmrRequest) bool :=
  if Nat.eqb (List.length (collectionIds this)) 0
  then ret false
  else (eula <- collectionsHaveEulaRestriction this accessToken ;;
        if eula
        then ret false
        else (guest <- collectionsHaveGuestReadRestriction this accessToken ;;
              if guest then ret false else ret true))%eff.

End Cmr.

End Sharing.

(** * Properties *)

(** ** Enumerations *)

Lemma JobStatus_beq_true (a b : JobStatus) : JobStatus_beq a b = true <-> a = b.
Proof. destruct a, b; simpl; split; (reflexivity || discriminate). Qed.

Lemma JobStatus_beq_refl (a : JobStatus) : JobStatus_beq a a = true.
Proof. destruct a; reflexivity. Qed.

Lemma JobEvent_beq_true (a b : JobEvent) : JobEvent_beq a b = true <-> a = b.
Proof. destruct a, b; simpl; split; (reflexivity || discriminate). Qed.

Lemma terminalStates_eq :
  terminalStates = [SUCCESSFUL; COMPLETE_WITH_ERRORS; FAILED; CANCELED].
Proof. reflexivity. Qed.

Lemma activeJobStatuses_eq :
  activeJobStatuses = [ACCEPTED; RUNNING; RUNNING_WITH_ERRORS; PREVIEWING].
Proof. reflexivity. Qed.

Lemma includesStatus_In (l : list JobStatus) (s : JobStatus) :
  includesStatus l (Some s) = true <-> In s l.
Proof.
  unfold includesStatus. rewrite existsb_exists. split.
  - intros [x [Hin Hx]]. apply JobStatus_beq_true in Hx. now subst.
  - intros Hin. exists s. split; [assumption | apply JobStatus_beq_refl].
Qed.

(** The machine is strict, and every member of [JobEvent] is one of its
    events: [transition] never rejects an event. *)
Lemma events_complete (e : JobEvent) : In e StateMachine.events.
Proof. destruct e; vm_compute; tauto. Qed.

(** The configured [on] tables are the table of section 4.1. *)
Lemma states_on_spec_table (s : JobStatus) : on (StateMachine.states s) = spec_table s.
Proof. destruct s; reflexivity. Qed.

(** ** The state machine *)

(** X1.  [canTransition(current, desired, event)] is true exactly when
    the table of section 4.1 lists the event for the current state with
    the desired state as its target and the desired state differs from
    the current one. *)
Lemma canTransition_spec (current desired : JobStatus) (event : JobEvent) :
  canTransition current desired event
  = spec_lists current desired event && negb (JobStatus_beq desired current).
Proof. destruct current, desired, event; reflexivity. Qed.

(** An event the table does not list for the current status is refused,
    whatever the desired status. *)
Lemma canTransition_unlisted (current desired : JobStatus) (event : JobEvent) :
  canTransition current desired event && negb (spec_accepts current event) = false.
Proof. destruct current, desired, event; reflexivity. Qed.

(** C2 (the code departs from the claim at one entry).  The table of
    section 4.1 lists FAIL for the state failed with target failed, yet
    [canTransition(failed, failed, FAIL)] is false: the transition is
    taken, but it leaves the value as it was and runs no action, so the
    library reports [changed = false]. *)
Theorem canTransition_failed_failed_FAIL :
  spec_lists FAILED FAILED FAIL = true
  /\ StateMachine.transition FAILED FAIL
     = {| StateMachine.value := FAILED; StateMachine.changed := false |}
  /\ canTransition FAILED FAILED FAIL = false.
Proof. repeat split. Qed.

(** ** Rejected transitions *)

(** What [validateTransition] does on a refused transition. *)
Lemma validateTransition_refused (S : Type) (current desired : JobStatus)
  (event : JobEvent) (errorMessage : option string) (s : S) :
  canTransition current desired event = false ->
  validateTransition current desired event errorMessage s
  = (Threw (ConflictError
              match errorMessage with
              | Some m => m
              | None => defaultTransitionMessage current desired
              end), s).
Proof. intros H. unfold validateTransition. rewrite H. reflexivity. Qed.

Lemma validateTransition_allowed (S : Type) (current desired : JobStatus)
  (event : JobEvent) (errorMessage : option string) (s : S) :
  canTransition current desired event = true ->
  validateTransition current desired event errorMessage s = (Returned tt, s).
Proof. intros H. unfold validateTransition. rewrite H. reflexivity. Qed.

(** Every mutator starts by validating the transition to its target. *)
Lemma call_refused (m : Mutator) (this : Job) :
  canTransition (status this) (mutatorTarget m) (mutatorEvent m) = false ->
  call m this
  = (Threw (ConflictError
              match m with
              | Resume =>
                  "Job status is " ++ statusString (status this)
                    ++ " - only paused jobs can be resumed."
              | SkipPreview =>
                  "Job status is " ++ statusString (status this)
                    ++ " - only previewing jobs can skip preview."
              | _ => defaultTransitionMessage (status this) (mutatorTarget m)
              end), this).
Proof.
  intros H.
  destruct m; simpl in H |- *;
    unfold pause, resume, skipPreview, fail, cancel, succeed, complete_with_errors;
    unfold bind at 1; unfold get at 1; unfold bind at 1;
    rewrite (validateTransition_refused _ _ _ _ _ _ H); reflexivity.
Qed.

(** The default message names both statuses. *)
Lemma defaultTransitionMessage_names (current desired : JobStatus) :
  names (defaultTransitionMessage current desired) current = true
  /\ names (defaultTransitionMessage current desired) desired = true.
Proof. destruct current, desired; vm_compute; split; reflexivity. Qed.

(** The messages of [resume] and [skipPreview] name the current status. *)
Lemma custom_messages_name_current (current : JobStatus) :
  names ("Job status is " ++ statusString current
           ++ " - only paused jobs can be resumed.") current = true
  /\ names ("Job status is " ++ statusString current
              ++ " - only previewing jobs can skip preview.") current = true.
Proof. destruct current; vm_compute; split; reflexivity. Qed.

(** X2.  [fail] on a job that is already failed throws a ConflictError
    and leaves the job unchanged, whatever message is passed. *)
Lemma fail_on_failed_job_throws (message : option string) (this : Job) :
  fail message (set_status FAILED this)
  = (Threw (ConflictError "Job status cannot be updated from failed to failed."),
     set_status FAILED this).
Proof. destruct message; reflexivity. Qed.

(** C3 as stated fails: [resume()] on an accepted job throws a conflict
    error and leaves the job alone, but its message, "Job status is
    accepted - only paused jobs can be resumed.", does not name the
    desired status, running. *)
Lemma resume_message_omits_desired_status :
  spec_accepts (status (loadedJob ACCEPTED 0)) (mutatorEvent Resume) = false
  /\ call Resume (loadedJob ACCEPTED 0)
     = (Threw (ConflictError "Job status is accepted - only paused jobs can be resumed."),
        loadedJob ACCEPTED 0)
  /\ names "Job status is accepted - only paused jobs can be resumed."
           (mutatorTarget Resume) = false.
Proof. repeat split. Qed.

(** C3 (amended).  A public mutator invoked in a state for which the
    table of section 4.1 does not list its event throws a ConflictError
    and leaves the whole job, so its status, progress and messages,
    unchanged.  The message names the current status; for [pause],
    [fail], [cancel], [succeed] and [complete_with_errors] it also names
    the desired status. *)
Theorem mutator_unlisted_event_conflict (m : Mutator) (this : Job) :
  spec_accepts (status this) (mutatorEvent m) = false ->
  exists message,
    call m this = (Threw (ConflictError message), this)
    /\ names message (status this) = true
    /\ (usesDefaultMessage m = true -> names message (mutatorTarget m) = true).
Proof.
  intros H.
  assert (Hc : canTransition (status this) (mutatorTarget m) (mutatorEvent m) = false).
  { pose proof (canTransition_unlisted (status this) (mutatorTarget m) (mutatorEvent m)) as U.
    rewrite H in U. simpl in U. now rewrite andb_true_r in U. }
  eexists. split; [apply call_refused; exact Hc |].
  destruct m; simpl; split;
    try apply defaultTransitionMessage_names;
    try apply custom_messages_name_current;
    try discriminate;
    intros _; apply defaultTransitionMessage_names.
Qed.

Lemma mutator_unlisted_event_conflict_witness :
  exists message,
    call (Succeed None) (loadedJob PAUSED 40)
    = (Threw (ConflictError message), loadedJob PAUSED 40)
    /\ names message PAUSED = true
    /\ (true = true -> names message SUCCESSFUL = true).
Proof.
  exact (mutator_unlisted_event_conflict (Succeed None) (loadedJob PAUSED 40) eq_refl).
Defined.

(** ** The terminal write barrier *)

Lemma validateStatus_terminal (this : Job) (s : JobStatus) :
  originalStatus this = Some s ->
  In s terminalStates ->
  validateStatus this
  = (Threw (ConflictError (defaultTransitionMessage s (status this))), this).
Proof.
  intros Ho Hin. unfold validateStatus, bind, get.
  rewrite Ho. apply includesStatus_In in Hin. rewrite Hin. reflexivity.
Qed.

(** C1 as stated fails: a job loaded as failed and still failed is not
    saved; [save] throws the conflict error and writes nothing. *)
Lemma save_failed_to_failed_throws :
  originalStatus (loadedJob FAILED 0) = Some FAILED
  /\ status (loadedJob FAILED 0) = FAILED
  /\ validate (loadedJob FAILED 0) = None
  /\ save (loadedJob FAILED 0, emptyStore)
     = (Threw (ConflictError "Job status cannot be updated from failed to failed."),
        (loadedJob FAILED 0, emptyStore)).
Proof. repeat split. Qed.

(** C1 (amended).  For every job whose [originalStatus] is a terminal
    state, [save] throws a ConflictError naming the original and the
    current status and changes neither the job nor the store; this holds
    for a failed job whose status is still failed as well. *)
Theorem save_terminal_original_status_conflict (this : Job) (db : Store) (s : JobStatus) :
  originalStatus this = Some s ->
  In s terminalStates ->
  save (this, db)
  = (Threw (ConflictError
              ("Job status cannot be updated from " ++ statusString s ++ " to "
                 ++ statusString (status this) ++ ".")),
     (this, db)).
Proof.
  intros Ho Hin. unfold save. unfold bind at 1. unfold onThis at 1. simpl fst.
  rewrite (validateStatus_terminal this s Ho Hin). reflexivity.
Qed.

Lemma save_terminal_original_status_conflict_witness :
  save (loadedJob SUCCESSFUL 100, emptyStore)
  = (Threw (ConflictError
              ("Job status cannot be updated from " ++ statusString SUCCESSFUL ++ " to "
                 ++ statusString (status (loadedJob SUCCESSFUL 100)) ++ ".")),
     (loadedJob SUCCESSFUL 100, emptyStore)).
Proof.
  apply (save_terminal_original_status_conflict (loadedJob SUCCESSFUL 100) emptyStore
           SUCCESSFUL eq_refl).
  simpl. tauto.
Defined.

(** ** Progress rollup *)

Lemma ofZ_zero : Number.ofZ 0 = S754_zero false.
Proof. reflexivity. Qed.

Lemma ofZ_one : Number.ofZ 1 = S754_finite false 4503599627370496 (-52).
Proof. vm_compute. reflexivity. Qed.

(** Rounding a mantissa that is not negative never yields NaN, and keeps
    the sign it is given. *)
Lemma shr_1_nonneg (mrs : shr_record) : 0 <= shr_m mrs -> 0 <= shr_m (shr_1 mrs).
Proof.
  destruct mrs as [m r s]. simpl. intros H.
  destruct m as [| [q | q |] | q]; simpl; lia.
Qed.

Lemma iter_shr_1_nonneg (n : positive) :
  forall mrs, 0 <= shr_m mrs -> 0 <= shr_m (iter_pos shr_1 n mrs).
Proof.
  induction n as [n IH | n IH |]; intros mrs H; simpl.
  - apply IH, IH, shr_1_nonneg, H.
  - apply IH, IH, H.
  - apply shr_1_nonneg, H.
Qed.

Lemma shr_fexp_nonneg (prec emax m e : Z) (l : location) :
  0 <= m -> 0 <= shr_m (fst (shr_fexp prec emax m e l)).
Proof.
  intros H. unfold shr_fexp, shr.
  assert (H0 : 0 <= shr_m (shr_record_of_loc m l))
    by (destruct l as [| []]; exact H).
  destruct (fexp prec emax (Zdigits2 m + e) - e) as [| n | n]; simpl; try exact H0.
  apply iter_shr_1_nonneg, H0.
Qed.

Lemma round_nearest_even_nonneg (m : Z) (l : location) :
  0 <= m -> 0 <= round_nearest_even m l.
Proof.
  intros H. unfold round_nearest_even.
  destruct l as [| []]; try exact H; try lia. destruct (Z.even m); lia.
Qed.

Lemma binary_round_aux_sign (prec emax : Z) (s : bool) (m e : Z) (l : location) :
  0 <= m ->
  hasSign s (binary_round_aux prec emax s m e l)
  /\ binary_round_aux prec emax s m e l <> S754_nan.
Proof.
  intros H. unfold binary_round_aux.
  pose proof (shr_fexp_nonneg prec emax m e l H) as H1.
  destruct (shr_fexp prec emax m e l) as [mrs' e']. simpl in H1.
  pose proof (shr_fexp_nonneg prec emax
                (round_nearest_even (shr_m mrs') (loc_of_shr_record mrs')) e' loc_Exact
                (round_nearest_even_nonneg _ _ H1)) as H2.
  destruct (shr_fexp prec emax _ e' loc_Exact) as [mrs'' e'']. simpl in H2.
  destruct (shr_m mrs'') as [| q | q]; [| | lia].
  - split; [reflexivity | discriminate].
  - destruct (e'' <=? emax - prec); (split; [reflexivity | discriminate]).
Qed.

(** The quotient of two finite numbers is a number, and it has the sign
    of the quotient. *)
Lemma div_finite (sx : bool) (mx : positive) (ex : Z) (sy : bool) (my : positive) (ey : Z) :
  hasSign (xorb sx sy) (Number.div (S754_finite sx mx ex) (S754_finite sy my ey))
  /\ Number.div (S754_finite sx mx ex) (S754_finite sy my ey) <> S754_nan.
Proof.
  unfold Number.div, SFdiv.
  destruct (SFdiv_core_binary Number.prec Number.emax (Zpos mx) ex (Zpos my) ey)
    as [[mz ez] lz] eqn:E.
  apply binary_round_aux_sign.
  unfold SFdiv_core_binary in E.
  match type of E with
  | context [Z.div_eucl ?a ?b] =>
      assert (Ha : 0 <= a);
      [| pose proof (Z.div_pos a b Ha eq_refl) as Hq; unfold Z.div in Hq;
         destruct (Z.div_eucl a b) as [q r]; inversion E; subst; exact Hq]
  end.
  destruct (ex - ey - _) as [| n | n]; try lia.
  apply Z.shiftl_nonneg. lia.
Qed.

Lemma floorOfFinite_nonneg (m : positive) (e : Z) : 0 <= Number.floorOfFinite false m e.
Proof.
  unfold Number.floorOfFinite, cond_Zopp. cbv zeta. destruct (0 <=? e) eqn:E.
  - apply Z.leb_le in E. apply Z.mul_nonneg_nonneg; [lia | apply Z.pow_nonneg; lia].
  - apply Z.leb_gt in E. apply Z.div_pos; [lia | apply Z.pow_pos_nonneg; lia].
Qed.

Lemma floorOfFinite_nonpos (m : positive) (e : Z) : Number.floorOfFinite true m e <= 0.
Proof.
  unfold Number.floorOfFinite, cond_Zopp. cbv zeta. destruct (0 <=? e) eqn:E.
  - apply Z.leb_le in E.
    pose proof (Z.pow_nonneg 2 e ltac:(lia)). nia.
  - apply Z.leb_gt in E.
    pose proof (Z.pow_pos_nonneg 2 (- e) ltac:(lia) ltac:(lia)) as Hp.
    apply Z.lt_succ_r. apply Z.div_lt_upper_bound; [exact Hp | nia].
Qed.

(** The guarded total is a positive number or [+Infinity]. *)
Lemma guarded_total_positive (steps : list WorkflowStep.t) :
  match guarded_total steps with
  | S754_infinity false | S754_finite false _ _ => True
  | _ => False
  end.
Proof.
  unfold guarded_total. rewrite ofZ_zero, ofZ_one.
  destruct (weightSum steps) as [[] | [] | | [] m e]; exact I.
Qed.

(** [Math.max(0, w)] before the division against the clamp at 0 after
    it: they agree, except when [w] is [-Infinity] and the total is
    [+Infinity], where the first gives 0 and the second has no value. *)
Lemma max_before_or_clamp_after (w t : Number.t) :
  match t with S754_infinity false | S754_finite false _ _ => True | _ => False end ->
  (w = S754_infinity true /\ t = S754_infinity false
   /\ Number.minOfFloor (Number.div (Number.max (Number.ofZ 0) w) t) 99 = Number.Integer 0)
  \/ (~ (w = S754_infinity true /\ t = S754_infinity false)
      /\ Number.minOfFloor (Number.div (Number.max (Number.ofZ 0) w) t) 99
         = clamp99 (Number.div w t)).
Proof.
  intros Ht. rewrite ofZ_zero.
  destruct t as [st | [] | | [] mt et]; try contradiction Ht.
  - (* the total is +Infinity *)
    destruct w as [[] | [] | | [] m e];
      try (right; split; [intros [H _]; discriminate H | reflexivity]).
    left. repeat split.
  - (* the total is finite *)
    destruct w as [[] | [] | | [] m e];
      try (right; split; [intros [_ H]; discriminate H | reflexivity]).
    + right. split; [intros [_ H]; discriminate H |].
      change (Number.max (S754_zero false) (S754_finite true m e)) with (S754_zero false).
      change (Number.minOfFloor (Number.div (S754_zero false) (S754_finite false mt et)) 99)
        with (Number.Integer 0).
      destruct (div_finite true m e false mt et) as [Hs Hn]. unfold clamp99.
      destruct (Number.div (S754_finite true m e) (S754_finite false mt et))
        as [sd | sd | | sd md ed]; simpl in Hs; try subst sd; try reflexivity.
      * now destruct Hn.
      * simpl. pose proof (floorOfFinite_nonpos md ed). f_equal. lia.
    + right. split; [intros [_ H]; discriminate H |].
      change (Number.max (S754_zero false) (S754_finite false m e))
        with (S754_finite false m e).
      destruct (div_finite false m e false mt et) as [Hs Hn]. unfold clamp99.
      destruct (Number.div (S754_finite false m e) (S754_finite false mt et))
        as [sd | sd | | sd md ed]; simpl in Hs; try subst sd; try reflexivity.
      simpl. pose proof (floorOfFinite_nonneg md ed). f_equal. lia.
Qed.

Lemma clamp99_range (x : Number.t) :
  clamp99 x = Number.NotANumber
  \/ exists z, clamp99 x = Number.Integer z /\ 0 <= z <= 99.
Proof.
  unfold clamp99. destruct (Number.minOfFloor x 99) as [| | z] eqn:E.
  - left. reflexivity.
  - right. exists 0. split; [reflexivity | lia].
  - right. exists (Z.max 0 z). split; [reflexivity |].
    assert (z <= 99); [| lia].
    destruct x as [? | [] | | ? ? ?]; simpl in E; inversion E; lia.
Qed.

Lemma guarded_candidate_range (steps : list WorkflowStep.t) :
  guarded_candidate steps = Number.NotANumber
  \/ exists z, guarded_candidate steps = Number.Integer z /\ 0 <= z <= 99.
Proof. apply clamp99_range. Qed.

(** The value [updateProgress] compares with the current progress is the
    clamped floor of the weighted sum over the guarded total, unless the
    two sums have overflowed apart, where it is 0. *)
Lemma rolledUpProgress_guarded (steps : list WorkflowStep.t) :
  (sumsOverflowApart steps /\ rolledUpProgress steps = Number.Integer 0)
  \/ (~ sumsOverflowApart steps /\ rolledUpProgress steps = guarded_candidate steps).
Proof.
  pose proof (guarded_total_positive steps) as Ht.
  destruct (max_before_or_clamp_after (weightedSum steps) (guarded_total steps) Ht)
    as [[Hw [Ht' H]] | [Hn H]].
  - left. split; [| exact H]. split; [exact Hw |].
    unfold guarded_total in Ht'.
    destruct (Number.ltb (Number.ofZ 0) (weightSum steps)); [exact Ht' |].
    rewrite ofZ_one in Ht'. discriminate.
  - right. split; [| exact H]. intros [Hw Hs]. apply Hn. split; [exact Hw |].
    unfold guarded_total. rewrite Hs. reflexivity.
Qed.

(** What comes out of the rollup is NaN or an integer from 0 to 99. *)
Lemma rolledUpProgress_range (steps : list WorkflowStep.t) :
  rolledUpProgress steps = Number.NotANumber
  \/ exists z, rolledUpProgress steps = Number.Integer z /\ 0 <= z <= 99.
Proof.
  destruct (rolledUpProgress_guarded steps) as [[_ H] | [_ H]]; rewrite H.
  - right. exists 0. split; [reflexivity | lia].
  - apply guarded_candidate_range.
Qed.

(** Where the sum of the weights is at most 0 or at least 1, the guarded
    total is the total [max(1, sum)] of the specification. *)
Lemma guarded_total_spec (steps : list WorkflowStep.t) :
  Number.leb (weightSum steps) (Number.ofZ 0) || Number.leb (Number.ofZ 1) (weightSum steps)
  = true ->
  guarded_total steps = Number.max (Number.ofZ 1) (weightSum steps).
Proof.
  unfold guarded_total. rewrite ofZ_zero, ofZ_one.
  destruct (weightSum steps) as [[] | [] | | [] m e]; try reflexivity; try discriminate.
  unfold Number.leb, Number.ltb, Number.max, SFleb, SFltb, SFcompare.
  cbn [orb].
  destruct (-52 ?= e) eqn:Ee; try reflexivity; try discriminate.
  destruct (Pos.compare_cont Eq 4503599627370496 m) eqn:Em;
    try reflexivity; try discriminate.
  intros _. apply Z.compare_eq in Ee. apply Pos.compare_eq in Em. subst. reflexivity.
Qed.

Lemma guarded_candidate_spec (steps : list WorkflowStep.t) :
  Number.leb (weightSum steps) (Number.ofZ 0) || Number.leb (Number.ofZ 1) (weightSum steps)
  = true ->
  guarded_candidate steps = spec_candidate steps.
Proof.
  intros H. unfold guarded_candidate, spec_candidate.
  rewrite (guarded_total_spec steps H). reflexivity.
Qed.

(** The comparison and the assignment never lower the progress, and
    raise it to the candidate only. *)
Lemma raisedTo_progress (candidate : Number.Integral) (this : Job) :
  (candidate = Number.NotANumber
   \/ exists z, candidate = Number.Integer z /\ 0 <= z <= 99) ->
  (progress (raisedTo candidate this) = progress this
   \/ (progress this < progress (raisedTo candidate this)
       /\ progress (raisedTo candidate this) <= 99))
  /\ request (raisedTo candidate this) = request this
  /\ batchesCompleted (raisedTo candidate this) = batchesCompleted this.
Proof.
  intros [-> | [z [-> Hz]]]; simpl; [repeat split; left; reflexivity |].
  destruct (progress this <? z) eqn:E; simpl.
  - apply Z.ltb_lt in E. repeat split. right. lia.
  - repeat split. left. reflexivity.
Qed.

(** C4 as stated fails: for one step of weight one half at progress 1
    the code divides one half by the sum of the weights, one half, and
    reaches 1, where the total [max(1, sum)] gives 0; a job at progress 0
    is moved to 1 although the stated candidate is not greater than its
    progress. *)
Lemma rollup_divides_by_small_total :
  rolledUpProgress [halfWeightStep] = Number.Integer 1
  /\ spec_candidate [halfWeightStep] = Number.Integer 0
  /\ applyProgress (rolledUpProgress [halfWeightStep]) (loadedJob RUNNING 0)
     = (Returned tt, set_progress 1 (loadedJob RUNNING 0)).
Proof. repeat split; vm_compute; reflexivity. Qed.

(** The rollup rounds as the doubles of the code do: the quotient of the
    sums for weights 0.1 and 0.2, both at progress 50, is just below 50,
    and for weight 0.1 at progress 43 just below 43. *)
Lemma rollup_rounds_as_doubles :
  rolledUpProgress [tenthsStep 1 1 50; tenthsStep 2 2 50] = Number.Integer 49
  /\ rolledUpProgress [tenthsStep 1 1 43] = Number.Integer 42
  /\ Number.ofRatio 1 10 = S754_finite false 7205759403792794 (-56)
  /\ Number.add (Number.ofRatio 1 10) (Number.ofRatio 2 10)
     = S754_finite false 5404319552844596 (-54).
Proof. repeat split; vm_compute; reflexivity. Qed.

(** The overflow of both sums apart is a case of its own: the code takes
    [Math.max(0, -Infinity)] before it divides and arrives at 0, where the
    quotient of the two sums is NaN. *)
Lemma rollup_overflow_apart :
  sumsOverflowApart [overflowStep 1; overflowStep 2]
  /\ rolledUpProgress [overflowStep 1; overflowStep 2] = Number.Integer 0
  /\ guarded_candidate [overflowStep 1; overflowStep 2] = Number.NotANumber.
Proof. repeat split; vm_compute; reflexivity. Qed.

(** What [updateProgress] does to the job: it always returns, and the
    progress becomes the rolled-up value when that is greater. *)
Lemma updateProgress_sets_candidate
  (stepUpdateProgress : option WorkflowStep.t -> WorkflowStep.t -> WorkflowStep.t)
  (this : Job) (db : Store) :
  updateProgress stepUpdateProgress (this, db)
  = (Returned tt,
     (raisedTo (rolledUpProgress
                  (updateSteps stepUpdateProgress None
                     (getWorkflowStepsByJobId db (jobID this)))) this, db)).
Proof.
  unfold updateProgress, bind, onThis, onDb, get, applyProgress, raisedTo. simpl.
  destruct (rolledUpProgress _) as [| | z]; try reflexivity.
  unfold bind, get, modify, ret.
  destruct (progress this <? z); reflexivity.
Qed.

(** C4 (amended).  In the double arithmetic of the code, with both sums
    taken in the order of the steps, [updateProgress] computes the
    candidate [floor(sum(weight_i * progress_i) / total)] clamped to the
    range from 0 to 99, where [total] is the sum of the weights when that
    sum is greater than 0 and 1 otherwise; the candidate is an integer
    from 0 to 99, or NaN when the quotient is.  It sets the job's progress
    to the candidate exactly when the candidate is an integer greater
    than the current progress, and always returns.  The one exception is
    the overflow of the weighted sum to [-Infinity] together with that of
    the sum of the weights to [+Infinity], where the code works with 0.
    The total is [max(1, sum(weight_i))] whenever the sum of the weights
    is at most 0 or at least 1. *)
Theorem updateProgress_candidate
  (stepUpdateProgress : option WorkflowStep.t -> WorkflowStep.t -> WorkflowStep.t)
  (this : Job) (db : Store) :
  let steps := updateSteps stepUpdateProgress None (getWorkflowStepsByJobId db (jobID this)) in
  let candidate := guarded_candidate steps in
  (candidate = Number.NotANumber
   \/ exists z, candidate = Number.Integer z /\ 0 <= z <= 99)
  /\ (~ sumsOverflowApart steps ->
      updateProgress stepUpdateProgress (this, db)
      = (Returned tt,
         (match candidate with
          | Number.Integer z => if progress this <? z then set_progress z this else this
          | _ => this
          end, db)))
  /\ (sumsOverflowApart steps ->
      updateProgress stepUpdateProgress (this, db)
      = (Returned tt, (if progress this <? 0 then set_progress 0 this else this, db)))
  /\ (Number.leb (weightSum steps) (Number.ofZ 0)
      || Number.leb (Number.ofZ 1) (weightSum steps) = true ->
      guarded_total steps = Number.max (Number.ofZ 1) (weightSum steps)
      /\ candidate = spec_candidate steps).
Proof.
  intros steps candidate. split; [apply guarded_candidate_range |].
  rewrite updateProgress_sets_candidate. fold steps.
  destruct (rolledUpProgress_guarded steps) as [[Ho H] | [Hn H]]; rewrite H.
  - split; [intros Hn; contradiction |]. split; [intros _; reflexivity |].
    intros Hs. split; [apply guarded_total_spec | apply guarded_candidate_spec]; exact Hs.
  - split.
    + intros _. fold candidate. unfold raisedTo.
      destruct candidate as [| | z]; reflexivity.
    + split; [intros Ho; contradiction |].
      intros Hs. split; [apply guarded_total_spec | apply guarded_candidate_spec]; exact Hs.
Qed.

(** Scenario S5 of the specification: for a step of weight 1 at
    progress one half and a step of weight 3 at progress 0 the rolled-up
    value is 0, and a job at progress 10 stays at 10. *)
Lemma rollup_S5 :
  rolledUpProgress s5Steps = Number.Integer 0
  /\ applyProgress (rolledUpProgress s5Steps) (loadedJob RUNNING 10)
     = (Returned tt, loadedJob RUNNING 10).
Proof. split; vm_compute; reflexivity. Qed.

(** Scenario S3 of the specification: a job whose request is
    ["ftp://x"] does not validate, and the list of errors holds the
    request error. *)
Lemma validate_rejects_ftp :
  validate (set_request "ftp://x" (loadedJob ACCEPTED 0))
  = Some ["Invalid request ftp://x. Job request must be a URL."].
Proof. reflexivity. Qed.

(** ** Progress is monotone *)

(** [updateStatus] always returns; it sets the status, keeps the job's
    identity, and forces the progress to 100 exactly for the two
    completed statuses. *)
Lemma updateStatus_returns (newStatus : JobStatus) (message : option string) (this : Job) :
  exists this',
    updateStatus newStatus message this = (Returned tt, this')
    /\ status this' = newStatus
    /\ jobID this' = jobID this
    /\ originalStatus this' = originalStatus this
    /\ progress this' = if completes newStatus then 100 else progress this.
Proof.
  unfold updateStatus, setMessage, bind, get, modify, ret, completes.
  destruct message as [m |]; simpl.
  - destruct (negb (String.eqb m "")); simpl;
      destruct newStatus; simpl; eexists; repeat split.
  - destruct newStatus; simpl; eexists; repeat split.
Qed.

(** A mutator either throws before it touches the job, or returns with
    the target status set. *)
Lemma call_outcome (m : Mutator) (this : Job) :
  (canTransition (status this) (mutatorTarget m) (mutatorEvent m) = false
   /\ exists message, call m this = (Threw (ConflictError message), this))
  \/ (canTransition (status this) (mutatorTarget m) (mutatorEvent m) = true
      /\ exists this',
           call m this = (Returned tt, this')
           /\ status this' = mutatorTarget m
           /\ jobID this' = jobID this
           /\ originalStatus this' = originalStatus this
           /\ progress this'
              = if completes (mutatorTarget m) then 100 else progress this).
Proof.
  destruct (canTransition (status this) (mutatorTarget m) (mutatorEvent m)) eqn:E.
  - right. split; [reflexivity |].
    destruct m; simpl in E |- *;
      unfold pause, resume, skipPreview, fail, cancel, succeed, complete_with_errors;
      unfold bind at 1; unfold get at 1; unfold bind at 1;
      rewrite (validateTransition_allowed _ _ _ _ _ _ E);
      try (unfold bind at 1; unfold get at 1);
      match goal with
      | |- context [updateStatus ?s ?msg this] =>
          destruct (updateStatus_returns s msg this) as [this' [H1 H2]];
          exists this'; split; [exact H1 | exact H2]
      end.
  - left. split; [reflexivity |]. eexists. apply call_refused. exact E.
Qed.

Lemma perform_progress
  (stepUpdateProgress : option WorkflowStep.t -> WorkflowStep.t -> WorkflowStep.t)
  (c : Call) (w : World) :
  progress (fst w) <= 100 ->
  progress (fst w) <= progress (fst (snd (perform stepUpdateProgress c w))) <= 100.
Proof.
  intros Hle. destruct w as [this db]. simpl in Hle. destruct c as [m | | f]; simpl.
  - unfold onThis. simpl.
    destruct (call_outcome m this) as [[_ [msg H]] | [_ [this' [H [_ [_ [_ Hp]]]]]]];
      rewrite H; simpl; [lia |].
    rewrite Hp. destruct (completes (mutatorTarget m)); lia.
  - rewrite updateProgress_sets_candidate. simpl.
    destruct (raisedTo_progress _ this
                (rolledUpProgress_range
                   (updateSteps stepUpdateProgress None
                      (getWorkflowStepsByJobId db (jobID this))))) as [[Hp | Hp] _]; lia.
  - unfold onDb, modify. simpl. lia.
Qed.

Lemma performAll_app
  (stepUpdateProgress : option WorkflowStep.t -> WorkflowStep.t -> WorkflowStep.t)
  (before after : list Call) (w : World) :
  performAll stepUpdateProgress (before ++ after) w
  = performAll stepUpdateProgress after (performAll stepUpdateProgress before w).
Proof.
  revert w. induction before as [| c before IH]; intros w; simpl; [reflexivity |].
  apply IH.
Qed.

Lemma performAll_progress
  (stepUpdateProgress : option WorkflowStep.t -> WorkflowStep.t -> WorkflowStep.t)
  (cs : list Call) (w : World) :
  progress (fst w) <= 100 ->
  progress (fst w) <= progress (fst (performAll stepUpdateProgress cs w)) <= 100.
Proof.
  revert w. induction cs as [| c cs IH]; intros w Hle; simpl; [lia |].
  pose proof (perform_progress stepUpdateProgress c w Hle) as [H1 H2].
  pose proof (IH _ H2). lia.
Qed.

(** C5.  Over any sequence of public mutator calls, [updateProgress]
    calls and changes to the database in between, the progress of a job
    that starts within its range (at most 100) never decreases: the value
    after any prefix of the sequence is at most the value after the whole
    sequence.  [updateProgress] never sets the progress above 99: it
    leaves it alone or raises it to a value of at most 99.  A [succeed]
    or [complete_with_errors] call that is accepted, and [updateStatus]
    to either status, leave the progress at exactly 100. *)
Theorem progress_monotone
  (stepUpdateProgress : option WorkflowStep.t -> WorkflowStep.t -> WorkflowStep.t)
  (before after : list Call) (w : World) (message : option string) :
  (progress (fst w) <= 100 ->
   progress (fst (performAll stepUpdateProgress before w))
   <= progress (fst (performAll stepUpdateProgress (before ++ after) w)))
  /\ (let this' := fst (snd (updateProgress stepUpdateProgress w)) in
      progress this' = progress (fst w)
      \/ (progress (fst w) < progress this' /\ progress this' <= 99))
  /\ progress (snd (updateStatus SUCCESSFUL message (fst w))) = 100
  /\ progress (snd (updateStatus COMPLETE_WITH_ERRORS message (fst w))) = 100
  /\ (forall this', succeed message (fst w) = (Returned tt, this') ->
                    progress this' = 100)
  /\ (forall this', complete_with_errors message (fst w) = (Returned tt, this') ->
                    progress this' = 100).
Proof.
  repeat split.
  - intros Hle. rewrite performAll_app.
    pose proof (performAll_progress stepUpdateProgress before w Hle) as [_ H].
    apply (performAll_progress stepUpdateProgress after _ H).
  - destruct w as [this db].
    rewrite updateProgress_sets_candidate. simpl.
    exact (proj1 (raisedTo_progress _ this
                    (rolledUpProgress_range
                       (updateSteps stepUpdateProgress None
                          (getWorkflowStepsByJobId db (jobID this)))))).
  - destruct (updateStatus_returns SUCCESSFUL message (fst w)) as [t [H [_ [_ [_ Hp]]]]].
    rewrite H. exact Hp.
  - destruct (updateStatus_returns COMPLETE_WITH_ERRORS message (fst w))
      as [t [H [_ [_ [_ Hp]]]]].
    rewrite H. exact Hp.
  - intros this' H.
    destruct (call_outcome (Succeed message) (fst w))
      as [[_ [msg H']] | [_ [t [H' [_ [_ [_ Hp]]]]]]];
      simpl in H'; rewrite H' in H; [discriminate |].
    injection H as <-. exact Hp.
  - intros this' H.
    destruct (call_outcome (CompleteWithErrors message) (fst w))
      as [[_ [msg H']] | [_ [t [H' [_ [_ [_ Hp]]]]]]];
      simpl in H'; rewrite H' in H; [discriminate |].
    injection H as <-. exact Hp.
Qed.

Lemma progress_monotone_witness :
  progress (fst (performAll (fun _ step => step) [Mutate Pause; Mutate Resume]
                   (loadedJob RUNNING 40, queueStore)))
  <= progress (fst (performAll (fun _ step => step)
                      ([Mutate Pause; Mutate Resume]
                         ++ [UpdateProgress; Mutate (Succeed None)])
                      (loadedJob RUNNING 40, queueStore))).
Proof.
  apply (proj1 (progress_monotone (fun _ step => step) [Mutate Pause; Mutate Resume]
                  [UpdateProgress; Mutate (Succeed None)]
                  (loadedJob RUNNING 40, queueStore) None)).
  simpl. lia.
Defined.

(** Scenario S2 of the specification, from the running state on: pause,
    resume and complete end in successful with progress 100, and a
    resume from running is refused. *)
Example pause_resume_complete :
  (let this := fst (performAll (fun _ step => step)
                      [Mutate Pause; Mutate Resume; Mutate (Succeed None)]
                      (loadedJob RUNNING 40, emptyStore)) in
   status this = SUCCESSFUL /\ progress this = 100
   /\ getMessage this SUCCESSFUL = "The job has completed successfully")
  /\ resume (loadedJob RUNNING 40)
     = (Threw (ConflictError "Job status is running - only paused jobs can be resumed."),
        loadedJob RUNNING 40).
Proof. repeat split. Qed.

(** ** Ordered queries *)

Section OrderBy.

Context {A : Type} (le : A -> A -> bool).
Hypothesis le_total : forall x y, le x y = true \/ le y x = true.
Hypothesis le_trans : forall x y z, le x y = true -> le y z = true -> le x z = true.

Lemma insert_by_In (x y : A) (l : list A) :
  In y (insert_by le x l) <-> y = x \/ In y l.
Proof.
  induction l as [| z l IH]; simpl.
  - intuition.
  - destruct (le x z); simpl; [intuition |]. rewrite IH. intuition.
Qed.

Lemma orderBy_In (y : A) (l : list A) : In y (orderBy le l) <-> In y l.
Proof.
  induction l as [| x l IH]; simpl; [reflexivity |].
  rewrite insert_by_In, IH. intuition.
Qed.

Lemma orderBy_nil (l : list A) : orderBy le l = [] <-> l = [].
Proof.
  split; intros H; [| subst; reflexivity].
  destruct l as [| x l]; [reflexivity |].
  assert (Hin : In x (orderBy le (x :: l))) by (apply orderBy_In; left; reflexivity).
  rewrite H in Hin. destruct Hin.
Qed.

(** The first row of an ordered result is below every row. *)
Lemma first_orderBy_least (l : list A) (x : A) :
  first (orderBy le l) = Some x ->
  In x l /\ forall y, In y l -> le x y = true.
Proof.
  intros H. split.
  - apply orderBy_In. unfold first in H.
    destruct (orderBy le l); simpl in H; [discriminate |].
    injection H as ->. left. reflexivity.
  - revert x H. induction l as [| a l IH]; intros x H y Hy; [destruct Hy |].
    simpl in H. unfold first in *.
    destruct (orderBy le l) as [| b r] eqn:E.
    + apply (proj1 (orderBy_nil l)) in E. subst l. simpl in H. injection H as <-.
      destruct Hy as [<- | []]. destruct (le_total a a); assumption.
    + simpl in H. specialize (IH b eq_refl).
      destruct (le a b) eqn:Eab; simpl in H; injection H as <-.
      * destruct Hy as [<- | Hy].
        -- destruct (le_total a a); assumption.
        -- apply (le_trans a b y Eab). apply IH. exact Hy.
      * destruct Hy as [<- | Hy].
        -- destruct (le_total b a) as [Hba | Hab]; [assumption | congruence].
        -- apply IH. exact Hy.
Qed.

Lemma first_orderBy_none (l : list A) : first (orderBy le l) = None <-> l = [].
Proof.
  rewrite <- orderBy_nil. unfold first.
  destruct (orderBy le l); simpl; split; intros H; (reflexivity || discriminate).
Qed.

End OrderBy.

Lemma rcThenLw_total (x y : UserGroup) : rcThenLw x y = true \/ rcThenLw y x = true.
Proof.
  unfold rcThenLw.
  destruct (rc x <? rc y) eqn:E1, (rc y <? rc x) eqn:E2; simpl; auto.
  apply Z.ltb_ge in E1, E2.
  assert (Heq : rc x = rc y) by lia. rewrite Heq, Z.eqb_refl. simpl.
  destruct (lw x <=? lw y) eqn:E3; [left; reflexivity | right].
  apply Z.leb_gt in E3. apply Z.leb_le. lia.
Qed.

Lemma rcThenLw_iff (x y : UserGroup) :
  rcThenLw x y = true <-> rc x < rc y \/ (rc x = rc y /\ lw x <= lw y).
Proof.
  unfold rcThenLw.
  rewrite orb_true_iff, andb_true_iff, Z.ltb_lt, Z.eqb_eq, Z.leb_le. reflexivity.
Qed.

Lemma rcThenLw_trans (x y z : UserGroup) :
  rcThenLw x y = true -> rcThenLw y z = true -> rcThenLw x z = true.
Proof. rewrite !rcThenLw_iff. lia. Qed.

Lemma byLastWorked_total (x y : UserWork.t) :
  byLastWorked x y = true \/ byLastWorked y x = true.
Proof. unfold byLastWorked. rewrite !Z.leb_le. lia. Qed.

Lemma byLastWorked_trans (x y z : UserWork.t) :
  byLastWorked x y = true -> byLastWorked y z = true -> byLastWorked x z = true.
Proof. unfold byLastWorked. rewrite !Z.leb_le. lia. Qed.

(** ** The next user for a service *)

Lemma filter_filter_absorb {A : Type} (p q : A -> bool) (l : list A) :
  (forall x, In x l -> p x = true -> q x = true) ->
  filter p (filter q l) = filter p l.
Proof.
  induction l as [| x l IH]; intros H; simpl; [reflexivity |].
  destruct (q x) eqn:Eq; simpl.
  - rewrite IH by (intros y Hy; apply H; right; exact Hy). reflexivity.
  - destruct (p x) eqn:Ep.
    + rewrite (H x (or_introl eq_refl) Ep) in Eq. discriminate.
    + apply IH. intros y Hy. apply H. right. exact Hy.
Qed.

Lemma usernameSubquery_In (table : list UserWork.t) (serviceID u : string) :
  In u (usernameSubquery table serviceID) <-> hasReadyRow table serviceID u.
Proof.
  unfold usernameSubquery, hasReadyRow, readyRowFor, readyForService.
  rewrite nodup_In, in_map_iff. split.
  - intros [r [Hu Hr]]. apply filter_In in Hr as [Hin Hc].
    apply andb_true_iff in Hc as [Hs Hc].
    apply String.eqb_eq in Hs. apply Z.ltb_lt in Hc. exists r. auto.
  - intros [r [Hin [Hu [Hs Hc]]]]. exists r. split; [exact Hu |].
    apply filter_In. split; [exact Hin |].
    apply andb_true_iff. split; [apply String.eqb_eq; exact Hs | apply Z.ltb_lt; exact Hc].
Qed.

Lemma existsb_eqb_In (u : string) (l : list string) :
  existsb (String.eqb u) l = true <-> In u l.
Proof.
  rewrite existsb_exists. split.
  - intros [x [Hin Hx]]. apply String.eqb_eq in Hx. now subst.
  - intros Hin. exists u. split; [exact Hin | apply String.eqb_refl].
Qed.

(** The groups of the query: one per user with ready work for the
    service, aggregated over all the rows of that user. *)
Lemma groupByUsername_In (table : list UserWork.t) (serviceID : string) (g : UserGroup) :
  In g (groupByUsername table serviceID)
  <-> exists u, hasReadyRow table serviceID u
                /\ g = {| g_username := u; lw := maxLastWorked table u;
                          rc := sumRunning table u |}.
Proof.
  unfold groupByUsername, maxLastWorked, sumRunning.
  set (sub := usernameSubquery table serviceID).
  set (selected := filter (fun r => existsb (String.eqb (UserWork.username r)) sub) table).
  assert (Hrows : forall u, In u sub -> rowsOfUser selected u = rowsOfUser table u).
  { intros u Hu. unfold rowsOfUser, selected. apply filter_filter_absorb.
    intros r _ Hr. apply String.eqb_eq in Hr. apply existsb_eqb_In. now rewrite Hr. }
  rewrite in_map_iff. split.
  - intros [u [Hg Hu]]. apply nodup_In in Hu. apply in_map_iff in Hu as [r [Hr Hin]].
    apply filter_In in Hin as [_ Hin]. apply existsb_eqb_In in Hin. rewrite Hr in Hin.
    exists u. split; [apply usernameSubquery_In; exact Hin |].
    rewrite <- Hg, (Hrows u Hin). reflexivity.
  - intros [u [Hu Hg]]. exists u.
    assert (Hsub : In u sub) by (apply usernameSubquery_In; exact Hu).
    split; [rewrite Hg, (Hrows u Hsub); reflexivity |].
    apply nodup_In, in_map_iff. destruct Hu as [r [Hin [Hr _]]].
    exists r. split; [exact Hr |]. apply filter_In. split; [exact Hin |].
    apply existsb_eqb_In. now rewrite Hr.
Qed.

(** The query finds no row exactly when no user has ready work for the
    service. *)
Lemma getNextUsernameForWork_undefined (tx : Store) (serviceID : string) :
  getNextUsernameForWork tx serviceID = Returned None
  <-> forall u, ~ hasReadyRow (user_work tx) serviceID u.
Proof.
  unfold getNextUsernameForWork.
  destruct (first (orderBy rcThenLw (groupByUsername (user_work tx) serviceID)))
    as [g |] eqn:E; simpl.
  - split; [discriminate |]. intros Hno. exfalso.
    apply (first_orderBy_least rcThenLw rcThenLw_total rcThenLw_trans) in E as [Hin _].
    apply groupByUsername_In in Hin as [u [Hu _]]. exact (Hno u Hu).
  - split; [| reflexivity]. intros _ u Hu.
    apply first_orderBy_none in E.
    assert (Hin : In {| g_username := u; lw := maxLastWorked (user_work tx) u;
                        rc := sumRunning (user_work tx) u |}
                     (groupByUsername (user_work tx) serviceID)).
    { apply groupByUsername_In. exists u. split; [exact Hu | reflexivity]. }
    rewrite E in Hin. destruct Hin.
Qed.

(** C6.  When [getNextUsernameForWork] returns a username, that user has
    a row for the service with [ready_count > 0], and among the users
    that have one it has the least sum of [running_count], ties broken by
    the smaller maximum of [last_worked]; it returns [undefined] only
    when no user has ready work for the service, so a user with no ready
    item for the service is never returned. *)
Theorem getNextUsernameForWork_least_loaded (tx : Store) (serviceID : string) :
  match getNextUsernameForWork tx serviceID with
  | Returned (Some u) =>
      hasReadyRow (user_work tx) serviceID u
      /\ forall u', hasReadyRow (user_work tx) serviceID u' ->
                    sumRunning (user_work tx) u < sumRunning (user_work tx) u'
                    \/ (sumRunning (user_work tx) u = sumRunning (user_work tx) u'
                        /\ maxLastWorked (user_work tx) u <= maxLastWorked (user_work tx) u')
  | Returned None => forall u', ~ hasReadyRow (user_work tx) serviceID u'
  | Threw _ => False
  end.
Proof.
  unfold getNextUsernameForWork.
  destruct (first (orderBy rcThenLw (groupByUsername (user_work tx) serviceID)))
    as [g |] eqn:E; simpl.
  - apply (first_orderBy_least rcThenLw rcThenLw_total rcThenLw_trans) in E as [Hin Hmin].
    apply groupByUsername_In in Hin as [u [Hu ->]]. simpl. split; [exact Hu |].
    intros u' Hu'.
    specialize (Hmin {| g_username := u'; lw := maxLastWorked (user_work tx) u';
                        rc := sumRunning (user_work tx) u' |}).
    apply rcThenLw_iff in Hmin; [exact Hmin |].
    apply groupByUsername_In. exists u'. split; [exact Hu' | reflexivity].
  - apply first_orderBy_none in E. intros u' Hu'.
    assert (Hin : In {| g_username := u'; lw := maxLastWorked (user_work tx) u';
                        rc := sumRunning (user_work tx) u' |}
                     (groupByUsername (user_work tx) serviceID)).
    { apply groupByUsername_In. exists u'. split; [exact Hu' | reflexivity]. }
    rewrite E in Hin. destruct Hin.
Qed.

(** Scenario S4 of the specification: with equal running sums the user
    worked longer ago is chosen. *)
Example next_user_S4 : getNextUsernameForWork s4Store "s" = Returned (Some "userB").
Proof. reflexivity. Qed.

(** ** The next job of a user *)

(** X3.  When [getNextJobIdForUsernameAndService] returns a job, some
    ready row of the user for the service belongs to that job and no
    ready row of the user for the service was worked earlier. *)
Lemma getNextJobId_oldest_ready (tx : Store) (serviceID username : string) :
  match getNextJobIdForUsernameAndService tx serviceID username with
  | Returned job =>
      exists row,
        In row (user_work tx) /\ readyRowFor serviceID username row
        /\ UserWork.job_id row = job
        /\ forall r, In r (user_work tx) -> readyRowFor serviceID username r ->
                      UserWork.last_worked row <= UserWork.last_worked r
  | Threw _ => forall r, In r (user_work tx) -> ~ readyRowFor serviceID username r
  end.
Proof.
  unfold getNextJobIdForUsernameAndService.
  set (rows := filter _ (user_work tx)).
  assert (Hrows : forall r, In r rows <-> In r (user_work tx) /\ readyRowFor serviceID username r).
  { intros r. unfold rows, readyRowFor. rewrite filter_In, !andb_true_iff.
    rewrite !String.eqb_eq, Z.ltb_lt. tauto. }
  destruct (first (orderBy byLastWorked rows)) as [row |] eqn:E.
  - apply (first_orderBy_least byLastWorked byLastWorked_total byLastWorked_trans)
      in E as [Hin Hmin].
    apply Hrows in Hin as [Hin Hr]. exists row. repeat split; try assumption; try apply Hr.
    intros r Hr1 Hr2. apply Z.leb_le. apply (Hmin r). apply Hrows. split; assumption.
  - apply first_orderBy_none in E. intros r Hin Hr.
    assert (Hr' : In r rows) by (apply Hrows; split; assumption).
    rewrite E in Hr'. destruct Hr'.
Qed.

(** C10.  [getNextJobIdForUsernameAndService] throws a TypeError exactly
    when no row of the user for the service has [ready_count > 0], and
    otherwise returns the job of such a row; [getNextUsernameForWork]
    never throws and returns [undefined] exactly when no row for the
    service has [ready_count > 0]. *)
Theorem getNextJobId_throws_when_nothing_ready (tx : Store) (serviceID username : string) :
  ((exists message,
      getNextJobIdForUsernameAndService tx serviceID username = Threw (TypeError message))
   <-> forall r, In r (user_work tx) -> ~ readyRowFor serviceID username r)
  /\ ((exists job, getNextJobIdForUsernameAndService tx serviceID username = Returned job)
      <-> exists r, In r (user_work tx) /\ readyRowFor serviceID username r)
  /\ (getNextUsernameForWork tx serviceID = Returned None
      <-> forall u r, In r (user_work tx) -> ~ readyRowFor serviceID u r).
Proof.
  unfold getNextJobIdForUsernameAndService.
  set (rows := filter _ (user_work tx)).
  assert (Hrows : forall r, In r rows <-> In r (user_work tx) /\ readyRowFor serviceID username r).
  { intros r. unfold rows, readyRowFor. rewrite filter_In, !andb_true_iff.
    rewrite !String.eqb_eq, Z.ltb_lt. tauto. }
  split; [| split].
  - destruct (first (orderBy byLastWorked rows)) as [row |] eqn:E; split.
    + intros [message H]. discriminate.
    + intros H. exfalso.
      apply (first_orderBy_least byLastWorked byLastWorked_total byLastWorked_trans)
        in E as [Hin _].
      apply Hrows in Hin as [Hin Hr]. exact (H row Hin Hr).
    + intros _ r Hin Hr. apply first_orderBy_none in E.
      assert (Hr' : In r rows) by (apply Hrows; split; assumption).
      rewrite E in Hr'. destruct Hr'.
    + intros _. eexists. reflexivity.
  - destruct (first (orderBy byLastWorked rows)) as [row |] eqn:E; split.
    + intros _.
      apply (first_orderBy_least byLastWorked byLastWorked_total byLastWorked_trans)
        in E as [Hin _].
      exists row. apply Hrows. exact Hin.
    + intros _. eexists. reflexivity.
    + intros [job H]. discriminate.
    + intros [r Hr]. apply first_orderBy_none in E. apply Hrows in Hr.
      rewrite E in Hr. destruct Hr.
  - rewrite getNextUsernameForWork_undefined. unfold hasReadyRow. split.
    + intros H u r Hin Hr. apply (H u). exists r. split; assumption.
    + intros H u [r [Hin Hr]]. exact (H u r Hin Hr).
Qed.

(** ** Pausing a job *)

Lemma bind_returned {S A B : Type} (m : Eff S A) (k : A -> Eff S B) (s s' : S) (a : A) :
  m s = (Returned a, s') -> bind m k s = k a s'.
Proof. intros H. unfold bind. rewrite H. reflexivity. Qed.

Lemma bind_threw {S A B : Type} (m : Eff S A) (k : A -> Eff S B) (s s' : S) (e : Exn) :
  m s = (Threw e, s') -> bind m k s = (Threw e, s').
Proof. intros H. unfold bind. rewrite H. reflexivity. Qed.

Lemma keeps_bind {S A B : Type} (R : S -> S -> Prop) (m : Eff S A) (k : A -> Eff S B) :
  (forall x y z, R x y -> R y z -> R x z) ->
  keeps R m -> (forall a, keeps R (k a)) -> keeps R (bind m k).
Proof.
  intros Htrans Hm Hk s. unfold bind. specialize (Hm s).
  destruct (m s) as [[a | e] s']; simpl in *; [| exact Hm].
  apply (Htrans _ _ _ Hm). apply Hk.
Qed.

Lemma sameQueueAndJob_trans (x y z : World) :
  sameQueueAndJob x y -> sameQueueAndJob y z -> sameQueueAndJob x z.
Proof. unfold sameQueueAndJob. intros [H1 H2] [H3 H4]. split; congruence. Qed.

Lemma keeps_onThis {A : Type} (m : Eff Job A) :
  (forall this, jobID (snd (m this)) = jobID this) ->
  keeps sameQueueAndJob (onThis m).
Proof.
  intros H [this db]. unfold onThis, sameQueueAndJob. simpl.
  specialize (H this). destruct (m this) as [r this']. simpl in *. auto.
Qed.

Lemma setMessage_jobID (message : option string) (forStatus : JobStatus) (this : Job) :
  jobID (snd (setMessage message forStatus this)) = jobID this.
Proof.
  unfold setMessage. destruct message as [m |]; [| reflexivity].
  destruct (truthy (Some m)); reflexivity.
Qed.

Lemma validateStatus_unchanged (this : Job) : snd (validateStatus this) = this.
Proof.
  unfold validateStatus, bind, get.
  destruct (includesStatus terminalStates (originalStatus this)); reflexivity.
Qed.

Lemma saveLinks_user_work (ls : list JobLink) (db : Store) :
  user_work (snd (saveLinks ls db)) = user_work db.
Proof.
  revert db. induction ls as [| link rest IH]; intros db; simpl; [reflexivity |].
  destruct (hasNoId link).
  - specialize (IH (insert_link (with_link_id (next_id db) link) db)).
    destruct (saveLinks rest _) as [rest' db']. simpl in *. exact IH.
  - specialize (IH db). destruct (saveLinks rest db) as [rest' db']. simpl in *. exact IH.
Qed.

Lemma DBRecord_save_keeps : keeps sameQueueAndJob DBRecord_save.
Proof.
  intros [this db]. unfold DBRecord_save, sameQueueAndJob.
  destruct (validate this); [split; reflexivity |].
  destruct (recordId this), (createdAt this); split; reflexivity.
Qed.

(** [save] never touches [user_work] and never changes the job's id. *)
Lemma save_keeps : keeps sameQueueAndJob save.
Proof.
  unfold save.
  repeat (apply keeps_bind; [exact sameQueueAndJob_trans | | intros ?]).
  - apply keeps_onThis. intros this. now rewrite validateStatus_unchanged.
  - apply keeps_onThis. reflexivity.
  - apply keeps_onThis. apply setMessage_jobID.
  - apply keeps_onThis. reflexivity.
  - apply DBRecord_save_keeps.
  - intros [this db]. unfold sameQueueAndJob. simpl.
    pose proof (saveLinks_user_work (links this) db) as H.
    destruct (saveLinks (links this) db) as [ls db']. simpl in *. auto.
  - apply keeps_onThis. reflexivity.
  - intros [this db]. split; reflexivity.
Qed.

(** C7.  When [pauseAndSave] returns, the [user_work] table is the one
    from before the call with [ready_count] set to 0 in every row of the
    job and nothing else changed: the rows of the job keep their other
    columns, [running_count] among them, and the rows of other jobs are
    as they were.  It returns only from a state that permits PAUSE; when
    it throws, the table is untouched. *)
Theorem pauseAndSave_zeroes_ready_counts (this : Job) (db : Store) :
  match pauseAndSave (this, db) with
  | (Returned _, (this', db')) =>
      canTransition (status this) PAUSED PAUSE = true
      /\ user_work db' = map (zeroReadyOf (jobID this)) (user_work db)
      /\ Forall2 (fun r r' =>
                    UserWork.running_count r' = UserWork.running_count r
                    /\ (UserWork.job_id r = jobID this -> UserWork.ready_count r' = 0)
                    /\ (UserWork.job_id r <> jobID this -> r' = r))
                 (user_work db) (user_work db')
  | (Threw _, (_, db')) => user_work db' = user_work db
  end.
Proof.
  unfold pauseAndSave.
  rewrite (bind_returned _ _ (this, db) (this, db) this) by reflexivity.
  destruct (canTransition (status this) PAUSED PAUSE) eqn:Ecan.
  - rewrite (bind_returned _ _ (this, db) (this, db) tt)
      by (unfold onThis; simpl;
          rewrite (validateTransition_allowed _ _ _ _ _ _ Ecan); reflexivity).
    rewrite (bind_returned _ _ (this, db) (this, db) this) by reflexivity.
    destruct (updateStatus_returns PAUSED (Some (getMessage this PAUSED)) this)
      as [this1 [Hup [_ [Hid _]]]].
    rewrite (bind_returned _ _ (this, db) (this1, db) tt)
      by (unfold onThis; simpl; rewrite Hup; reflexivity).
    pose proof (save_keeps (this1, db)) as [Huw Hjob].
    destruct (save (this1, db)) as [[[] | e] [this2 db2]] eqn:Esave; simpl in Huw, Hjob.
    + rewrite (bind_returned _ _ (this1, db) (this2, db2) tt) by exact Esave.
      rewrite (bind_returned _ _ (this2, db2) (this2, db2) this2) by reflexivity.
      unfold onDb, setReadyCountToZero, modify. simpl.
      split; [reflexivity |].
      assert (Hmap : map (fun r => if String.eqb (UserWork.job_id r) (jobID this2)
                                   then UserWork.set_ready_count 0 r else r)
                         (user_work db2)
                     = map (zeroReadyOf (jobID this)) (user_work db)).
      { rewrite Huw, Hjob, Hid. reflexivity. }
      rewrite Hmap. split; [reflexivity |].
      clear. induction (user_work db) as [| r rows IH]; simpl; constructor; [| exact IH].
      unfold zeroReadyOf. destruct (String.eqb (UserWork.job_id r) (jobID this)) eqn:E.
      * simpl. apply String.eqb_eq in E. repeat split. intros Hne. contradiction.
      * apply String.eqb_neq in E. repeat split. intros He. contradiction.
    + rewrite (bind_threw _ _ (this1, db) (this2, db2) e) by exact Esave.
      exact Huw.
  - rewrite (bind_threw _ _ (this, db) (this, db)
               (ConflictError (defaultTransitionMessage (status this) PAUSED))).
    + reflexivity.
    + unfold onThis. simpl.
      rewrite (validateTransition_refused _ _ _ _ None this Ecan). reflexivity.
Qed.

Lemma pauseAndSave_zeroes_ready_counts_witness :
  fst (pauseAndSave (loadedJob RUNNING 40, queueStore)) = Returned tt
  /\ map UserWork.ready_count
         (user_work (snd (snd (pauseAndSave (loadedJob RUNNING 40, queueStore)))))
     = [0; 3; 0]
  /\ map UserWork.running_count
         (user_work (snd (snd (pauseAndSave (loadedJob RUNNING 40, queueStore)))))
     = [2; 1; 0].
Proof.
  pose proof (pauseAndSave_zeroes_ready_counts (loadedJob RUNNING 40) queueStore) as H.
  destruct (pauseAndSave (loadedJob RUNNING 40, queueStore))
    as [[[] | e] [this' db']] eqn:E.
  - destruct H as [_ [Huw _]]. simpl. rewrite Huw. repeat split.
  - vm_compute in E. discriminate E.
Defined.

(** ** The reaper *)

Module ReaperProofs.

Import WorkReaper.

Lemma parentJobIsReapable_reapable (tx : Store) (env : Env) (job : string) :
  parentJobIsReapable tx (reapableWorkAgeMinutes env) reapedStatuses job = true
  <-> reapable tx env job.
Proof.
  unfold parentJobIsReapable, reapable. rewrite existsb_exists. split.
  - intros [j [Hin H]]. apply andb_true_iff in H as [H Ht].
    apply andb_true_iff in H as [Hj Hs].
    exists j. split; [exact Hin |]. split; [apply String.eqb_eq; exact Hj |].
    split; [apply includesStatus_In; exact Hs | apply Z.ltb_lt; exact Ht].
  - intros [j [Hin [Hj [Hs Ht]]]]. exists j. split; [exact Hin |].
    rewrite !andb_true_iff. split; [split |].
    + apply String.eqb_eq. exact Hj.
    + apply includesStatus_In. exact Hs.
    + apply Z.ltb_lt. exact Ht.
Qed.

Section DeleteById.

Context {A : Type} (key : A -> Z) (selected : A -> bool) (rows : list A).

Lemma inIds_In (ids : list Z) (id : Z) : inIds ids id = true <-> In id ids.
Proof.
  unfold inIds. rewrite existsb_exists. split.
  - intros [x [Hin Hx]]. apply Z.eqb_eq in Hx. now subst.
  - intros Hin. exists id. split; [exact Hin | apply Z.eqb_refl].
Qed.

(** Deleting the selected rows by their keys removes no other row, when
    keys are unique. *)
Lemma unselected_survives (r : A) :
  NoDup (map key rows) ->
  In r rows -> selected r = false ->
  In r (filter (fun x => negb (inIds (map key (filter selected rows)) (key x))) rows).
Proof.
  intros Hnd Hin Hsel. apply filter_In. split; [exact Hin |].
  apply negb_true_iff. destruct (inIds _ (key r)) eqn:E; [| reflexivity].
  apply inIds_In, in_map_iff in E as [r' [Hk Hr']].
  apply filter_In in Hr' as [Hin' Hsel'].
  assert (r' = r); [| congruence].
  clear Hsel Hsel'. induction rows as [| x l IH]; [destruct Hin |].
  simpl in Hnd. inversion Hnd as [| ? ? Hnotin Hnd']; subst.
  destruct Hin as [-> | Hin], Hin' as [-> | Hin']; try reflexivity.
  - exfalso. apply Hnotin. rewrite <- Hk. apply in_map. exact Hin'.
  - exfalso. apply Hnotin. rewrite Hk. apply in_map. exact Hin.
  - apply IH; assumption.
Qed.

(** What is left after the deletion is not selected. *)
Lemma survivor_unselected (r : A) :
  In r (filter (fun x => negb (inIds (map key (filter selected rows)) (key x))) rows) ->
  selected r = false.
Proof.
  intros H. apply filter_In in H as [Hin H]. apply negb_true_iff in H.
  destruct (selected r) eqn:E; [| reflexivity].
  assert (Hk : inIds (map key (filter selected rows)) (key r) = true).
  { apply inIds_In, in_map, filter_In. split; assumption. }
  congruence.
Qed.

(** When the query finds no key, no row is selected. *)
Lemma nothing_selected (r : A) :
  negb (Nat.eqb (List.length (map key (filter selected rows))) 0) = false ->
  In r rows -> selected r = false.
Proof.
  intros H Hin. apply negb_false_iff, Nat.eqb_eq in H.
  rewrite length_map in H. apply length_zero_iff_nil in H.
  destruct (selected r) eqn:E; [| reflexivity].
  assert (Hr : In r (filter selected rows)) by (apply filter_In; split; assumption).
  rewrite H in Hr. destruct Hr.
Qed.

End DeleteById.

(** [deleteTerminalWork] returns normally whatever the database calls do. *)
Lemma deleteTerminalWork_returns (minutes : Z) (statuses : list JobStatus) (w : World) :
  fst (deleteTerminalWork minutes statuses w) = Returned tt.
Proof.
  unfold deleteTerminalWork, try_catch, bind, dbCall, log, modify.
  repeat match goal with
         | |- context [match ?fs with [] => _ | _ :: _ => _ end] =>
             destruct fs as [| [|] ?]; simpl
         | |- context [if negb (Nat.eqb ?n 0) then _ else _] =>
             destruct (negb (Nat.eqb n 0)); simpl
         end; reflexivity.
Qed.

Lemma tick_returns (env : Env) (w : World) : fst (tick env w) = Returned tt.
Proof.
  unfold tick, bind, sleep, log, modify. simpl.
  match goal with
  | |- context [deleteTerminalWork ?m ?sts ?w'] =>
      pose proof (deleteTerminalWork_returns m sts w') as H;
      destruct (deleteTerminalWork m sts w') as [[[] | e] w'']; simpl in H;
      [reflexivity | discriminate]
  end.
Qed.

Lemma ticks_return (env : Env) (n : nat) (w : World) : fst (ticks env n w) = Returned tt.
Proof.
  revert w. induction n as [| n IH]; intros w; simpl; [reflexivity |].
  unfold bind. pose proof (tick_returns env w) as H.
  destruct (tick env w) as [[[] | e] w']; simpl in H; [apply IH | discriminate].
Qed.

(** Case analysis over the fault script and over the two emptiness tests
    of [deleteTerminalWork]. *)
Ltac reaper_cases :=
  repeat match goal with
         | |- context [match ?fs with [] => _ | _ :: _ => _ end] =>
             destruct fs as [| [|] ?]; simpl
         | |- context [if negb (Nat.eqb ?n 0) then _ else _] =>
             destruct (negb (Nat.eqb n 0)) eqn:?; simpl
         end.

(** A row that is not selected is still there. *)
Ltac reaper_survives HPi HPs Hnd1 Hnd2 :=
  let x := fresh "x" in
  let Hin := fresh "Hin" in
  let Hnr := fresh "Hnr" in
  intros x Hin Hnr;
  first [ exact Hin
        | apply HPi in Hnr;
          exact (unselected_survives WorkItem.row_id _ _ x Hnd1 Hin Hnr)
        | apply HPs in Hnr;
          exact (unselected_survives WorkflowStep.row_id _ _ x Hnd2 Hin Hnr) ].

(** A row that is still there is not selected. *)
Ltac reaper_gone HPi HPs :=
  let x := fresh "x" in
  let Hx := fresh "Hx" in
  intros x Hx;
  first [ apply HPi;
          first [ exact (survivor_unselected WorkItem.row_id _ _ x Hx)
                | match goal with
                  | E : negb (Nat.eqb _ 0) = false |- _ =>
                      exact (nothing_selected WorkItem.row_id _ _ x E Hx)
                  end ]
        | apply HPs;
          first [ exact (survivor_unselected WorkflowStep.row_id _ _ x Hx)
                | match goal with
                  | E : negb (Nat.eqb _ 0) = false |- _ =>
                      exact (nothing_selected WorkflowStep.row_id _ _ x E Hx)
                  end ] ].

(** The flags taken end with one that fails the call. *)
Ltac reaper_raised :=
  first [ exists (@nil bool); eexists; repeat split; reflexivity
        | exists [false]; eexists; repeat split; reflexivity
        | exists [false; false]; eexists; repeat split; reflexivity
        | exists [false; false; false]; eexists; repeat split; reflexivity ].

(** Flags that all let the call through end with no failure. *)
Lemma no_error_raised (consumed l : list bool) :
  forallb negb consumed = true ->
  ~ (exists used rest,
       (consumed ++ l)%list = (used ++ true :: rest)%list
       /\ l = rest /\ forallb negb used = true).
Proof.
  intros Hc [used [rest [Heq [<- Hu]]]].
  change (used ++ true :: l)%list with (used ++ [true] ++ l)%list in Heq.
  rewrite app_assoc in Heq. apply app_inv_tail in Heq. subst consumed.
  rewrite forallb_app in Hc. simpl in Hc. rewrite andb_false_r in Hc. discriminate.
Qed.

(** No flag taken fails the call. *)
Ltac reaper_not_raised H :=
  first [ exact (no_error_raised [] _ eq_refl H)
        | exact (no_error_raised [false] _ eq_refl H)
        | exact (no_error_raised [false; false] _ eq_refl H)
        | exact (no_error_raised [false; false; false] _ eq_refl H)
        | exact (no_error_raised [false; false; false; false] _ eq_refl H) ].

(** C8.  One run of [deleteTerminalWork] with the statuses and the age
    the reaper loop passes, whatever database calls fail: it returns
    normally; it leaves the jobs table alone and adds nothing; a work item
    or workflow step survives unless its job is failed, successful or
    canceled and was last updated before the threshold, so rows of a job
    in any other status, or of a younger job, are untouched; when no call
    fails nothing of a reapable job is left; and when a call fails the
    error is caught and logged.  Every iteration of the loop returns
    normally as well, so the loop goes on. *)
Theorem deleteTerminalWork_reaps_only_terminal_idle (env : Env) (w : World) (n : nat) :
  NoDup (map WorkItem.row_id (work_items (db w))) ->
  NoDup (map WorkflowStep.row_id (workflow_steps (db w))) ->
  let run := deleteTerminalWork (reapableWorkAgeMinutes env) reapedStatuses w in
  let complete :=
    (forall i, In i (work_items (db (snd run))) -> ~ reapable (db w) env (WorkItem.jobID i))
    /\ (forall s, In s (workflow_steps (db (snd run))) ->
                  ~ reapable (db w) env (WorkflowStep.jobID s)) in
  fst run = Returned tt
  /\ jobs (db (snd run)) = jobs (db w)
  /\ (forall i, In i (work_items (db (snd run))) -> In i (work_items (db w)))
  /\ (forall s, In s (workflow_steps (db (snd run))) -> In s (workflow_steps (db w)))
  /\ (forall i, In i (work_items (db w)) -> ~ reapable (db w) env (WorkItem.jobID i) ->
                In i (work_items (db (snd run))))
  /\ (forall s, In s (workflow_steps (db w)) ->
                ~ reapable (db w) env (WorkflowStep.jobID s) ->
                In s (workflow_steps (db (snd run))))
  /\ (noFaultAhead w = true -> complete)
  /\ (complete \/ raisedError w (snd run))
  /\ (raisedError w (snd run) -> loggedError (snd run))
  /\ fst (ticks env n w) = Returned tt.
Proof.
  intros Hnd1 Hnd2 run complete. subst complete run.
  set (Pi := fun i => parentJobIsReapable (db w) (reapableWorkAgeMinutes env)
                        reapedStatuses (WorkItem.jobID i)).
  set (Ps := fun s => parentJobIsReapable (db w) (reapableWorkAgeMinutes env)
                        reapedStatuses (WorkflowStep.jobID s)).
  assert (HPi : forall i, ~ reapable (db w) env (WorkItem.jobID i) <-> Pi i = false).
  { intros i. unfold Pi. rewrite <- parentJobIsReapable_reapable.
    destruct (parentJobIsReapable _ _ _ _); split; congruence. }
  assert (HPs : forall s, ~ reapable (db w) env (WorkflowStep.jobID s) <-> Ps s = false).
  { intros s. unfold Ps. rewrite <- parentJobIsReapable_reapable.
    destruct (parentJobIsReapable _ _ _ _); split; congruence. }
  assert (Hticks : fst (ticks env n w) = Returned tt) by apply ticks_return.
  revert Hticks. generalize (fst (ticks env n w)). intros ticked Hticks.
  destruct w as [running lg D fs]. simpl in *.
  unfold deleteTerminalWork, try_catch, bind, dbCall, log, modify, noFaultAhead, loggedError,
    raisedError,
    getWorkItemIdsByJobUpdateAgeAndStatus, getWorkflowStepIdsByJobUpdateAgeAndStatus,
    deleteWorkItemsById, deleteWorkflowStepsById.
  simpl.
  reaper_cases.
  all: repeat match goal with |- _ /\ _ => split end; try reflexivity; try assumption.
  all: try (intros x Hx; try (apply filter_In in Hx as [Hx _]); exact Hx).
  all: try (reaper_survives HPi HPs Hnd1 Hnd2).
  all: try (intros Hnf; try discriminate Hnf; split; reaper_gone HPi HPs).
  all: try solve [left; split; reaper_gone HPi HPs].
  all: try (right; reaper_raised).
  all: intros Hraised;
    first [ match goal with
            | |- exists before e, ((?A ++ [error ?m]) ++ [errorExn ?x])%list = _ =>
                exists A, x; rewrite <- app_assoc; reflexivity
            end
          | exfalso; reaper_not_raised Hraised ].
Qed.

Lemma deleteTerminalWork_reaps_only_terminal_idle_witness :
  In (s6Item "busy" 2)
     (work_items (db (snd (deleteTerminalWork 60 reapedStatuses s6World))))
  /\ ~ In (s6Item "done" 1)
          (work_items (db (snd (deleteTerminalWork 60 reapedStatuses s6World))))
  /\ In (s6Step "busy" 2)
        (workflow_steps (db (snd (deleteTerminalWork 60 reapedStatuses s6World)))).
Proof.
  assert (Hnd1 : NoDup (map WorkItem.row_id (work_items (db s6World)))).
  { simpl. repeat constructor; simpl; intuition discriminate. }
  assert (Hnd2 : NoDup (map WorkflowStep.row_id (workflow_steps (db s6World)))).
  { simpl. repeat constructor; simpl; intuition discriminate. }
  destruct (deleteTerminalWork_reaps_only_terminal_idle s6Env s6World 1 Hnd1 Hnd2)
    as [_ [_ [_ [_ [Hitems [Hsteps [Hcomplete _]]]]]]].
  assert (Hbusy : ~ reapable (db s6World) s6Env "busy").
  { intros [j [Hin [Hj [Hs _]]]]. simpl in Hin.
    destruct Hin as [<- | [<- | []]]; simpl in Hj, Hs; [discriminate |].
    destruct Hs as [Hs | [Hs | [Hs | []]]]; discriminate. }
  split; [| split].
  - apply Hitems; [simpl; tauto | exact Hbusy].
  - intros Hin. destruct (Hcomplete eq_refl) as [Hgone _].
    apply (Hgone _ Hin). exists (s6Job "done" SUCCESSFUL 1).
    simpl. repeat split; try tauto; try lia.
  - apply Hsteps; [simpl; tauto | exact Hbusy].
Defined.

End ReaperProofs.

(** ** The granule query loop *)

Module QueryCmrProofs.

Import QueryCmr.

(** C9.  For every token, source, query location, page size and
    [maxPages], [querySource] runs the body of its loop exactly once:
    one granule query is issued, [page] is 1 and [done] is true when it
    returns, since [++page < maxPages || true] is true whatever
    [maxPages] is.  One iteration is all the loop needs, and without one
    it has not ended. *)
Theorem querySource_single_page (Granule CmrQuery : Type)
  (cmrQueryGranules : string -> CmrQuery -> string -> Z -> list Granule)
  (readQuery : string -> CmrQuery)
  (fuel : nat) (token : string) (source : DataSource) (queryLocation : string)
  (pageSize maxPages : Z) (filePrefix : string) :
  querySource Granule CmrQuery cmrQueryGranules readQuery (S fuel)
    token source queryLocation pageSize maxPages filePrefix
  = Some {| result :=
              map (fun g => (g, filePrefix))
                  (cmrQueryGranules (collection source) (readQuery queryLocation)
                     token pageSize);
            page := 1;
            done := true;
            issued := [(collection source, token, pageSize)] |}
  /\ querySource Granule CmrQuery cmrQueryGranules readQuery 0
       token source queryLocation pageSize maxPages filePrefix
     = None.
Proof.
  split; [| reflexivity].
  unfold querySource. simpl. unfold loopBody. simpl.
  destruct (1 <? maxPages); destruct fuel; reflexivity.
Qed.

End QueryCmrProofs.

(** ** The counter operations of the queue *)

Lemma addToCounts_back (a b : Z) (r : UserWork.t) :
  addToCounts (- a) (- b) (addToCounts a b r) = r.
Proof. destruct r. unfold addToCounts. simpl. f_equal; lia. Qed.

Lemma updateUserWork_twice (matching : UserWork.t -> bool)
  (f g : UserWork.t -> UserWork.t) (tx : Store) :
  (forall r, matching (f r) = matching r) ->
  (forall r, g (f r) = r) ->
  snd (updateUserWork matching g (snd (updateUserWork matching f tx))) = tx.
Proof.
  intros Hm Hgf. destruct tx. unfold updateUserWork, modify, with_user_work. simpl.
  f_equal. rewrite map_map. rewrite <- (map_id user_work0) at 2.
  apply map_ext. intros r. destruct (matching r) eqn:E.
  - rewrite Hm, E. apply Hgf.
  - rewrite E. reflexivity.
Qed.

Lemma updateUserWork_shifts (jobID serviceID : string) (a b : Z) (tx : Store) :
  countsShifted jobID serviceID a b (user_work tx)
    (user_work (snd (updateUserWork (forJobAndService jobID serviceID) (addToCounts a b) tx))).
Proof.
  unfold updateUserWork, modify, with_user_work, countsShifted. simpl.
  induction (user_work tx) as [| r rows IH]; simpl; constructor; [| exact IH].
  destruct (forJobAndService jobID serviceID r) eqn:E.
  - unfold sameRowIdentity. simpl. repeat split. discriminate.
  - unfold sameRowIdentity. repeat split; discriminate.
Qed.

Lemma updateUserWork_nothing (matching : UserWork.t -> bool) (f : UserWork.t -> UserWork.t)
  (tx : Store) :
  (forall r, In r (user_work tx) -> matching r = false) ->
  updateUserWork matching f tx = (Returned tt, tx).
Proof.
  intros H. destruct tx. unfold updateUserWork, modify, with_user_work. simpl in *.
  f_equal. f_equal. rewrite <- (map_id user_work0) at 2.
  apply map_ext_in. intros r Hin. rewrite (H r Hin). reflexivity.
Qed.

(** X4.  Handing a work item out and taking it back cancel:
    [incrementRunningAndDecrementReadyCounts] followed by
    [incrementReadyAndDecrementRunningCounts] for the same job and
    service, or the two in the other order, leave the database exactly as
    it was. *)
Theorem running_and_ready_moves_cancel (jobID serviceID : string) (tx : Store) :
  snd (incrementReadyAndDecrementRunningCounts jobID serviceID
         (snd (incrementRunningAndDecrementReadyCounts jobID serviceID tx))) = tx
  /\ snd (incrementRunningAndDecrementReadyCounts jobID serviceID
            (snd (incrementReadyAndDecrementRunningCounts jobID serviceID tx))) = tx.
Proof.
  unfold incrementReadyAndDecrementRunningCounts, incrementRunningAndDecrementReadyCounts.
  split; apply updateUserWork_twice; try reflexivity; intros r.
  - exact (addToCounts_back (-1) 1 r).
  - exact (addToCounts_back 1 (-1) r).
Qed.

(** X5.  Each of the four counter updates changes only the two counters
    of the rows of the given job and service, by exactly its amounts and
    without a floor at zero, and leaves every other row and every other
    column alone; the two moves between ready and running keep the sum of
    the two counters of every row. *)
Theorem counter_updates_shift_counts (jobID serviceID : string) (n : option Z) (tx : Store) :
  countsShifted jobID serviceID (match n with Some k => k | None => 1 end) 0
    (user_work tx) (user_work (snd (incrementReadyCount jobID serviceID n tx)))
  /\ countsShifted jobID serviceID (-1) 1
       (user_work tx)
       (user_work (snd (incrementRunningAndDecrementReadyCounts jobID serviceID tx)))
  /\ countsShifted jobID serviceID 1 (-1)
       (user_work tx)
       (user_work (snd (incrementReadyAndDecrementRunningCounts jobID serviceID tx)))
  /\ countsShifted jobID serviceID 0 (-1)
       (user_work tx) (user_work (snd (decrementRunningCount jobID serviceID tx)))
  /\ Forall2 (fun r r' =>
                UserWork.ready_count r' + UserWork.running_count r'
                = UserWork.ready_count r + UserWork.running_count r)
             (user_work tx)
             (user_work (snd (incrementRunningAndDecrementReadyCounts jobID serviceID tx)))
  /\ Forall2 (fun r r' =>
                UserWork.ready_count r' + UserWork.running_count r'
                = UserWork.ready_count r + UserWork.running_count r)
             (user_work tx)
             (user_work (snd (incrementReadyAndDecrementRunningCounts jobID serviceID tx))).
Proof.
  repeat split; try apply updateUserWork_shifts.
  - eapply Forall2_impl; [| apply (updateUserWork_shifts jobID serviceID (-1) 1 tx)].
    intros r r' [_ [Hm Hn]]. destruct (forJobAndService jobID serviceID r).
    + destruct (Hm eq_refl). lia.
    + rewrite (Hn eq_refl). reflexivity.
  - eapply Forall2_impl; [| apply (updateUserWork_shifts jobID serviceID 1 (-1) tx)].
    intros r r' [_ [Hm Hn]]. destruct (forJobAndService jobID serviceID r).
    + destruct (Hm eq_refl). lia.
    + rewrite (Hn eq_refl). reflexivity.
Qed.

(** X6.  When the table has no row for the job and service, each of the
    four counter updates returns normally and changes nothing: no row is
    created and no error is raised. *)
Theorem counter_updates_without_row (jobID serviceID : string) (n : option Z) (tx : Store) :
  (forall r, In r (user_work tx) -> forJobAndService jobID serviceID r = false) ->
  incrementReadyCount jobID serviceID n tx = (Returned tt, tx)
  /\ incrementRunningAndDecrementReadyCounts jobID serviceID tx = (Returned tt, tx)
  /\ incrementReadyAndDecrementRunningCounts jobID serviceID tx = (Returned tt, tx)
  /\ decrementRunningCount jobID serviceID tx = (Returned tt, tx).
Proof.
  intros H. repeat split; apply updateUserWork_nothing; exact H.
Qed.

Lemma counter_updates_without_row_witness :
  incrementReadyCount "job-z" "s" (Some 5) s4Store = (Returned tt, s4Store)
  /\ incrementRunningAndDecrementReadyCounts "job-z" "s" s4Store = (Returned tt, s4Store)
  /\ incrementReadyAndDecrementRunningCounts "job-z" "s" s4Store = (Returned tt, s4Store)
  /\ decrementRunningCount "job-z" "s" s4Store = (Returned tt, s4Store).
Proof.
  apply (counter_updates_without_row "job-z" "s" (Some 5) s4Store).
  intros r Hin. simpl in Hin. destruct Hin as [<- | [<- | []]]; reflexivity.
Defined.

(** ** Deleting rows and dispatching *)

Lemma readyRowForb_true (serviceID username : string) (r : UserWork.t) :
  readyRowForb serviceID username r = true <-> readyRowFor serviceID username r.
Proof.
  unfold readyRowForb, readyRowFor.
  rewrite !andb_true_iff, !String.eqb_eq, Z.ltb_lt. tauto.
Qed.

Lemma getNextJobId_by_rows (tx : Store) (serviceID username : string) :
  getNextJobIdForUsernameAndService tx serviceID username
  = match first (orderBy byLastWorked
                   (filter (readyRowForb serviceID username) (user_work tx))) with
    | Some row => Returned (UserWork.job_id row)
    | None => Threw (TypeError "Cannot read properties of undefined (reading 'job_id')")
    end.
Proof. reflexivity. Qed.

Lemma filter_filter_andb {A : Type} (p q : A -> bool) (l : list A) :
  filter p (filter q l) = filter (fun x => p x && q x) l.
Proof.
  induction l as [| x l IH]; simpl; [reflexivity |].
  destruct (q x); simpl.
  - rewrite andb_true_r. destruct (p x); rewrite IH; reflexivity.
  - rewrite andb_false_r. exact IH.
Qed.


(** The dispatcher on a table whose ready rows are those of [table] that
    do not belong to the job. *)
Lemma dispatch_without_job (job : string) (tx tx' : Store) (serviceID username : string) :
  filter (readyRowForb serviceID username) (user_work tx')
  = filter (fun r => readyRowForb serviceID username r && negb (forJob job r)) (user_work tx) ->
  dispatchSkips job (user_work tx) serviceID username
    (getNextJobIdForUsernameAndService tx' serviceID username).
Proof.
  intros Hrows. rewrite getNextJobId_by_rows, Hrows. unfold dispatchSkips.
  set (rows := filter _ (user_work tx)).
  assert (Hin : forall r, In r rows <-> In r (user_work tx)
                                       /\ readyRowFor serviceID username r
                                       /\ UserWork.job_id r <> job).
  { intros r. unfold rows. rewrite filter_In, andb_true_iff, readyRowForb_true.
    unfold forJob. rewrite negb_true_iff, String.eqb_neq. tauto. }
  destruct (first (orderBy byLastWorked rows)) as [row |] eqn:E.
  - apply (first_orderBy_least byLastWorked byLastWorked_total byLastWorked_trans)
      in E as [Hrow _].
    apply Hin in Hrow as [H1 [H2 H3]]. split; [exact H3 |]. exists row. auto.
  - apply first_orderBy_none in E. intros r Hr Hready.
    destruct (string_dec (UserWork.job_id r) job) as [Heq | Hne]; [exact Heq |].
    assert (Hr' : In r rows) by (apply Hin; auto).
    rewrite E in Hr'. destruct Hr'.
Qed.


(** X8.  [deleteUserWorkForJob] returns the number of rows of the job,
    leaves exactly the rows of other jobs, and after it the dispatcher
    never hands that job out, for any user and service;
    [deleteUserWorkForJobAndService] removes only the rows of the job
    for that service. *)
Theorem deleteUserWorkForJob_removes_job (job serviceID : string) (tx : Store) :
  fst (deleteUserWorkForJob job tx)
  = Returned (Z.of_nat (List.length (filter (forJob job) (user_work tx))))
  /\ (forall r, In r (user_work (snd (deleteUserWorkForJob job tx)))
                <-> In r (user_work tx) /\ UserWork.job_id r <> job)
  /\ (forall service username,
        dispatchSkips job (user_work tx) service username
          (getNextJobIdForUsernameAndService (snd (deleteUserWorkForJob job tx))
             service username))
  /\ (forall r, In r (user_work (snd (deleteUserWorkForJobAndService job serviceID tx)))
                <-> In r (user_work tx)
                    /\ ~ (UserWork.job_id r = job /\ UserWork.service_id r = serviceID)).
Proof.
  split; [reflexivity |]. split; [| split].
  - intros r. unfold deleteUserWorkForJob, deleteUserWork, with_user_work, forJob. simpl.
    rewrite filter_In, negb_true_iff, String.eqb_neq. reflexivity.
  - intros service username. apply dispatch_without_job.
    unfold deleteUserWorkForJob, deleteUserWork, with_user_work. simpl.
    apply filter_filter_andb.
  - intros r. unfold deleteUserWorkForJobAndService, deleteUserWork, with_user_work,
      forJobAndService. simpl.
    rewrite filter_In, negb_true_iff, andb_false_iff, !String.eqb_neq.
    split; intros [H1 H2]; (split; [exact H1 |]).
    + intros [Hj Hs]. destruct H2; contradiction.
    + destruct (string_dec (UserWork.job_id r) job) as [Hj | Hj]; [| left; exact Hj].
      right. intros Hs. apply H2. split; assumption.
Qed.

Lemma filter_zeroed (job serviceID username : string) (rows : list UserWork.t) :
  filter (readyRowForb serviceID username)
         (map (fun r => if String.eqb (UserWork.job_id r) job
                        then UserWork.set_ready_count 0 r else r) rows)
  = filter (fun r => readyRowForb serviceID username r && negb (forJob job r)) rows.
Proof.
  induction rows as [| r rows IH]; simpl; [reflexivity |].
  unfold forJob at 1. destruct (String.eqb (UserWork.job_id r) job) eqn:E; simpl.
  - rewrite andb_false_r.
    replace (readyRowForb serviceID username (UserWork.set_ready_count 0 r)) with false.
    + exact IH.
    + unfold readyRowForb. simpl. rewrite andb_false_r. reflexivity.
  - rewrite andb_true_r. destruct (readyRowForb serviceID username r); rewrite IH; reflexivity.
Qed.

(** X9.  After [setReadyCountToZero] for a job the dispatcher never
    hands that job out: for every user and service,
    [getNextJobIdForUsernameAndService] returns another job that had a
    ready row before the call, and throws only when the user's ready rows
    for the service all belonged to the job. *)
Theorem setReadyCountToZero_stops_dispatch (job : string) (tx : Store)
  (serviceID username : string) :
  dispatchSkips job (user_work tx) serviceID username
    (getNextJobIdForUsernameAndService (snd (setReadyCountToZero job tx))
       serviceID username).
Proof.
  apply dispatch_without_job.
  unfold setReadyCountToZero, modify, with_user_work. simpl. apply filter_zeroed.
Qed.

(** X10.  When [pauseAndSave] has returned, the dispatcher no longer
    hands the paused job out: for every user and service,
    [getNextJobIdForUsernameAndService] returns another job that had a
    ready row before the pause, and throws only when all the user's ready
    rows for the service were the paused job's. *)
Lemma pauseAndSave_queue (this : Job) (db : Store) :
  fst (pauseAndSave (this, db)) = Returned tt ->
  user_work (snd (snd (pauseAndSave (this, db))))
  = user_work (snd (setReadyCountToZero (jobID this) db)).
Proof.
  unfold pauseAndSave.
  rewrite (bind_returned _ _ (this, db) (this, db) this) by reflexivity.
  destruct (canTransition (status this) PAUSED PAUSE) eqn:Ecan.
  - rewrite (bind_returned _ _ (this, db) (this, db) tt)
      by (unfold onThis; simpl;
          rewrite (validateTransition_allowed _ _ _ _ _ _ Ecan); reflexivity).
    rewrite (bind_returned _ _ (this, db) (this, db) this) by reflexivity.
    destruct (updateStatus_returns PAUSED (Some (getMessage this PAUSED)) this)
      as [this1 [Hup [_ [Hid _]]]].
    rewrite (bind_returned _ _ (this, db) (this1, db) tt)
      by (unfold onThis; simpl; rewrite Hup; reflexivity).
    pose proof (save_keeps (this1, db)) as [Huw Hjob].
    destruct (save (this1, db)) as [[[] | e] [this2 db2]] eqn:Esave; simpl in Huw, Hjob.
    + rewrite (bind_returned _ _ (this1, db) (this2, db2) tt) by exact Esave.
      rewrite (bind_returned _ _ (this2, db2) (this2, db2) this2) by reflexivity.
      intros _. unfold onDb, setReadyCountToZero, modify, with_user_work. simpl.
      rewrite Huw, Hjob, Hid. reflexivity.
    + rewrite (bind_threw _ _ (this1, db) (this2, db2) e) by exact Esave.
      discriminate.
  - rewrite (bind_threw _ _ (this, db) (this, db)
               (ConflictError (defaultTransitionMessage (status this) PAUSED))).
    + discriminate.
    + unfold onThis. simpl.
      rewrite (validateTransition_refused _ _ _ _ None this Ecan). reflexivity.
Qed.

Theorem paused_job_is_not_dispatched (this : Job) (db : Store) (serviceID username : string) :
  fst (pauseAndSave (this, db)) = Returned tt ->
  dispatchSkips (jobID this) (user_work db) serviceID username
    (getNextJobIdForUsernameAndService (snd (snd (pauseAndSave (this, db))))
       serviceID username).
Proof.
  intros H. apply dispatch_without_job.
  rewrite (pauseAndSave_queue this db H).
  unfold setReadyCountToZero, modify, with_user_work. simpl. apply filter_zeroed.
Qed.

Lemma paused_job_is_not_dispatched_witness :
  getNextJobIdForUsernameAndService
    (snd (snd (pauseAndSave (loadedJob RUNNING 40, queueStore)))) "s" "joe"
  <> Returned "job-1".
Proof.
  pose proof (paused_job_is_not_dispatched (loadedJob RUNNING 40) queueStore "s" "joe"
                eq_refl) as H.
  intros E. rewrite E in H. destruct H as [H _]. apply H. reflexivity.
Defined.

(** ** Status messages *)

Lemma lookup_assignMessage (m : Messages) (s s' : JobStatus) (v : string) :
  lookupMessage (assignMessage m s v) s'
  = if JobStatus_beq s s' then Some v else lookupMessage m s'.
Proof.
  induction m as [| [k w] m IH]; simpl.
  - destruct (JobStatus_beq s s'); reflexivity.
  - destruct (JobStatus_beq k s) eqn:Eks; simpl.
    + apply JobStatus_beq_true in Eks. subst k.
      destruct (JobStatus_beq s s'); reflexivity.
    + rewrite IH. destruct (JobStatus_beq k s') eqn:Eks'; [| reflexivity].
      destruct (JobStatus_beq s s') eqn:Ess; [| reflexivity].
      apply JobStatus_beq_true in Ess. subst s'. rewrite Eks' in Eks. discriminate.
Qed.

(** The message the job shows for [s'] once [message] has been stored
    under [s]. *)
Lemma setMessage_shows (message : option string) (s s' : JobStatus) (this : Job) :
  getMessage (snd (setMessage message s this)) s'
  = if truthy message && JobStatus_beq s s'
    then match message with Some m => m | None => "" end
    else getMessage this s'.
Proof.
  unfold setMessage. destruct message as [m |]; [| reflexivity].
  destruct (truthy (Some m)) eqn:Et; [| reflexivity].
  unfold modify, getMessage. simpl snd. simpl andb.
  cbn [statesToMessages set_statesToMessages].
  rewrite lookup_assignMessage.
  destruct (JobStatus_beq s s'); cbv iota; [rewrite Et; reflexivity |].
  destruct (statesToMessages this); reflexivity.
Qed.

(** X11.  A message stored with [setMessage] under a status is the
    message [getMessage] returns for that status, and the messages of
    the other statuses are as before; [setMessage] with an undefined or
    empty message does nothing, so a stored message is never cleared. *)
Theorem setMessage_then_getMessage (message : option string) (s : JobStatus) (this : Job) :
  (forall s',
     getMessage (snd (setMessage message s this)) s'
     = if truthy message && JobStatus_beq s s'
       then match message with Some m => m | None => "" end
       else getMessage this s')
  /\ (truthy message = false -> setMessage message s this = (Returned tt, this))
  /\ fst (setMessage message s this) = Returned tt.
Proof.
  split; [intros s'; apply setMessage_shows |]. split.
  - intros H. unfold setMessage. destruct message as [m |]; [| reflexivity].
    rewrite H. reflexivity.
  - unfold setMessage. destruct message as [m |]; [| reflexivity].
    destruct (truthy (Some m)); reflexivity.
Qed.

Lemma updateStatus_shows (newStatus : JobStatus) (message : option string) (this : Job)
  (s' : JobStatus) :
  getMessage (snd (updateStatus newStatus message this)) s'
  = if truthy message && JobStatus_beq newStatus s'
    then match message with Some m => m | None => "" end
    else getMessage this s'.
Proof.
  pose proof (setMessage_shows message newStatus s' (set_status newStatus this)) as H.
  unfold updateStatus, bind, get, modify, ret.
  destruct (truthy message) eqn:Et; simpl.
  - cbn [status set_status].
    destruct (setMessage message newStatus (set_status newStatus this)) as [[[] | e] this1] eqn:E.
    + simpl in H. cbn [andb] in H.
      destruct (JobStatus_beq (status this1) SUCCESSFUL
                || JobStatus_beq (status this1) COMPLETE_WITH_ERRORS); simpl; exact H.
    + unfold setMessage in E. destruct message as [m |]; [| discriminate].
      rewrite Et in E. discriminate.
  - cbn [status set_status].
    destruct (JobStatus_beq newStatus SUCCESSFUL || JobStatus_beq newStatus COMPLETE_WITH_ERRORS);
      reflexivity.
Qed.

(** Fields a mutator never touches. *)
Lemma updateStatus_keeps (newStatus : JobStatus) (message : option string) (this : Job) :
  request (snd (updateStatus newStatus message this)) = request this
  /\ batchesCompleted (snd (updateStatus newStatus message this)) = batchesCompleted this
  /\ links (snd (updateStatus newStatus message this)) = links this.
Proof.
  unfold updateStatus, setMessage, bind, get, modify, ret.
  destruct message as [m |]; simpl.
  - destruct (negb (String.eqb m "")); simpl; destruct newStatus; simpl; repeat split.
  - destruct newStatus; simpl; repeat split.
Qed.

Lemma call_accepted (m : Mutator) (this : Job) :
  canTransition (status this) (mutatorTarget m) (mutatorEvent m) = true ->
  call m this = updateStatus (mutatorTarget m) (messageArgument m this) this.
Proof.
  intros E.
  destruct m; simpl in E |- *;
    unfold pause, resume, skipPreview, fail, cancel, succeed, complete_with_errors;
    unfold bind at 1; unfold get at 1; unfold bind at 1;
    rewrite (validateTransition_allowed _ _ _ _ _ _ E);
    try (unfold bind at 1; unfold get at 1); reflexivity.
Qed.

(** X12.  When a mutator is accepted, the job shows under the new status
    the message handed over if it is not empty, and otherwise the message
    it showed for that status before; the messages of all other statuses
    are unchanged.  So [fail()] and [cancel()] without an argument replace
    a stored message by the default text, while [succeed()] and
    [complete_with_errors()] without an argument keep it. *)
Theorem mutator_message (m : Mutator) (this : Job) :
  canTransition (status this) (mutatorTarget m) (mutatorEvent m) = true ->
  (forall s',
     getMessage (snd (call m this)) s'
     = if truthy (messageArgument m this) && JobStatus_beq (mutatorTarget m) s'
       then match messageArgument m this with Some text => text | None => "" end
       else getMessage this s')
  /\ (m = Fail None -> getMessage (snd (call m this)) FAILED = statesToDefaultMessages FAILED)
  /\ (m = Cancel None ->
      getMessage (snd (call m this)) CANCELED = statesToDefaultMessages CANCELED)
  /\ (m = Succeed None ->
      getMessage (snd (call m this)) SUCCESSFUL = getMessage this SUCCESSFUL)
  /\ (m = CompleteWithErrors None ->
      getMessage (snd (call m this)) COMPLETE_WITH_ERRORS
      = getMessage this COMPLETE_WITH_ERRORS).
Proof.
  intros E. rewrite (call_accepted m this E).
  repeat split; try (intros ->; rewrite updateStatus_shows; reflexivity).
  intros s'. apply updateStatus_shows.
Qed.

Lemma mutator_message_witness :
  getMessage (snd (call (Fail None) (loadedJob RUNNING 40))) FAILED
  = statesToDefaultMessages FAILED.
Proof.
  exact (proj1 (proj2 (mutator_message (Fail None) (loadedJob RUNNING 40) eq_refl)) eq_refl).
Defined.

(** ** Validity of a job under its own methods *)

Lemma validate_valid (this : Job) :
  validate this = None
  <-> (0 <= progress this <= 100 /\ 0 <= batchesCompleted this
       /\ matchesUrl (request this) = true).
Proof.
  unfold validate.
  destruct (progress this <? 0) eqn:E1; destruct (100 <? progress this) eqn:E2;
    destruct (batchesCompleted this <? 0) eqn:E3;
    destruct (matchesUrl (request this)) eqn:E4; simpl;
    (split; [intros H | intros (H1 & H2 & H3)]);
    try discriminate; try reflexivity; try lia.
Qed.

Lemma call_keeps (m : Mutator) (this : Job) :
  request (snd (call m this)) = request this
  /\ batchesCompleted (snd (call m this)) = batchesCompleted this
  /\ links (snd (call m this)) = links this.
Proof.
  destruct (canTransition (status this) (mutatorTarget m) (mutatorEvent m)) eqn:E.
  - rewrite (call_accepted m this E). apply updateStatus_keeps.
  - rewrite (call_refused m this E). repeat split.
Qed.

Lemma perform_keeps
  (stepUpdateProgress : option WorkflowStep.t -> WorkflowStep.t -> WorkflowStep.t)
  (c : Call) (w : World) :
  request (fst (snd (perform stepUpdateProgress c w))) = request (fst w)
  /\ batchesCompleted (fst (snd (perform stepUpdateProgress c w))) = batchesCompleted (fst w).
Proof.
  destruct w as [this db]. destruct c as [m | | f]; simpl.
  - unfold onThis. simpl. destruct (call_keeps m this) as [H1 [H2 _]].
    destruct (call m this) as [r this']. simpl in *. split; assumption.
  - rewrite updateProgress_sets_candidate. simpl.
    exact (proj2 (raisedTo_progress _ this
                    (rolledUpProgress_range
                       (updateSteps stepUpdateProgress None
                          (getWorkflowStepsByJobId db (jobID this)))))).
  - split; reflexivity.
Qed.

(** X13.  A job that [validate()] accepts is still accepted by
    [validate()] after any sequence of mutator calls (accepted or
    refused), progress rollups and changes made to the database by
    others, and after [completeBatch()]: none of them can take the
    progress out of 0..100, make [batchesCompleted] negative or touch the
    request. *)
Theorem valid_job_stays_valid
  (stepUpdateProgress : option WorkflowStep.t -> WorkflowStep.t -> WorkflowStep.t)
  (cs : list Call) (w : World) :
  validate (fst w) = None ->
  validate (fst (performAll stepUpdateProgress cs w)) = None
  /\ validate (snd (completeBatch (fst (performAll stepUpdateProgress cs w)))) = None.
Proof.
  intros H.
  assert (Hcs : validate (fst (performAll stepUpdateProgress cs w)) = None).
  { revert w H. induction cs as [| c cs IH]; intros w H; simpl; [exact H |].
    apply IH. apply validate_valid in H. destruct H as [Hp [Hb Hr]].
    apply validate_valid.
    destruct (perform_keeps stepUpdateProgress c w) as [Er Eb].
    pose proof (perform_progress stepUpdateProgress c w (proj2 Hp)) as Hq.
    rewrite Er, Eb. repeat split; try assumption; lia. }
  split; [exact Hcs |].
  apply validate_valid in Hcs. destruct Hcs as [Hp [Hb Hr]].
  apply validate_valid. unfold completeBatch, modify. simpl. repeat split; try assumption; lia.
Qed.

Lemma valid_job_stays_valid_witness :
  validate (fst (performAll (fun _ step => step)
                   [Mutate Pause; UpdateProgress; Mutate Resume; Mutate (Succeed None)]
                   (loadedJob RUNNING 40, s4Store))) = None.
Proof.
  exact (proj1 (valid_job_stays_valid (fun _ step => step)
                  [Mutate Pause; UpdateProgress; Mutate Resume; Mutate (Succeed None)]
                  (loadedJob RUNNING 40, s4Store) eq_refl)).
Defined.

(** ** Statuses no mutator leaves *)

Lemma mutators_refused (s : JobStatus) (m : Mutator) :
  includesStatus terminalStates (Some s) = true \/ s = ACCEPTED ->
  canTransition s (mutatorTarget m) (mutatorEvent m) = false.
Proof.
  destruct s; destruct m; vm_compute; intros [H | H]; try discriminate; reflexivity.
Qed.

(** X14.  Every one of the seven mutators throws a ConflictError and
    leaves the job as it is exactly when the job's status is terminal
    (successful, complete_with_errors, failed, canceled) or accepted: an
    accepted job can be neither canceled nor failed through its mutators,
    and in every other status [cancel()] is accepted.  Any sequence of
    mutator calls therefore leaves such a job unchanged. *)
Theorem mutators_all_refused_iff (this : Job) :
  ((forall m, exists message, call m this = (Threw (ConflictError message), this))
   <-> (hasTerminalStatus this = true \/ status this = ACCEPTED))
  /\ (hasTerminalStatus this = true \/ status this = ACCEPTED ->
      forall ms, callAll ms this = this)
  /\ (hasTerminalStatus this = false -> status this <> ACCEPTED ->
      forall message, exists this',
        cancel message this = (Returned tt, this') /\ status this' = CANCELED).
Proof.
  assert (Hthrows : hasTerminalStatus this = true \/ status this = ACCEPTED ->
                    forall m, call m this
                              = (Threw (ConflictError
                                          match m with
                                          | Resume =>
                                              "Job status is " ++ statusString (status this)
                                                ++ " - only paused jobs can be resumed."
                                          | SkipPreview =>
                                              "Job status is " ++ statusString (status this)
                                                ++ " - only previewing jobs can skip preview."
                                          | _ => defaultTransitionMessage (status this)
                                                   (mutatorTarget m)
                                          end), this)).
  { intros H m. apply call_refused. apply mutators_refused. exact H. }
  split; [split | split].
  - intros H. destruct (H (Cancel None)) as [message Hc].
    destruct (canTransition (status this) CANCELED CANCEL) eqn:E.
    + rewrite (call_accepted (Cancel None) this E) in Hc.
      destruct (updateStatus_returns CANCELED
                  (messageArgument (Cancel None) this) this) as [this' [Hu _]].
      simpl mutatorTarget in Hc. rewrite Hu in Hc. discriminate.
    + unfold hasTerminalStatus. revert E. destruct (status this); vm_compute;
        intros E; try discriminate; auto.
  - intros H m. eexists. apply (Hthrows H).
  - intros H ms. induction ms as [| m ms IH]; simpl; [reflexivity |].
    rewrite (Hthrows H m). simpl. exact IH.
  - intros Hterminal Haccepted message.
    assert (E : canTransition (status this) CANCELED CANCEL = true).
    { unfold hasTerminalStatus in Hterminal. revert Hterminal Haccepted.
      destruct (status this); vm_compute; intros Hterminal Haccepted;
        try discriminate; try reflexivity.
      now destruct Haccepted. }
    destruct (call_outcome (Cancel message) this)
      as [[E' _] | [_ [this' [H [Hs _]]]]]; [simpl in E'; congruence |].
    exists this'. split; [exact H | exact Hs].
Qed.

(** ** Reading the jobs table *)

(** X15.  [Job.getNumInputGranules(tx, jobID)] throws a TypeError exactly
    when no row of the jobs table has the job id (it reads a property of
    [results[0]], which is then undefined); otherwise it returns the
    [numInputGranules] of a row with that id. *)
Theorem getNumInputGranules_missing_job (tx : Store) (job : string) :
  ((exists message, getNumInputGranules tx job = Threw (TypeError message))
   <-> (forall r, In r (jobs tx) -> r_jobID r <> job))
  /\ (forall n, getNumInputGranules tx job = Returned n ->
        exists r, In r (jobs tx) /\ r_jobID r = job /\ r_numInputGranules r = n)
  /\ (forall e, getNumInputGranules tx job = Threw e -> exists message, e = TypeError message).
Proof.
  unfold getNumInputGranules.
  destruct (filter (fun r => String.eqb (r_jobID r) job) (jobs tx)) as [| row rest] eqn:E.
  - split; [split |]; [| | split].
    + intros _ r Hin Hr.
      assert (Hf : In r (filter (fun r => String.eqb (r_jobID r) job) (jobs tx))).
      { apply filter_In. split; [exact Hin | apply String.eqb_eq; exact Hr]. }
      rewrite E in Hf. exact Hf.
    + intros _. eexists. reflexivity.
    + intros n H. discriminate.
    + intros e H. inversion H. eexists. reflexivity.
  - assert (Hrow : In row (filter (fun r => String.eqb (r_jobID r) job) (jobs tx)))
      by (rewrite E; left; reflexivity).
    apply filter_In in Hrow. destruct Hrow as [Hin Hid]. apply String.eqb_eq in Hid.
    split; [split |]; [| | split].
    + intros [message H]. discriminate.
    + intros H. exfalso. exact (H row Hin Hid).
    + intros n H. inversion H. exists row. repeat split; assumption.
    + intros e H. discriminate.
Qed.

Lemma fold_max_ge {A : Type} (column : A -> Z) (rows : list A) (start : Z) :
  start <= fold_left (fun acc r => Z.max acc (column r)) rows start
  /\ (forall r, In r rows ->
        column r <= fold_left (fun acc r => Z.max acc (column r)) rows start)
  /\ (fold_left (fun acc r => Z.max acc (column r)) rows start = start
      \/ exists r, In r rows
                   /\ fold_left (fun acc r => Z.max acc (column r)) rows start = column r).
Proof.
  revert start. induction rows as [| x rows IH]; intros start; simpl.
  - repeat split; [lia | intros r [] | left; reflexivity].
  - destruct (IH (Z.max start (column x))) as [H1 [H2 H3]]. repeat split.
    + lia.
    + intros r [-> | Hin]; [lia | apply H2; exact Hin].
    + destruct H3 as [H3 | [r [Hin H3]]].
      * destruct (Z.max_spec start (column x)) as [[_ Hm] | [_ Hm]].
        -- right. exists x. split; [left; reflexivity | rewrite H3; exact Hm].
        -- left. rewrite H3. exact Hm.
      * right. exists r. split; [right; exact Hin | exact H3].
Qed.

(** X16.  [Job.getTimeOfMostRecentlyUpdatedJob(tx)] is the [updatedAt] of
    some job and no job has a later one; over an empty jobs table it is
    the epoch, not an error. *)
Theorem getTimeOfMostRecentlyUpdatedJob_latest (tx : Store) :
  (forall r, In r (jobs tx) -> r_updatedAt r <= getTimeOfMostRecentlyUpdatedJob tx)
  /\ (jobs tx <> [] ->
      exists r, In r (jobs tx) /\ getTimeOfMostRecentlyUpdatedJob tx = r_updatedAt r)
  /\ (jobs tx = [] -> getTimeOfMostRecentlyUpdatedJob tx = 0).
Proof.
  unfold getTimeOfMostRecentlyUpdatedJob, max_of.
  destruct (jobs tx) as [| x rows]; [repeat split; [intros r [] | intros H; now destruct H] |].
  destruct (fold_max_ge r_updatedAt rows (r_updatedAt x)) as [H1 [H2 H3]].
  repeat split.
  - intros r [<- | Hin]; [exact H1 | apply H2; exact Hin].
  - intros _. destruct H3 as [H3 | [r [Hin H3]]].
    + exists x. split; [left; reflexivity | exact H3].
    + exists r. split; [right; exact Hin | exact H3].
  - intros H. discriminate.
Qed.

(** ** The provider id snapshot is taken once *)

(** The provider ids a successful query yields are exactly the ids some
    job carries. *)
Lemma unique_provider_ids (tx : Store) (id : string) :
  In id (nodup string_dec
           (flat_map (fun job => match r_provider_id job with
                                 | Some id => [id]
                                 | None => []
                                 end)
                     (jobs tx)))
  <-> exists job, In job (jobs tx) /\ r_provider_id job = Some id.
Proof.
  rewrite nodup_In, in_flat_map. split.
  - intros [job [Hin H]]. exists job. split; [exact Hin |].
    destruct (r_provider_id job) as [i |]; [| destruct H].
    destruct H as [-> | []]. reflexivity.
  - intros [job [Hin H]]. exists job. split; [exact Hin |]. rewrite H. left. reflexivity.
Qed.

(** X17.  [Job.getProviderIdsSnapshot] never throws and always yields a
    list.  The first call reads the database: when that call succeeds the
    list holds, without repetition, exactly the non-null provider ids of
    the jobs table, and when it fails the error is logged and the list is
    empty.  Whatever the first call yielded is what every later call
    yields, without a database call, however the database has changed
    since and whether or not it is reachable: a failure of the first call
    is never retried. *)
Theorem getProviderIdsSnapshot_taken_once (p : Process) :
  (exists ids,
      fst (getProviderIdsSnapshot p) = Returned (Some ids)
      /\ forall f script,
           getProviderIdsSnapshot (elsewhere f script (snd (getProviderIdsSnapshot p)))
           = (Returned (Some ids), elsewhere f script (snd (getProviderIdsSnapshot p))))
  /\ (providerIdsSnapshot p = None -> hd false (failing p) = false ->
      exists ids,
        fst (getProviderIdsSnapshot p) = Returned (Some ids)
        /\ NoDup ids
        /\ (forall id, In id ids
                       <-> exists job, In job (jobs (database p))
                                       /\ r_provider_id job = Some id)
        /\ loggedErrors (snd (getProviderIdsSnapshot p)) = loggedErrors p)
  /\ (providerIdsSnapshot p = None -> hd false (failing p) = true ->
      fst (getProviderIdsSnapshot p) = Returned (Some [])
      /\ exists e, loggedErrors (snd (getProviderIdsSnapshot p))
                   = (loggedErrors p ++ [e])%list)
  /\ (forall ids, providerIdsSnapshot p = Some ids ->
      getProviderIdsSnapshot p = (Returned (Some ids), p)).
Proof.
  unfold getProviderIdsSnapshot, getUniqueProviderIds, try_catch, assignSnapshot,
    loggerError, elsewhere, bind, get, modify, ret.
  destruct p as [[ids |] d errs [| [|] rest]]; simpl;
    (split; [eexists; split; [reflexivity | intros f script; reflexivity] |]);
    (split; [intros H1 H2; try discriminate;
             (eexists; split; [reflexivity |]);
             (split; [apply NoDup_nodup |]);
             (split; [intros id; apply unique_provider_ids | reflexivity]) |]);
    (split; [intros H1 H2; try discriminate;
             (split; [reflexivity | eexists; reflexivity]) |]);
    intros ids' H; inversion H; reflexivity.
Qed.

(** ** Query constraints *)

Lemma getProperty_setProperty {V : Type} (o : JsObject V) (key key' : string) (value : V) :
  getProperty (setProperty o key value) key'
  = if String.eqb key key' then Some value else getProperty o key'.
Proof.
  induction o as [| [k v] o IH]; simpl.
  - destruct (String.eqb key key'); reflexivity.
  - destruct (String.eqb k key) eqn:Ek; simpl.
    + apply String.eqb_eq in Ek. subst k. destruct (String.eqb key key'); reflexivity.
    + rewrite IH. destruct (String.eqb k key') eqn:Ek'; [| reflexivity].
      destruct (String.eqb key key') eqn:Ekk; [| reflexivity].
      apply String.eqb_eq in Ek', Ekk. subst. rewrite String.eqb_refl in Ek. discriminate.
Qed.

Lemma In_setProperty {V : Type} (o : JsObject V) (key key' : string) (value v : V) :
  In (key', v) (setProperty o key value) ->
  (key' = key /\ v = value) \/ In (key', v) o.
Proof.
  induction o as [| [k w] o IH]; simpl.
  - intros [H | []]. inversion H. left. split; reflexivity.
  - destruct (String.eqb k key) eqn:Ek; simpl.
    + apply String.eqb_eq in Ek. subst k. intros [H | H].
      * inversion H. left. split; reflexivity.
      * right. right. exact H.
    + intros [H | H]; [right; left; exact H |].
      destruct (IH H) as [H' | H']; [left; exact H' | right; right; exact H'].
Qed.

Lemma getProperty_In {V : Type} (o : JsObject V) (key : string) (v : V) :
  getProperty o key = Some v -> In (key, v) o.
Proof.
  induction o as [| [k w] o IH]; simpl; [discriminate |].
  destruct (String.eqb k key) eqn:Ek.
  - apply String.eqb_eq in Ek. subst k. intros H. inversion H. left. reflexivity.
  - intros H. right. apply IH. exact H.
Qed.

Lemma getProperty_None {V : Type} (o : JsObject V) (key : string) :
  ~ In key (map fst o) -> getProperty o key = None.
Proof.
  induction o as [| [k w] o IH]; simpl; [reflexivity |].
  intros H. destruct (String.eqb k key) eqn:Ek.
  - apply String.eqb_eq in Ek. exfalso. apply H. left. exact Ek.
  - apply IH. intros Hin. apply H. right. exact Hin.
Qed.

Lemma prefix_injective (prefix a b : string) :
  (prefix ++ a = prefix ++ b)%string -> a = b.
Proof.
  induction prefix as [| c prefix IH]; simpl; intros H; [exact H |].
  inversion H. apply IH. assumption.
Qed.

Section TableName.

Context {V : Type} (table : string).

Let step (result : JsObject V) (entry : string * option V) : JsObject V :=
  match snd entry with
  | Some value => setProperty result (table ++ "." ++ fst entry) value
  | None => result
  end.

Lemma prefixed_lookup (l : JsObject (option V)) (acc : JsObject V) (key : string) :
  NoDup (map fst l) ->
  getProperty (fold_left step l acc) (table ++ "." ++ key)
  = match getProperty l key with
    | Some (Some value) => Some value
    | _ => getProperty acc (table ++ "." ++ key)
    end.
Proof.
  revert acc. induction l as [| [k v] l IH]; intros acc Hnd; simpl; [reflexivity |].
  inversion Hnd as [| ? ? Hnotin Hnd']; subst.
  rewrite (IH _ Hnd'). destruct (String.eqb k key) eqn:Ek.
  - apply String.eqb_eq in Ek. subst k.
    rewrite (getProperty_None l key Hnotin). unfold step. simpl.
    destruct v as [value |]; [| reflexivity].
    rewrite getProperty_setProperty, String.eqb_refl. reflexivity.
  - destruct (getProperty l key) as [[value |] |]; try reflexivity;
      unfold step; simpl; destruct v as [value' |]; try reflexivity;
      rewrite getProperty_setProperty;
      (match goal with
       | |- context [String.eqb ?a ?b] => destruct (String.eqb a b) eqn:E
       end; [| reflexivity]);
      apply String.eqb_eq in E; apply prefix_injective in E;
      apply (prefix_injective ".") in E; subst; rewrite String.eqb_refl in Ek; discriminate.
Qed.

Lemma prefixed_entries (l : JsObject (option V)) (acc : JsObject V) (name : string)
  (value : V) :
  In (name, value) (fold_left step l acc) ->
  In (name, value) acc
  \/ exists key, name = table ++ "." ++ key /\ In (key, Some value) l.
Proof.
  revert acc. induction l as [| [k v] l IH]; intros acc H; simpl in H; [left; exact H |].
  destruct (IH _ H) as [Hacc | [key [Hname Hin]]].
  - unfold step in Hacc. simpl in Hacc. destruct v as [value' |].
    + destruct (In_setProperty _ _ _ _ _ Hacc) as [[Hn Hv] | Hold]; [| left; exact Hold].
      right. exists k. subst. split; [reflexivity | left; reflexivity].
    + left. exact Hacc.
  - right. exists key. split; [exact Hname | right; exact Hin].
Qed.

Lemma prefixed_key_stays (l : JsObject (option V)) (acc : JsObject V) (name : string) :
  getProperty acc name <> None -> getProperty (fold_left step l acc) name <> None.
Proof.
  revert acc. induction l as [| [k v] l IH]; intros acc H; simpl; [exact H |].
  apply IH. unfold step. simpl. destruct v as [value |]; [| exact H].
  rewrite getProperty_setProperty. destruct (String.eqb _ name); [discriminate | exact H].
Qed.

Lemma prefixed_key_present (l : JsObject (option V)) (acc : JsObject V) (key : string)
  (value : V) :
  In (key, Some value) l ->
  getProperty (fold_left step l acc) (table ++ "." ++ key) <> None.
Proof.
  revert acc. induction l as [| [k v] l IH]; intros acc H; [destruct H |].
  destruct H as [H | H]; simpl.
  - inversion H. subst. apply prefixed_key_stays. unfold step. simpl.
    rewrite getProperty_setProperty, String.eqb_refl. discriminate.
  - apply IH. exact H.
Qed.

End TableName.

(** X18.  In the object [setTableNameForWhereClauses(table, whereClauses)]
    returns, the property [<table>.<key>] holds the value of [key] in
    [whereClauses] when that value is defined, and is absent when [key]
    is absent or undefined; every property of the result is of this
    form.  The keys of [whereClauses] are distinct, as those of an object
    are. *)
Theorem setTableNameForWhereClauses_lookup {V : Type} (table : string)
  (whereClauses : JsObject (option V)) :
  NoDup (map fst whereClauses) ->
  (forall key,
     getProperty (setTableNameForWhereClauses table whereClauses) (table ++ "." ++ key)
     = match getProperty whereClauses key with
       | Some (Some value) => Some value
       | _ => None
       end)
  /\ (forall name value,
        In (name, value) (setTableNameForWhereClauses table whereClauses) ->
        exists key, name = table ++ "." ++ key /\ In (key, Some value) whereClauses).
Proof.
  intros Hnd. split.
  - intros key. unfold setTableNameForWhereClauses.
    rewrite (prefixed_lookup table whereClauses [] key Hnd).
    destruct (getProperty whereClauses key) as [[value |] |]; reflexivity.
  - intros name value H. unfold setTableNameForWhereClauses in H.
    destruct (prefixed_entries table whereClauses [] name value H) as [[] | H']. exact H'.
Qed.

Lemma setTableNameForWhereClauses_lookup_witness :
  getProperty (setTableNameForWhereClauses "jobs" statusConstraints) "jobs.status"
  = Some {| isIn := true; values := ["running"; "paused"] |}
  /\ getProperty (setTableNameForWhereClauses "jobs" statusConstraints) "jobs.username"
     = None.
Proof.
  assert (Hnd : NoDup (map fst statusConstraints)).
  { repeat constructor; simpl; intuition discriminate. }
  split.
  - exact (proj1 (setTableNameForWhereClauses_lookup "jobs" statusConstraints Hnd) "status").
  - exact (proj1 (setTableNameForWhereClauses_lookup "jobs" statusConstraints Hnd) "username").
Defined.

Lemma inColumn_whereInClause (entry : string * InConstraint) :
  inColumn (whereInClause entry) = Some (fst entry).
Proof. unfold whereInClause. destruct (isIn (snd entry)); reflexivity. Qed.

Lemma inColumn_dateClauses (d : DateRange) (c : Clause) :
  In c (dateClauses d) -> inColumn c = None.
Proof.
  unfold dateClauses. destruct (from d), (to d); simpl; intuition (subst; reflexivity).
Qed.

(** The [whereIn] and [whereNotIn] calls among the clauses of one run
    are on the property names of the prefixed object, all of them. *)
Lemma in_clauses (prefixed : JsObject InConstraint) (range : option DateRange) :
  let added :=
    (map whereInClause prefixed
       ++ match range with Some d => dateClauses d | None => [] end)%list in
  (forall c column, In c added -> inColumn c = Some column ->
                    exists constraint, In (column, constraint) prefixed)
  /\ (forall column constraint, In (column, constraint) prefixed ->
                                exists c, In c added /\ inColumn c = Some column).
Proof.
  simpl. split.
  - intros c column Hin Hc. apply in_app_or in Hin. destruct Hin as [Hin | Hin].
    + apply in_map_iff in Hin. destruct Hin as [[name constraint] [Hw Hin]]. subst c.
      rewrite inColumn_whereInClause in Hc. inversion Hc. subst. exists constraint. exact Hin.
    + destruct range as [d |]; [| destruct Hin].
      rewrite (inColumn_dateClauses d c Hin) in Hc. discriminate.
  - intros column constraint Hin. exists (whereInClause (column, constraint)). split.
    + apply in_or_app. left. apply in_map. exact Hin.
    + apply inColumn_whereInClause.
Qed.

Lemma getProperty_present {V : Type} (o : JsObject V) (key : string) :
  getProperty o key <> None -> exists value, In (key, value) o.
Proof.
  destruct (getProperty o key) as [value |] eqn:E; [| intros H; now destruct H].
  intros _. exists value. apply getProperty_In. exact E.
Qed.

(** X19.  [modifyQuery] assigns to the constraints object it is given:
    the [whereIn] and [whereNotIn] calls of a first run are on the
    columns [jobs.<field>], for exactly the fields of [whereIn] with a
    defined value, and when the same object is passed to a second run,
    the calls of that run are on the columns [jobs.jobs.<field>].  Both
    runs return normally and only add calls to the builder; with
    undefined constraints no call is made. *)
Theorem modifyQuery_prefixes_in_place (builder builder2 : list Clause) (q : JobQuery)
  (w : JsObject (option InConstraint)) :
  whereIn q = Some w ->
  let first := modifyQuery (builder, Some q) in
  let second := modifyQuery (builder2, snd (snd first)) in
  fst first = Returned tt /\ fst second = Returned tt
  /\ modifyQuery (builder, None) = (Returned tt, (builder, None))
  /\ exists added added2,
       fst (snd first) = (builder ++ added)%list
       /\ fst (snd second) = (builder2 ++ added2)%list
       /\ (forall c column, In c added -> inColumn c = Some column ->
             exists field constraint,
               column = "jobs." ++ field /\ In (field, Some constraint) w)
       /\ (forall c column, In c added2 -> inColumn c = Some column ->
             exists field constraint,
               column = "jobs.jobs." ++ field /\ In (field, Some constraint) w)
       /\ (forall field constraint, In (field, Some constraint) w ->
             (exists c, In c added /\ inColumn c = Some ("jobs." ++ field))
             /\ (exists c, In c added2 /\ inColumn c = Some ("jobs.jobs." ++ field))).
Proof.
  intros Hw. unfold modifyQuery. rewrite Hw. simpl.
  set (once := setTableNameForWhereClauses "jobs" w).
  set (twice := setTableNameForWhereClauses "jobs" (map (fun e => (fst e, Some (snd e))) once)).
  destruct (in_clauses once (dates q)) as [Hfrom1 Hto1].
  destruct (in_clauses twice (dates q)) as [Hfrom2 Hto2].
  simpl in Hfrom1, Hto1, Hfrom2, Hto2.
  assert (Honce : forall name constraint, In (name, constraint) once ->
                    exists field, name = "jobs." ++ field /\ In (field, Some constraint) w).
  { intros name constraint H.
    destruct (prefixed_entries "jobs" w [] name constraint H) as [[] | H']. exact H'. }
  assert (Htwice : forall name constraint, In (name, constraint) twice ->
                     exists field, name = "jobs.jobs." ++ field
                                   /\ In (field, Some constraint) w).
  { intros name constraint H.
    destruct (prefixed_entries "jobs" _ [] name constraint H) as [[] | [mid [Hname Hin]]].
    apply in_map_iff in Hin. destruct Hin as [[name1 constraint1] [Heq Hin]].
    simpl in Heq. inversion Heq. subst.
    destruct (Honce _ _ Hin) as [field [Hmid Hf]]. exists field. subst.
    split; [reflexivity | exact Hf]. }
  repeat match goal with |- _ /\ _ => split end; try reflexivity.
  eexists. eexists.
  repeat match goal with |- _ /\ _ => split end; try reflexivity.
  - intros c column Hin Hc. destruct (Hfrom1 c column Hin Hc) as [constraint H].
    destruct (Honce _ _ H) as [name [Hname Hf]]. exists name, constraint. split; assumption.
  - intros c column Hin Hc. destruct (Hfrom2 c column Hin Hc) as [constraint H].
    destruct (Htwice _ _ H) as [name [Hname Hf]]. exists name, constraint. split; assumption.
  - intros name constraint H.
    destruct (getProperty_present once ("jobs." ++ name)
                (prefixed_key_present "jobs" w [] name constraint H)) as [value Hv].
    split; [exact (Hto1 _ _ Hv) |].
    assert (Hmid : In ("jobs." ++ name, Some value)
                      (map (fun e => (fst e, Some (snd e))) once)).
    { apply in_map_iff. exists ("jobs." ++ name, value). split; [reflexivity | exact Hv]. }
    destruct (getProperty_present twice ("jobs." ++ "jobs." ++ name)
                (prefixed_key_present "jobs" _ [] _ _ Hmid)) as [value2 Hv2].
    exact (Hto2 _ _ Hv2).
Qed.

Lemma modifyQuery_prefixes_in_place_witness :
  exists c,
    In c (fst (snd (modifyQuery ([], snd (snd (modifyQuery ([], Some statusQuery)))))))
    /\ inColumn c = Some "jobs.jobs.status".
Proof.
  destruct (modifyQuery_prefixes_in_place [] [] statusQuery statusConstraints eq_refl)
    as [_ [_ [_ [added [added2 [_ [H2 [_ [_ H]]]]]]]]].
  destruct (H "status" {| isIn := true; values := ["running"; "paused"] |}
              (or_introl eq_refl)) as [_ [c [Hin Hc]]].
  exists c. split; [rewrite H2; exact Hin | exact Hc].
Defined.

(** ** One query and one catalog per source *)

Module QueryGranulesProofs.

Import QueryCmr QueryGranules.

Lemma nth_error_mapFrom {A B : Type} (f : nat -> A -> B) (l : list A) (start i : nat) :
  nth_error (mapFrom start f l) i = option_map (f (start + i)%nat) (nth_error l i).
Proof.
  revert start i. induction l as [| x l IH]; intros start i; destruct i; simpl;
    try reflexivity.
  - rewrite Nat.add_0_r. reflexivity.
  - rewrite IH. rewrite Nat.add_succ_r. reflexivity.
Qed.

Lemma length_mapFrom {A B : Type} (f : nat -> A -> B) (l : list A) (start : nat) :
  List.length (mapFrom start f l) = List.length l.
Proof.
  revert start. induction l as [| x l IH]; intros start; simpl; [reflexivity |].
  rewrite IH. reflexivity.
Qed.

Section OnePerSource.

Variable Granule : Type.
Variable CmrQuery : Type.
Variable cmrQueryGranules : string -> CmrQuery -> string -> Z -> list Granule.
Variable readQuery : string -> CmrQuery.

(** The catalog of the source at index [i]. *)
Let catalogOf (token : string) (queries : list string) (pageSize : Z) (i : nat)
  (source : DataSource) : SourceCatalog Granule :=
  {| description := "CMR Granules for " ++ collection source;
     granules :=
       map (fun g => (g, "./granule_" ++ numberString (Z.of_nat i) ++ "_"))
           (cmrQueryGranules (collection source) (readQuery (nth i queries "")) token
              pageSize);
     queries_issued := [(collection source, token, pageSize)] |}.

Lemma promisesFrom_resolve (fuel : nat) (token : string) (sources : list DataSource)
  (queries : list string) (i : nat) (pageSize maxPages : Z) :
  promiseAll (promisesFrom Granule CmrQuery cmrQueryGranules readQuery (S fuel) token
                sources queries i pageSize maxPages)
  = Some (mapFrom i (catalogOf token queries pageSize) sources).
Proof.
  revert i. induction sources as [| source rest IH]; intros i; [reflexivity |].
  cbn [promisesFrom mapFrom].
  assert (Hq : querySource Granule CmrQuery cmrQueryGranules readQuery (S fuel) token source
                 (nth i queries "") pageSize maxPages
                 ("./granule_" ++ numberString (Z.of_nat i) ++ "_")
               = Some {| result :=
                           map (fun g => (g, "./granule_" ++ numberString (Z.of_nat i) ++ "_"))
                               (cmrQueryGranules (collection source)
                                  (readQuery (nth i queries "")) token pageSize);
                         page := 1;
                         done := true;
                         issued := [(collection source, token, pageSize)] |}).
  { unfold querySource. cbn [whileNotDone done]. unfold loopBody. cbn [page result issued done].
    destruct (0 + 1 <? maxPages); destruct fuel; reflexivity. }
  rewrite Hq. cbn [option_map promiseAll]. rewrite IH. reflexivity.
Qed.

(** X20.  [queryGranules] fails its assertion, before any query, when the
    operation has no sources or when the numbers of sources and of query
    files differ.  Otherwise it resolves to a catalog with one child and
    one link per source, in the order of the sources: for the source at
    index [i], exactly one CMR query was issued (for its collection, with
    the operation's token and the page size, whatever [maxPages] is), the
    granules of that one page are filed under the prefix
    [./granule_<i>_], and the link has rel [child], href
    [./source_<i>.json] and the child's description as title. *)
Theorem queryGranules_one_query_per_source (fuel : nat) (operation : DataOperation)
  (queries : list string) (pageSize maxPages : Z) :
  match sources operation with
  | None =>
      queryGranules Granule CmrQuery cmrQueryGranules readQuery fuel operation queries
        pageSize maxPages
      = AssertionError "One query must be provided per input source"
  | Some ss =>
      if Nat.eqb (List.length ss) (List.length queries)
      then
        exists catalog,
          queryGranules Granule CmrQuery cmrQueryGranules readQuery (S fuel) operation
            queries pageSize maxPages
          = Resolved catalog
          /\ List.length (children Granule catalog) = List.length ss
          /\ List.length (links Granule catalog) = List.length ss
          /\ forall i source,
               nth_error ss i = Some source ->
               exists child link,
                 nth_error (children Granule catalog) i = Some child
                 /\ queries_issued Granule child
                    = [(collection source, unencryptedAccessToken operation, pageSize)]
                 /\ granules Granule child
                    = map (fun g => (g, "./granule_" ++ numberString (Z.of_nat i) ++ "_"))
                          (cmrQueryGranules (collection source)
                             (readQuery (nth i queries ""))
                             (unencryptedAccessToken operation) pageSize)
                 /\ nth_error (links Granule catalog) i = Some link
                 /\ rel link = "child"
                 /\ href link = "./source_" ++ numberString (Z.of_nat i) ++ ".json"
                 /\ title link = "CMR Granules for " ++ collection source
      else
        queryGranules Granule CmrQuery cmrQueryGranules readQuery fuel operation queries
          pageSize maxPages
        = AssertionError "One query must be provided per input source"
  end.
Proof.
  unfold queryGranules. destruct (sources operation) as [ss |]; [| reflexivity].
  destruct (Nat.eqb (List.length ss) (List.length queries)); [| reflexivity].
  rewrite promisesFrom_resolve. eexists. split; [reflexivity |].
  cbn [children links]. rewrite !length_mapFrom.
  split; [reflexivity |]. split; [reflexivity |].
  intros i source Hi. rewrite !nth_error_mapFrom, Hi. cbn [option_map Nat.add].
  eexists. eexists. split; [reflexivity |].
  repeat match goal with |- _ /\ _ => split end; reflexivity.
Qed.

End OnePerSource.

End QueryGranulesProofs.

(** ** Starting and stopping the reaper *)

Module ReaperLoopProofs.

Import WorkReaper ReaperLoop.

Lemma blind_bind {A B : Type} (m : Eff World A) (k : A -> Eff World B) :
  blind m -> (forall a, blind (k a)) -> blind (bind m k).
Proof.
  intros Hm Hk running w. unfold bind. rewrite Hm.
  destruct (m w) as [[a | e] w']; simpl; [apply Hk | reflexivity].
Qed.

Lemma blind_try_catch {A : Type} (body : Eff World A) (handler : Exn -> Eff World A) :
  blind body -> (forall e, blind (handler e)) -> blind (try_catch body handler).
Proof.
  intros Hb Hh running w. unfold try_catch. rewrite Hb.
  destruct (body w) as [[a | e] w']; simpl; [reflexivity | apply Hh].
Qed.

Lemma blind_log (entry : LogEntry) : blind (log entry).
Proof. intros running w. reflexivity. Qed.

Lemma blind_sleep (ms : Z) : blind (sleep ms).
Proof. intros running w. reflexivity. Qed.

Lemma blind_dbCall {A : Type} (op : Store -> A * Store) : blind (dbCall op).
Proof.
  intros running w. unfold dbCall, setRunning. simpl.
  destruct (faults w) as [| [|] rest]; simpl; try reflexivity;
    destruct (op (db w)); reflexivity.
Qed.

Lemma blind_if {A : Type} (b : bool) (m1 m2 : Eff World A) :
  blind m1 -> blind m2 -> blind (if b then m1 else m2).
Proof. destruct b; auto. Qed.

Lemma blind_deleteTerminalWork (minutes : Z) (statuses : list JobStatus) :
  blind (deleteTerminalWork minutes statuses).
Proof.
  unfold deleteTerminalWork.
  repeat first [ apply blind_try_catch | apply blind_bind | apply blind_if
               | apply blind_dbCall | apply blind_log | intros ? ].
Qed.

Lemma blind_tick (env : Env) : blind (tick env).
Proof.
  unfold tick.
  repeat first [ apply blind_bind | apply blind_sleep | apply blind_log
               | apply blind_deleteTerminalWork | intros ? ].
Qed.

Lemma setRunning_same (w : World) : setRunning (isRunning w) w = w.
Proof. destruct w. reflexivity. Qed.

Lemma tick_isRunning (env : Env) (w : World) : isRunning (snd (tick env w)) = isRunning w.
Proof.
  pose proof (blind_tick env (isRunning w) w) as H. rewrite setRunning_same in H.
  rewrite H. reflexivity.
Qed.

Lemma tick_outcome (env : Env) (w : World) : tick env w = (Returned tt, snd (tick env w)).
Proof.
  pose proof (ReaperProofs.tick_returns env w) as H.
  destruct (tick env w) as [r w']. simpl in *. rewrite H. reflexivity.
Qed.

Lemma deleteTerminalWork_blind (minutes : Z) (statuses : list JobStatus)
  (running running' : bool) (l : list LogEntry) (d : Store) (f : list bool) :
  deleteTerminalWork minutes statuses
    {| isRunning := running; logger := l; db := d; faults := f |}
  = (fst (deleteTerminalWork minutes statuses
            {| isRunning := running'; logger := l; db := d; faults := f |}),
     setRunning running
       (snd (deleteTerminalWork minutes statuses
               {| isRunning := running'; logger := l; db := d; faults := f |}))).
Proof.
  exact (blind_deleteTerminalWork minutes statuses running
           {| isRunning := running'; logger := l; db := d; faults := f |}).
Qed.

(** An iteration is a tick of the reaper, whenever [stop()] arrives. *)
Lemma iteration_tick (env : Env) (stopDuring : option Sleep) (w : World) :
  iteration env stopDuring w
  = (Returned tt,
     match stopDuring with
     | Some _ => setRunning false (snd (tick env w))
     | None => snd (tick env w)
     end).
Proof.
  destruct stopDuring as [[|] |];
    unfold iteration, sleepWith, tick, stop, bind, sleep, log, modify, ret; simpl;
    try rewrite (deleteTerminalWork_blind _ _ false (isRunning w));
    match goal with
    | |- context [deleteTerminalWork ?m ?sts ?w'] =>
        pose proof (ReaperProofs.deleteTerminalWork_returns m sts w') as H;
        destruct (deleteTerminalWork m sts w') as [[[] | e] w'']; simpl in H;
        [reflexivity | discriminate]
    end.
Qed.

Lemma ticks_next (env : Env) (n : nat) (w : World) :
  snd (ticks env (S n) w) = snd (ticks env n (snd (tick env w))).
Proof.
  simpl. unfold bind. rewrite (tick_outcome env w). reflexivity.
Qed.

Lemma blind_ticks (env : Env) (n : nat) : blind (ticks env n).
Proof.
  induction n as [| n IH]; simpl.
  - intros running w. reflexivity.
  - apply blind_bind; [apply blind_tick | intros _; exact IH].
Qed.

Lemma whileRunning_stopped (fuel : nat) (env : Env) (stops : nat -> option Sleep) (k : nat)
  (w : World) :
  isRunning w = false -> whileRunning fuel env stops k w = (Returned true, w).
Proof.
  intros H. destruct fuel; simpl; unfold bind, get; simpl; rewrite H; reflexivity.
Qed.

Lemma whileRunning_until (env : Env) (stops : nat -> option Sleep) (n : nat) :
  forall (k : nat) (fuel : nat) (w : World) (s : Sleep),
    isRunning w = true ->
    (forall j, (j < n)%nat -> stops (k + j)%nat = None) ->
    stops (k + n)%nat = Some s ->
    (n < fuel)%nat ->
    whileRunning fuel env stops k w
    = (Returned true, setRunning false (snd (ticks env (S n) w))).
Proof.
  induction n as [| n IH]; intros k fuel w s Hrun Hnone Hstop Hfuel;
    (destruct fuel as [| fuel]; [lia |]).
  - rewrite Nat.add_0_r in Hstop.
    cbn [whileRunning]. unfold bind at 1. unfold get at 1. rewrite Hrun.
    unfold bind at 1. rewrite iteration_tick, Hstop.
    rewrite whileRunning_stopped by reflexivity.
    rewrite ticks_next. reflexivity.
  - cbn [whileRunning]. unfold bind at 1. unfold get at 1. rewrite Hrun.
    assert (Hk : stops k = None)
      by (rewrite <- (Nat.add_0_r k); apply Hnone; lia).
    unfold bind at 1. rewrite iteration_tick, Hk.
    rewrite (IH (S k) fuel (snd (tick env w)) s).
    + rewrite <- ticks_next. reflexivity.
    + rewrite tick_isRunning. exact Hrun.
    + intros j Hj. rewrite <- (Hnone (S j)) by lia. f_equal. lia.
    + rewrite <- Hstop. f_equal. lia.
    + lia.
Qed.

Lemma whileRunning_forever (env : Env) (stops : nat -> option Sleep) (fuel : nat) :
  forall (k : nat) (w : World),
    isRunning w = true ->
    (forall j, stops j = None) ->
    whileRunning fuel env stops k w = (Returned false, snd (ticks env fuel w)).
Proof.
  induction fuel as [| fuel IH]; intros k w Hrun Hnone;
    cbn [whileRunning]; unfold bind at 1; unfold get at 1; rewrite Hrun.
  - reflexivity.
  - unfold bind at 1. rewrite iteration_tick, Hnone.
    rewrite IH; [| rewrite tick_isRunning; exact Hrun | exact Hnone].
    rewrite <- ticks_next. reflexivity.
Qed.

(** X21.  [start()] runs the reaper until [stop()] is called, and only
    then: when [stop()] first arrives during iteration [k], in either of
    its two sleeps, that iteration still runs to its end, the deletion
    of terminal work included, and the loop ends after it with exactly
    [k + 1] ticks done; when [stop()] never arrives the loop does not
    end, whatever the database calls do.  [start()] sets [isRunning]
    itself, so a [stop()] called before [start()] has no effect. *)
Theorem start_runs_until_stopped (env : Env) (stops : nat -> option Sleep) (fuel : nat)
  (w : World) :
  (forall k s,
     stops k = Some s -> (forall j, (j < k)%nat -> stops j = None) -> (k < fuel)%nat ->
     start fuel env stops w
     = (Returned true, setRunning false (snd (ticks env (S k) w))))
  /\ ((forall j, stops j = None) ->
      start fuel env stops w = (Returned false, setRunning true (snd (ticks env fuel w))))
  /\ start fuel env stops (snd (stop w)) = start fuel env stops w.
Proof.
  unfold start. split; [| split].
  - intros k s Hstop Hnone Hfuel. unfold bind, modify. simpl.
    rewrite (whileRunning_until env stops k 0 fuel (setRunning true w) s);
      [| reflexivity | exact Hnone | exact Hstop | exact Hfuel].
    rewrite (blind_ticks env (S k) true w). reflexivity.
  - intros Hnone. unfold bind, modify. simpl.
    rewrite (whileRunning_forever env stops fuel 0 (setRunning true w));
      [| reflexivity | exact Hnone].
    rewrite (blind_ticks env fuel true w). reflexivity.
  - reflexivity.
Qed.

Lemma start_runs_until_stopped_witness :
  start 5 s6Env stopInSecond s6World
  = (Returned true, setRunning false (snd (ticks s6Env 2 s6World))).
Proof.
  apply (proj1 (start_runs_until_stopped s6Env stopInSecond 5 s6World) 1%nat BeforeReaping).
  - reflexivity.
  - intros j Hj. destruct j as [| j]; [reflexivity | lia].
  - lia.
Defined.

End ReaperLoopProofs.

(** ** Sharing a job *)

Module SharingProofs.

Import Sharing.

Lemma every_true {A : Type} (p : A -> Completion bool) (l : list A) :
  every p l = Returned true <-> forall x, In x l -> p x = Returned true.
Proof.
  induction l as [| x l IH]; simpl.
  - split; [intros _ y [] | reflexivity].
  - destruct (p x) as [[|] | e] eqn:E.
    + rewrite IH. split.
      * intros H y [<- | Hy]; [exact E | apply H; exact Hy].
      * intros H y Hy. apply H. right. exact Hy.
    + split; [discriminate |]. intros H. rewrite <- E. apply H. left. reflexivity.
    + split; [discriminate |]. intros H. rewrite <- E. apply H. left. reflexivity.
Qed.

Lemma every_threw {A : Type} (p : A -> Completion bool) (l : list A) (e : Exn) :
  every p l = Threw e -> exists x, In x l /\ p x = Threw e.
Proof.
  induction l as [| x l IH]; simpl; [discriminate |].
  destruct (p x) as [[|] | e'] eqn:E.
  - intros H. destruct (IH H) as [y [Hy Hp]]. exists y. split; [right; exact Hy | exact Hp].
  - discriminate.
  - intros H. exists x. split; [left; reflexivity | rewrite E; exact H].
Qed.

Lemma existsb_false {A : Type} (f : A -> bool) (l : list A) :
  existsb f l = false <-> forall x, In x l -> f x = false.
Proof.
  induction l as [| x l IH]; simpl.
  - split; [intros _ y [] | reflexivity].
  - rewrite orb_false_iff, IH. split.
    + intros [Hx H] y [<- | Hy]; [exact Hx | apply H; exact Hy].
    + intros H. split; [apply H; left; reflexivity | intros y Hy; apply H; right; exact Hy].
Qed.

Section Cmr.

Variable HasEula : string.
Variable Read : string.
Variable cmrCollections : list string -> string -> string -> list CmrCollection.
Variable cmrPermissions : list string -> string -> JsObject (list string).

Lemma eulaTagIsFalse_true (collection : CmrCollection) :
  eulaTagIsFalse HasEula collection = Returned true
  <-> exists t tag, tags collection = Some t /\ getProperty t HasEula = Some tag
                    /\ data tag = DataBoolean false.
Proof.
  unfold eulaTagIsFalse. destruct (tags collection) as [t |] eqn:Et.
  - destruct (getProperty t HasEula) as [tag |] eqn:Eg.
    + destruct (data tag) as [[|] |] eqn:E; split; try discriminate;
        try (intros [t' [tag' [Ht [Hg Hd]]]]; congruence).
      intros _. exists t, tag. repeat split; assumption.
    + split; [discriminate |]. intros [t' [tag' [Ht [Hg Hd]]]]. congruence.
  - split; [discriminate |]. intros [t' [tag' [Ht _]]]. discriminate.
Qed.

Lemma eulaTagIsFalse_threw (collection : CmrCollection) (e : Exn) :
  eulaTagIsFalse HasEula collection = Threw e ->
  (exists t, tags collection = Some t /\ getProperty t HasEula = None)
  /\ exists message, e = TypeError message.
Proof.
  unfold eulaTagIsFalse. destruct (tags collection) as [t |]; [| discriminate].
  destruct (getProperty t HasEula) as [tag |] eqn:E; [discriminate |].
  intros H. inversion H. split; [exists t; split; [reflexivity | exact E] |].
  eexists. reflexivity.
Qed.

Lemma guestCannotRead_false (permissionsMap : JsObject (list string)) (id : string) :
  guestCannotRead Read permissionsMap id = false
  <-> exists permissions, getProperty permissionsMap id = Some permissions
                          /\ In Read permissions.
Proof.
  unfold guestCannotRead. destruct (getProperty permissionsMap id) as [permissions |].
  - rewrite negb_false_iff, existsb_exists. split.
    + intros [x [Hin Hx]]. apply String.eqb_eq in Hx. subst x.
      exists permissions. split; [reflexivity | exact Hin].
    + intros [permissions' [H Hin]]. inversion H. subst.
      exists Read. split; [exact Hin | apply String.eqb_refl].
  - split; [discriminate |]. intros [permissions [H _]]. discriminate.
Qed.

(** The answer of [isShareable] and the requests it makes, case by case. *)
Lemma isShareable_cases (this : Job) (accessToken : string) (made : list CmrRequest) :
  isShareable HasEula Read cmrCollections cmrPermissions this accessToken made
  = let ids := collectionIds this in
    let collections := cmrCollections ids accessToken HasEula in
    let made1 := (made ++ [GetCollectionsByIds ids accessToken HasEula])%list in
    match ids with
    | [] => (Returned false, made)
    | _ :: _ =>
        if Nat.eqb (List.length collections) (List.length ids)
        then match every (eulaTagIsFalse HasEula) collections with
             | Returned true =>
                 (Returned (negb (existsb (guestCannotRead Read
                                             (cmrPermissions ids accessToken)) ids)),
                  (made1 ++ [GetPermissions ids accessToken])%list)
             | Returned false => (Returned false, made1)
             | Threw e => (Threw e, made1)
             end
        else (Returned false, made1)
    end.
Proof.
  cbv zeta.
  unfold isShareable, collectionsHaveEulaRestriction, collectionsHaveGuestReadRestriction,
    getCollectionsByIds, getPermissions, bind, modify, ret, throw.
  destruct (collectionIds this) as [| id0 ids]; [reflexivity |].
  cbn [List.length Nat.eqb].
  destruct (Nat.eqb _ _); cbn [negb]; [| reflexivity].
  destruct (every _ _) as [[|] | e]; cbn [negb]; try reflexivity.
  destruct (existsb _ _); reflexivity.
Qed.

Lemma eulaRestriction_cases (this : Job) (accessToken : string) (made : list CmrRequest) :
  fst (collectionsHaveEulaRestriction HasEula cmrCollections this accessToken made)
  = let ids := collectionIds this in
    let collections := cmrCollections ids accessToken HasEula in
    if Nat.eqb (List.length collections) (List.length ids)
    then match every (eulaTagIsFalse HasEula) collections with
         | Returned all => Returned (negb all)
         | Threw e => Threw e
         end
    else Returned true.
Proof.
  cbv zeta.
  unfold collectionsHaveEulaRestriction, getCollectionsByIds, bind, modify, ret, throw.
  destruct (Nat.eqb _ _); cbn [negb]; [| reflexivity].
  destruct (every _ _) as [[|] | e]; reflexivity.
Qed.

(** X22.  [isShareable] returns true exactly when the job has at least
    one collection, CMR returns as many collections as the job has ids,
    every one of them carries the EULA tag with [data] equal to [false],
    and the permissions CMR reports for every collection id of the job
    include read.  A job without collections is not shareable and no
    request is made for it; when the EULA check restricts the job, or
    throws because a returned collection has tags but not the EULA tag,
    the permissions are never requested. *)
Theorem isShareable_exactly (this : Job) (accessToken : string) (made : list CmrRequest) :
  let ids := collectionIds this in
  let answer := isShareable HasEula Read cmrCollections cmrPermissions this accessToken made in
  (fst answer = Returned true
   <-> ids <> []
       /\ List.length (cmrCollections ids accessToken HasEula) = List.length ids
       /\ (forall collection,
             In collection (cmrCollections ids accessToken HasEula) ->
             exists t tag, tags collection = Some t /\ getProperty t HasEula = Some tag
                           /\ data tag = DataBoolean false)
       /\ (forall id, In id ids ->
             exists permissions,
               getProperty (cmrPermissions ids accessToken) id = Some permissions
               /\ In Read permissions))
  /\ (ids = [] -> answer = (Returned false, made))
  /\ (ids <> [] ->
      fst (collectionsHaveEulaRestriction HasEula cmrCollections this accessToken made)
      <> Returned false ->
      snd answer = (made ++ [GetCollectionsByIds ids accessToken HasEula])%list
      /\ fst answer <> Returned true)
  /\ (forall e, fst answer = Threw e ->
        (exists message, e = TypeError message)
        /\ exists collection t,
             In collection (cmrCollections ids accessToken HasEula)
             /\ tags collection = Some t /\ getProperty t HasEula = None).
Proof.
  cbv zeta. rewrite isShareable_cases, eulaRestriction_cases. cbv zeta.
  destruct (collectionIds this) as [| id0 ids] eqn:Eids.
  { split; [| split; [| split]].
    - split; [discriminate | intros [H _]; now destruct H].
    - reflexivity.
    - intros H. now destruct H.
    - discriminate. }
  set (all := id0 :: ids).
  destruct (Nat.eqb (List.length (cmrCollections all accessToken HasEula))
              (List.length all)) eqn:Elen.
  2: { apply Nat.eqb_neq in Elen. split; [| split; [| split]].
       - split; [discriminate | intros [_ [H _]]; contradiction].
       - discriminate.
       - intros _ _. split; [reflexivity | discriminate].
       - discriminate. }
  apply Nat.eqb_eq in Elen.
  destruct (every (eulaTagIsFalse HasEula) (cmrCollections all accessToken HasEula))
    as [[|] | e] eqn:Eevery.
  - pose proof (proj1 (every_true _ _) Eevery) as Hall.
    split; [| split; [| split]].
    + cbn [fst]. split.
      * intros H. inversion H as [Hguest]. apply negb_true_iff in Hguest.
        split; [discriminate |]. split; [exact Elen |]. split.
        -- intros collection Hin. apply eulaTagIsFalse_true. apply Hall. exact Hin.
        -- intros id Hid. apply guestCannotRead_false.
           exact (proj1 (existsb_false (guestCannotRead Read (cmrPermissions all accessToken))
                           all) Hguest id Hid).
      * intros [_ [_ [_ Hperm]]]. f_equal. apply negb_true_iff.
        apply existsb_false. intros id Hid. apply guestCannotRead_false.
        apply Hperm. exact Hid.
    + discriminate.
    + intros _ H. now destruct H.
    + discriminate.
  - assert (Hnot : ~ (forall collection,
                        In collection (cmrCollections all accessToken HasEula) ->
                        exists t tag, tags collection = Some t
                                      /\ getProperty t HasEula = Some tag
                                      /\ data tag = DataBoolean false)).
    { intros Hall.
      assert (Ht : every (eulaTagIsFalse HasEula) (cmrCollections all accessToken HasEula)
                   = Returned true).
      { apply every_true. intros c Hc. apply eulaTagIsFalse_true. apply Hall. exact Hc. }
      congruence. }
    split; [| split; [| split]].
    + split; [discriminate | intros [_ [_ [Hall _]]]; contradiction].
    + discriminate.
    + intros _ _. split; [reflexivity | discriminate].
    + discriminate.
  - destruct (every_threw _ _ _ Eevery) as [c [Hc Hp]].
    destruct (eulaTagIsFalse_threw c e Hp) as [[t [Ht Hg]] Hmsg].
    split; [| split; [| split]].
    + split; [discriminate |]. intros [_ [_ [Hall _]]].
      destruct (Hall c Hc) as [t' [tag [Ht' [Hg' _]]]]. congruence.
    + discriminate.
    + intros _ _. split; [reflexivity | discriminate].
    + intros e' H. inversion H. subst. split; [exact Hmsg |].
      exists c, t. repeat split; assumption.
Qed.

End Cmr.

End SharingProofs.

(** ** Terminal and active statuses *)

(** X23.  The terminal statuses are exactly the dead ends of the state
    machine: [canTransition] is false for every desired status and every
    event when the current status is terminal, and from every other
    status some transition is accepted.  No status is both active and
    terminal, and paused is the only status that is neither. *)
Theorem terminal_statuses_are_dead_ends (s : JobStatus) :
  (includesStatus terminalStates (Some s) = true
   <-> forall desired event, canTransition s desired event = false)
  /\ includesStatus activeJobStatuses (Some s)
     = negb (includesStatus terminalStates (Some s)) && negb (JobStatus_beq s PAUSED).
Proof.
  split; [| destruct s; reflexivity].
  split.
  - intros H desired event. destruct s; try discriminate H;
      destruct desired, event; reflexivity.
  - intros H.
    destruct s; try reflexivity; exfalso;
      first [ pose proof (H RUNNING START) as H'; vm_compute in H'; discriminate H'
            | pose proof (H CANCELED CANCEL) as H'; vm_compute in H'; discriminate H' ].
Qed.

(** ** The links of a job *)

Lemma call_jobID (m : Mutator) (this : Job) : jobID (snd (call m this)) = jobID this.
Proof.
  destruct (call_outcome m this) as [[_ [message H]] | [_ [this' [H [_ [Hid _]]]]]];
    rewrite H; [reflexivity | exact Hid].
Qed.

Lemma runJobCall_links (awsDefaultRegion : string) (c : JobCall) (this : Job) :
  jobID (snd (runJobCall awsDefaultRegion c this)) = jobID this
  /\ exists added,
       links (snd (runJobCall awsDefaultRegion c this)) = (links this ++ added)%list
       /\ (List.length added <= 1)%nat
       /\ Forall (fun l => link_jobID l = jobID this) added.
Proof.
  assert (Hnone : forall this' : Job,
            jobID this' = jobID this -> links this' = links this ->
            jobID this' = jobID this
            /\ exists added,
                 links this' = (links this ++ added)%list
                 /\ (List.length added <= 1)%nat
                 /\ Forall (fun l => link_jobID l = jobID this) added).
  { intros this' Hid Hl. split; [exact Hid |]. exists []. rewrite app_nil_r.
    split; [exact Hl |]. split; [simpl; lia | constructor]. }
  assert (Hone : forall link,
            jobID (snd (addLink link this)) = jobID this
            /\ exists added,
                 links (snd (addLink link this)) = (links this ++ added)%list
                 /\ (List.length added <= 1)%nat
                 /\ Forall (fun l => link_jobID l = jobID this) added).
  { intros link. split; [reflexivity |]. eexists. split; [reflexivity |].
    split; [simpl; lia |]. constructor; [reflexivity | constructor]. }
  destruct c as [link | [location |] | m |]; simpl.
  - apply Hone.
  - destruct (negb (String.eqb location "")); [apply Hone | apply Hnone; reflexivity].
  - apply Hnone; reflexivity.
  - apply Hnone; [apply call_jobID | exact (proj2 (proj2 (call_keeps m this)))].
  - apply Hnone; reflexivity.
Qed.

(** X24.  The links of a job only grow, and at the end: after any
    sequence of [addLink], [addStagingBucketLink], mutator and
    [completeBatch] calls the links the job had are still there, in
    their places, followed by at most one new link per call; every link
    added carries the id of this job, whatever [jobID] it was handed
    over with, and the job's own id never changes. *)
Theorem links_only_grow (awsDefaultRegion : string) (cs : list JobCall) (this : Job) :
  jobID (runJobCalls awsDefaultRegion cs this) = jobID this
  /\ exists added,
       links (runJobCalls awsDefaultRegion cs this) = (links this ++ added)%list
       /\ (List.length added <= List.length cs)%nat
       /\ Forall (fun l => link_jobID l = jobID this) added.
Proof.
  revert this. induction cs as [| c cs IH]; intros this; simpl.
  - split; [reflexivity |]. exists []. rewrite app_nil_r.
    split; [reflexivity |]. split; [apply Nat.le_refl | constructor].
  - destruct (runJobCall_links awsDefaultRegion c this) as [Hid [first [Hl [Hn Hf]]]].
    destruct (IH (snd (runJobCall awsDefaultRegion c this))) as [Hid' [rest [Hl' [Hn' Hf']]]].
    split; [rewrite Hid'; exact Hid |].
    exists (first ++ rest)%list. split; [rewrite Hl', Hl, app_assoc; reflexivity |].
    split; [rewrite length_app; lia |].
    apply Forall_app. split.
    + exact Hf.
    + eapply Forall_impl; [| exact Hf']. intros l H. rewrite H. exact Hid.
Qed.
